(** * PmLogCtl: context matching, listing, level setting and key/value encoding

    A shallow embedding of [src/PmLogCtl.c], [src/PmLogCtl.h] and
    [src/PmLogCtlUtil.c].  C strings are [string]s without the NUL
    character, [int] values are [Z], nullable pointers are [option]s, the
    PmLogLib library and the few libc routines whose result the C standard
    leaves open are parameters. *)

From Stdlib Require Import ZArith Lia Ascii String List Bool DecimalString.
From stdpp Require Import base list sorting.
Import ListNotations.

#[local] Open Scope Z_scope.

(** ** C strings *)

Module CStr.

Definition NUL : ascii := Ascii.zero.

(** The value of a [char] converted to [unsigned char]. *)
Definition uchar (c : ascii) : Z := Z.of_N (N_of_ascii c).

(** A [string] stands for a C string when no character of it is NUL. *)
Fixpoint nul_free (s : string) : bool :=
  match s with
  | EmptyString => true
  | String a s' => negb (Ascii.eqb a NUL) && nul_free s'
  end.

Definition cstring (s : string) : Prop := nul_free s = true.

Definition cstring_opt (p : option string) : Prop :=
  match p with None => True | Some s => cstring s end.

(** [strlen] *)
Definition strlen (s : string) : Z := Z.of_nat (String.length s).

(** [strchr(s, c)] for a character [c] other than NUL: the offset of the
    first occurrence, [None] for the NULL result. *)
Fixpoint strchr (s : string) (c : ascii) : option nat :=
  match s with
  | EmptyString => None
  | String a s' =>
      if Ascii.eqb a c then Some O
      else match strchr s' c with
           | Some k => Some (S k)
           | None => None
           end
  end.

(** [strcmp]: zero, or the difference of the first two bytes that differ. *)
Fixpoint strcmp (s1 s2 : string) : Z :=
  match s1, s2 with
  | EmptyString, EmptyString => 0
  | EmptyString, String b _ => 0 - uchar b
  | String a _, EmptyString => uchar a
  | String a s1', String b s2' =>
      if Ascii.eqb a b then strcmp s1' s2' else uchar a - uchar b
  end.

(** [strncmp] *)
Fixpoint strncmp (s1 s2 : string) (n : nat) {struct n} : Z :=
  match n with
  | O => 0
  | S n' =>
      match s1, s2 with
      | EmptyString, EmptyString => 0
      | EmptyString, String b _ => 0 - uchar b
      | String a _, EmptyString => uchar a
      | String a s1', String b s2' =>
          if Ascii.eqb a b then strncmp s1' s2' n' else uchar a - uchar b
      end
  end.

(** [tolower] in the C locale. *)
Definition tolower (c : ascii) : ascii :=
  let n := N_of_ascii c in
  if (65 <=? n)%N && (n <=? 90)%N then ascii_of_N (n + 32) else c.

(** [strcasecmp]: [strcmp] over the lower-cased bytes. *)
Fixpoint strcasecmp (s1 s2 : string) : Z :=
  match s1, s2 with
  | EmptyString, EmptyString => 0
  | EmptyString, String b _ => 0 - uchar (tolower b)
  | String a _, EmptyString => uchar (tolower a)
  | String a s1', String b s2' =>
      if Ascii.eqb (tolower a) (tolower b) then strcasecmp s1' s2'
      else uchar (tolower a) - uchar (tolower b)
  end.

(** The bytes a [char *] to the C string [s] is known to point at: the
    characters and the terminating NUL.  What follows the terminator in
    memory is not part of the string. *)
Definition cstr_mem (s : string) : list ascii :=
  list_ascii_of_string s ++ [NUL].

(** [memcmp(m1, m2, n)] over such memory: bytes are compared in order up to
    the first difference; [None] when the comparison would have to read a
    byte behind a terminator, whose value is unknown. *)
Fixpoint memcmp (m1 m2 : list ascii) (n : nat) {struct n} : option Z :=
  match n with
  | O => Some 0
  | S n' =>
      match m1, m2 with
      | a :: m1', b :: m2' =>
          if Ascii.eqb a b then memcmp m1' m2' n' else Some (uchar a - uchar b)
      | _, _ => None
      end
  end.

End CStr.

Import CStr.

(** ** The context matcher *)

(** [PrvIsWildcardContextName] *)
Definition PrvIsWildcardContextName (matchContextName : string) : bool :=
  match strchr matchContextName "*" with
  | Some _ => true
  | None => false
  end.

(** [PrvMatchContextName]; [matchContextName = None] is the NULL pattern.
    The result is [None] only when [memcmp] would read unknown memory. *)
Definition PrvMatchContextName (contextName : string)
    (matchContextName : option string) : option bool :=
  match matchContextName with
  | None => Some true
  | Some pat =>
      match strchr pat "*" with
      | None =>
          (* no wildcard means we need an exact match *)
          if strcmp contextName pat =? 0 then Some true else Some false
      | Some matchPrefixLen =>
          if Nat.eqb matchPrefixLen 0 then Some true
          else
            match memcmp (cstr_mem contextName) (cstr_mem pat) matchPrefixLen with
            | Some r => if r =? 0 then Some true else Some false
            | None => None
            end
      end
  end.

(** The matcher as the specification words it: NULL matches everything, a
    pattern without a star matches by equality, a pattern whose first star
    is at offset [k] matches when the first [k] bytes agree. *)
Definition Matches_ref (candidateName : string) (pattern : option string) : bool :=
  match pattern with
  | None => true
  | Some p =>
      match String.index 0 "*" p with
      | None => String.eqb candidateName p
      | Some k => String.eqb (substring 0 k candidateName) (substring 0 k p)
      end
  end.

(** ** Results, library errors and observable events *)

(** [Result] of [PmLogCtl.h]. *)
Inductive Result : Set :=
| RESULT_OK
| RESULT_PARAM_ERR
| RESULT_RUN_ERR
| RESULT_HELP.

(** [PmLogErr] of PmLogLib.  The commands only name [kPmLogErr_None] and
    [kPmLogErr_Unknown]; every other library error is [kPmLogErr_Lib]. *)
Inductive PmLogErr : Set :=
| kPmLogErr_None
| kPmLogErr_Unknown
| kPmLogErr_Lib (code : nat).

Definition is_kPmLogErr_None (e : PmLogErr) : bool :=
  match e with kPmLogErr_None => true | _ => false end.

Definition Result_eqb (a b : Result) : bool :=
  match a, b with
  | RESULT_OK, RESULT_OK | RESULT_PARAM_ERR, RESULT_PARAM_ERR
  | RESULT_RUN_ERR, RESULT_RUN_ERR | RESULT_HELP, RESULT_HELP => true
  | _, _ => false
  end.

(** Arguments of a [printf]-style call. *)
Inductive Arg : Set :=
| ArgS (s : string)          (* %s with a string *)
| ArgNull                    (* %s with a NULL pointer *)
| ArgD (n : Z)               (* %d *)
| ArgX (e : PmLogErr).       (* 0x%08X with a library error code *)

Definition ArgS_opt (s : option string) : Arg :=
  match s with Some s' => ArgS s' | None => ArgNull end.

Inductive Stream : Set := stdout | stderr.

(** What a run of the tool does to the outside: the [fprintf] calls on the
    console that were executed, and the calls into PmLogLib and the kernel
    log that change something. *)
Inductive Event (Ctx : Type) : Type :=
| Print (f : Stream) (fmt : string) (args : list Arg)
| Call_PmLogSetContextLevel (context : option Ctx) (level : Z)
| Call_PmLogGetContext (contextName : string)
| Call_PmLogPrint (context : option Ctx) (level : Z) (fmt : string) (args : list Arg)
| Call_PmLogString (context : option Ctx) (level : Z)
    (msgID kvPairs message : option string)
| Call_PmLogInfo (context : option Ctx) (msgID : string) (numKV : Z) (message : string)
| Call_kmsg_write (text : string).

Arguments Print {Ctx}.
Arguments Call_PmLogSetContextLevel {Ctx}.
Arguments Call_PmLogGetContext {Ctx}.
Arguments Call_PmLogPrint {Ctx}.
Arguments Call_PmLogString {Ctx}.
Arguments Call_PmLogInfo {Ctx}.
Arguments Call_kmsg_write {Ctx}.

Definition is_Print {Ctx} (e : Event Ctx) : bool :=
  match e with Print _ _ _ => true | _ => false end.

(** The outcome of running a piece of the program from a library state:
    it returns [Done], or it runs into behaviour the C standard leaves
    undefined ([Undefined]), or the model ran out of loop fuel ([Fuel]). *)
Inductive Outcome (W Ctx A : Type) : Type :=
| Done (a : A) (tr : list (Event Ctx)) (w : W)
| Undefined
| Fuel.

Arguments Done {W Ctx A}.
Arguments Undefined {W Ctx A}.
Arguments Fuel {W Ctx A}.

(** A command reads the global [flag_silence] and threads the library
    state. *)
Definition M (W Ctx A : Type) : Type := bool -> W -> Outcome W Ctx A.

Definition ret {W Ctx A} (a : A) : M W Ctx A :=
  fun _ w => Done a [] w.

Definition bind {W Ctx A B} (m : M W Ctx A) (k : A -> M W Ctx B) : M W Ctx B :=
  fun flag_silence w =>
    match m flag_silence w with
    | Done a tr w' =>
        match k a flag_silence w' with
        | Done b tr' w'' => Done b (tr ++ tr') w''
        | Undefined => Undefined
        | Fuel => Fuel
        end
    | Undefined => Undefined
    | Fuel => Fuel
    end.

Definition undefined {W Ctx A} : M W Ctx A := fun _ _ => Undefined.
Definition out_of_fuel {W Ctx A} : M W Ctx A := fun _ _ => Fuel.

(** Reading the library state, and a library call that changes it and is
    recorded as an event. *)
Definition read {W Ctx A} (f : W -> A) : M W Ctx A :=
  fun _ w => Done (f w) [] w.

Definition call {W Ctx A} (ev : Event Ctx) (f : W -> A * W) : M W Ctx A :=
  fun _ w => let (a, w') := f w in Done a [ev] w'.

Declare Scope pm_scope.
Delimit Scope pm_scope with pm.
Notation "'do' x <- m ; k" := (bind m (fun x => k))
  (at level 10, x name, m at level 100, k at level 200) : pm_scope.
Notation "'exec' m ; k" := (bind m (fun _ => k))
  (at level 10, m at level 100, k at level 200) : pm_scope.
#[local] Open Scope pm_scope.

Definition LF : string := String (ascii_of_nat 10) EmptyString.
Definition COMPONENT_PREFIX : string := "PmLogCtl: ".

(** The [InfoPrint] and [ErrPrint] macros of [PmLogCtl.h]: both test
    [flag_silence] before they print. *)
Definition InfoPrint {W Ctx} (fmt : string) (args : list Arg) : M W Ctx unit :=
  fun flag_silence w =>
    if negb flag_silence
    then Done tt [Print stdout (COMPONENT_PREFIX ++ fmt) args] w
    else Done tt [] w.

Definition ErrPrint {W Ctx} (fmt : string) (args : list Arg) : M W Ctx unit :=
  fun flag_silence w =>
    if negb flag_silence
    then Done tt [Print stderr (COMPONENT_PREFIX ++ fmt) args] w
    else Done tt [] w.

(** [DbgPrint] is not guarded. *)
Definition DbgPrint {W Ctx} (fmt : string) (args : list Arg) : M W Ctx unit :=
  fun _ w => Done tt [Print stdout (COMPONENT_PREFIX ++ fmt) args] w.

(** ** PmLogLib and libc as the tool sees them *)

(** One entry and the whole of a context snapshot. *)
Record ContextInfo_t (Ctx : Type) : Type := mkContextInfo {
  context : option Ctx;
  contextName : string
}.

Arguments mkContextInfo {Ctx}.
Arguments context {Ctx}.
Arguments contextName {Ctx}.

Record ContextsInfo_t (Ctx : Type) : Type := mkContextsInfo {
  numContexts : Z;
  contextInfos : list (ContextInfo_t Ctx)
}.

Arguments mkContextsInfo {Ctx}.
Arguments numContexts {Ctx}.
Arguments contextInfos {Ctx}.

(** [SortCmpContextInfoByName] *)
Definition SortCmpContextInfoByName {Ctx} (p1 p2 : ContextInfo_t Ctx) : Z :=
  strcasecmp (contextName p1) (contextName p2).

(** The part of PmLogLib that PmLogCtl calls, over a library state [W] and
    context handles [Ctx].  A call returns its [PmLogErr] and the value it
    leaves in its out-parameter. *)
Record PmLogLib (W Ctx : Type) : Type := {
  PMLOG_MAX_NUM_CONTEXTS : nat;
  kPmLogGlobalContextName : string;
  kPmLogGlobalContext : Ctx;
  kPmLogLevel_Emergency : Z;
  kPmLogLevel_Notice : Z;
  kPmLogLevel_Debug : Z;
  PmLogGetNumContexts : W -> PmLogErr * Z;
  PmLogGetIndContext : Z -> W -> PmLogErr * option Ctx;
  PmLogGetContextName : option Ctx -> W -> PmLogErr * string;
  PmLogFindContext : string -> W -> PmLogErr * option Ctx;
  PmLogGetContext : string -> W -> (PmLogErr * option Ctx) * W;
  PmLogSetContextLevel : option Ctx -> Z -> W -> PmLogErr * W;
  enabledLevel : Ctx -> W -> Z;
  PmLogStringToLevel : string -> option Z;
  PmLogLevelToString : Z -> option string;
  PmLogGetErrDbgString : PmLogErr -> string;
  PmLogPrint_ : option Ctx -> Z -> string -> list Arg -> W -> PmLogErr * W;
  PmLogString :
    option Ctx -> Z -> option string -> option string -> option string ->
    W -> PmLogErr * W;
  PmLogInfo : option Ctx -> string -> Z -> string -> W -> PmLogErr * W
}.

Arguments PMLOG_MAX_NUM_CONTEXTS {W Ctx}.
Arguments kPmLogGlobalContextName {W Ctx}.
Arguments kPmLogGlobalContext {W Ctx}.
Arguments kPmLogLevel_Emergency {W Ctx}.
Arguments kPmLogLevel_Notice {W Ctx}.
Arguments kPmLogLevel_Debug {W Ctx}.
Arguments PmLogGetNumContexts {W Ctx}.
Arguments PmLogGetIndContext {W Ctx}.
Arguments PmLogGetContextName {W Ctx}.
Arguments PmLogFindContext {W Ctx}.
Arguments PmLogGetContext {W Ctx}.
Arguments PmLogSetContextLevel {W Ctx}.
Arguments enabledLevel {W Ctx}.
Arguments PmLogStringToLevel {W Ctx}.
Arguments PmLogLevelToString {W Ctx}.
Arguments PmLogGetErrDbgString {W Ctx}.
Arguments PmLogPrint_ {W Ctx}.
Arguments PmLogString {W Ctx}.
Arguments PmLogInfo {W Ctx}.

(** The libc and kernel services whose outcome the program cannot decide:
    [qsort] (any sorted rearrangement is a legal result), whether [malloc]
    succeeds, and writing to [/dev/kmsg]. *)
Record Libc (W Ctx : Type) : Type := {
  qsort :
    (ContextInfo_t Ctx -> ContextInfo_t Ctx -> Z) ->
    list (ContextInfo_t Ctx) -> list (ContextInfo_t Ctx);
  malloc_ok : W -> bool;
  (* fopen("/dev/kmsg", "w"): [Some errno] when it fails *)
  fopen_kmsg : W -> option Z;
  (* fprintf on that file: the return value, errno, the new state *)
  fprintf_kmsg : string -> W -> (Z * Z) * W;
  strerror : Z -> string
}.

Arguments qsort {W Ctx}.
Arguments malloc_ok {W Ctx}.
Arguments fopen_kmsg {W Ctx}.
Arguments fprintf_kmsg {W Ctx}.
Arguments strerror {W Ctx}.

(** What the C standard promises of [qsort] with the comparison function
    of this program: the result is a rearrangement of the input, in
    non-decreasing order.  Nothing is promised about elements that compare
    equal. *)
Definition qsort_spec {W Ctx} (libc : Libc W Ctx) : Prop :=
  forall l : list (ContextInfo_t Ctx),
    Permutation l (qsort libc SortCmpContextInfoByName l) /\
    Sorted (fun a b => SortCmpContextInfoByName a b <= 0)
      (qsort libc SortCmpContextInfoByName l).

(** ** The context lister *)

Section Lister.
Context {W Ctx : Type} (lib : PmLogLib W Ctx) (libc : Libc W Ctx).

Abbreviation ContextInfo := (ContextInfo_t Ctx).
Abbreviation ContextsInfo := (ContextsInfo_t Ctx).

(** The snapshot array has [PMLOG_MAX_NUM_CONTEXTS + 1] slots. *)
Definition snapshot_slots : nat := S (PMLOG_MAX_NUM_CONTEXTS lib).

(** The [memset] of the whole snapshot to zero bytes. *)
Definition ContextsInfo_zero : ContextsInfo :=
  mkContextsInfo 0 (replicate snapshot_slots (mkContextInfo None EmptyString)).

(** A store through [contextInfoP = &contextInfos[slot]]; outside the
    array it is undefined. *)
Definition store_slot (ci : ContextsInfo) (slot : nat)
    (f : ContextInfo -> ContextInfo) : option ContextsInfo :=
  match contextInfos ci !! slot with
  | Some e => Some (mkContextsInfo (numContexts ci) (<[slot := f e]> (contextInfos ci)))
  | None => None
  end.

(** The body of [for (i = 0; i < n; i++)] in [PrvGetContextList], run for
    the [k] remaining values of [i].  An early [return] carries an error
    other than [kPmLogErr_None]; [kPmLogErr_None] means the loop ran to its
    end.  [None] is undefined behaviour. *)
Fixpoint PrvGetContextList_loop (k : nat) (i : Z) (w : W)
    (matchContextName : option string) (ci : ContextsInfo)
    : option (PmLogErr * ContextsInfo) :=
  match k with
  | O => Some (kPmLogErr_None, ci)
  | S k' =>
      if (0 <=? numContexts ci) && (numContexts ci <? Z.of_nat (PMLOG_MAX_NUM_CONTEXTS lib) + 1)
      then
        let slot := Z.to_nat (numContexts ci) in
        let '(logErr, ctx) := PmLogGetIndContext lib i w in
        match store_slot ci slot (fun e => mkContextInfo ctx (contextName e)) with
        | None => None
        | Some ci1 =>
            if negb (is_kPmLogErr_None logErr) then Some (logErr, ci1)
            else
              let '(logErr, name) := PmLogGetContextName lib ctx w in
              match store_slot ci1 slot (fun e => mkContextInfo (context e) name) with
              | None => None
              | Some ci2 =>
                  if negb (is_kPmLogErr_None logErr) then Some (logErr, ci2)
                  else
                    match PrvMatchContextName name matchContextName with
                    | None => None
                    | Some false =>
                        PrvGetContextList_loop k' (i + 1) w matchContextName ci2
                    | Some true =>
                        if numContexts ci2 >=? Z.of_nat (PMLOG_MAX_NUM_CONTEXTS lib) + 1
                        then Some (kPmLogErr_Unknown, ci2)
                        else
                          PrvGetContextList_loop k' (i + 1) w matchContextName
                            (mkContextsInfo (numContexts ci2 + 1) (contextInfos ci2))
                    end
              end
        end
      else Some (kPmLogErr_Unknown, ci)
  end.

(** [PrvGetContextList] *)
Definition PrvGetContextList (w : W) (matchContextName : option string)
    : option (PmLogErr * ContextsInfo) :=
  let ci := ContextsInfo_zero in
  let '(logErr, n) := PmLogGetNumContexts lib w in
  if negb (is_kPmLogErr_None logErr) then Some (logErr, ci)
  else if n <=? 0 then Some (kPmLogErr_Unknown, ci)
  else
    match PrvGetContextList_loop (Z.to_nat n) 0 w matchContextName ci with
    | None => None
    | Some (kPmLogErr_None, ci') =>
        if numContexts ci' >? 0
        then
          let num := Z.to_nat (numContexts ci') in
          Some (kPmLogErr_None,
                mkContextsInfo (numContexts ci')
                  (qsort libc SortCmpContextInfoByName (take num (contextInfos ci'))
                   ++ drop num (contextInfos ci')))
        else Some (kPmLogErr_None, ci')
    | Some (logErr, ci') => Some (logErr, ci')
    end.

(** The entries a successful listing returns: the first [numContexts]
    slots. *)
Definition snapshot (ci : ContextsInfo) : list ContextInfo :=
  take (Z.to_nat (numContexts ci)) (contextInfos ci).

(** The snapshot is an array of [snapshot_slots] entries of which the first
    [numContexts] are in use. *)
Definition snapshot_inv (ci : ContextsInfo) : Prop :=
  length (contextInfos ci) = snapshot_slots /\
  0 <= numContexts ci <= Z.of_nat snapshot_slots.

(** What the lister fetches for registry index [i]. *)
Definition fetch (w : W) (i : Z) : PmLogErr + ContextInfo :=
  let '(e1, ctx) := PmLogGetIndContext lib i w in
  if negb (is_kPmLogErr_None e1) then inl e1
  else
    let '(e2, name) := PmLogGetContextName lib ctx w in
    if negb (is_kPmLogErr_None e2) then inl e2
    else inr (mkContextInfo ctx name).

(** The registry enumerates as [entries]: the count query succeeds with
    [length entries > 0] and the fetch of index [i] yields the [i]-th
    entry. *)
Definition enumerates (w : W) (entries : list ContextInfo) : Prop :=
  PmLogGetNumContexts lib w = (kPmLogErr_None, Z.of_nat (length entries)) /\
  (0 < length entries)%nat /\
  forall (i : nat) e, entries !! i = Some e -> fetch w (Z.of_nat i) = inr e.

(** The entries whose name the pattern matches, in registry order. *)
Definition matching (matchContextName : option string)
    (entries : list ContextInfo) : list ContextInfo :=
  List.filter
    (fun e =>
       match PrvMatchContextName (contextName e) matchContextName with
       | Some true => true
       | _ => false
       end)
    entries.

End Lister.

(** ** The commands *)

Section Commands.
Context {W Ctx : Type} (lib : PmLogLib W Ctx) (libc : Libc W Ctx).

Abbreviation ContextInfo := (ContextInfo_t Ctx).
Abbreviation ContextsInfo := (ContextsInfo_t Ctx).
Abbreviation Cmd := (M W Ctx).

Definition lift_opt {A} (o : option A) : Cmd A :=
  match o with
  | Some a => ret a
  | None => undefined
  end.

(** The two arguments every library error is reported with:
    [0x%08X] of the code and [%s] of [PmLogGetErrDbgString]. *)
Definition err_args (logErr : PmLogErr) : list Arg :=
  [ArgX logErr; ArgS (PmLogGetErrDbgString lib logErr)].

(** [SuggestHelp] *)
Definition SuggestHelp : Cmd unit :=
  ErrPrint ("Use -help for usage information." ++ LF) [].

(** [PrvResolveContextNameAlias] *)
Definition PrvResolveContextNameAlias (contextName : string) : string :=
  if strcmp contextName "." =? 0 then kPmLogGlobalContextName lib
  else contextName.

(** [ShowContext]; reading [enabledLevel] through a NULL context is
    undefined. *)
Definition ShowContext (contextInfoP : ContextInfo) : Cmd unit :=
  match context contextInfoP with
  | None => undefined
  | Some c =>
      do lvl <- read (enabledLevel lib c);
      let levelStr :=
        match PmLogLevelToString lib lvl with
        | Some s => s
        | None => "Unknown"%string
        end in
      InfoPrint ("Context '%s' = %s" ++ LF) [ArgS (contextName contextInfoP); ArgS levelStr]
  end.

(** The entries [contextInfos[0 .. numContexts-1]] a [for] loop walks;
    walking off the array is undefined. *)
Definition snapshot_checked (ci : ContextsInfo) : option (list ContextInfo) :=
  if (Z.to_nat (numContexts ci) <=? length (contextInfos ci))%nat
  then Some (snapshot ci)
  else None.

Fixpoint DoCmdShow_each (entries : list ContextInfo) : Cmd unit :=
  match entries with
  | [] => ret tt
  | contextInfoP :: rest =>
      exec ShowContext contextInfoP;
      DoCmdShow_each rest
  end.

(** [DoCmdShow]; [argv] starts with the command word. *)
Definition DoCmdShow (argv : list string) : Cmd Result :=
  let argc := Z.of_nat (length argv) in
  let matchContextName :=
    if argc >=? 2
    then option_map PrvResolveContextNameAlias (argv !! 1%nat)
    else None in
  if argc >=? 3
  then
    exec ErrPrint ("Invalid parameter '%s'" ++ LF) [ArgS_opt (argv !! 2%nat)];
    ret RESULT_PARAM_ERR
  else
    do ok <- read (malloc_ok libc);
    if negb ok
    then exec ErrPrint ("Out of memory." ++ LF) []; ret RESULT_RUN_ERR
    else
      do r <- read (fun w => PrvGetContextList lib libc w matchContextName);
      do r' <- lift_opt r;
      let '(logErr, contextInfos) := r' in
      if negb (is_kPmLogErr_None logErr)
      then
        exec ErrPrint ("Error getting contexts info: 0x%08X (%s)" ++ LF) (err_args logErr);
        ret RESULT_RUN_ERR
      else
        do entries <- lift_opt (snapshot_checked contextInfos);
        exec DoCmdShow_each entries;
        match matchContextName with
        | Some m =>
            if numContexts contextInfos =? 0
            then
              exec (if PrvIsWildcardContextName m
                    then ErrPrint ("No contexts matched '%s'." ++ LF) [ArgS m]
                    else ErrPrint ("Context '%s' not found." ++ LF) [ArgS m]);
              ret RESULT_RUN_ERR
            else ret RESULT_OK
        | None => ret RESULT_OK
        end.

(** The argument loop of [DoCmdSet] over the arguments not yet read;
    [inl] is an early [return]. *)
Fixpoint DoCmdSet_args (rest : list string) (matchContextName : option string)
    (matchedContext : option Ctx) (levelIntP : option Z)
    : Cmd (Result + (option string * option Ctx * option Z)) :=
  match rest with
  | [] => ret (inr (matchContextName, matchedContext, levelIntP))
  | arg :: rest' =>
      match matchContextName with
      | None =>
          let m := PrvResolveContextNameAlias arg in
          if negb (PrvIsWildcardContextName m)
          then
            do r <- read (PmLogFindContext lib m);
            let '(logErr, found) := r in
            if negb (is_kPmLogErr_None logErr)
            then
              exec ErrPrint ("Context '%s' not found." ++ LF) [ArgS m];
              ret (inl RESULT_PARAM_ERR)
            else DoCmdSet_args rest' (Some m) found levelIntP
          else DoCmdSet_args rest' (Some m) matchedContext levelIntP
      | Some _ =>
          match levelIntP with
          | None =>
              match PmLogStringToLevel lib arg with
              | None =>
                  exec ErrPrint ("Invalid level '%s'." ++ LF) [ArgS arg];
                  ret (inl RESULT_PARAM_ERR)
              | Some v => DoCmdSet_args rest' matchContextName matchedContext (Some v)
              end
          | Some _ =>
              exec ErrPrint ("Invalid parameter '%s'." ++ LF) [ArgS arg];
              ret (inl RESULT_PARAM_ERR)
          end
      end
  end.

(** The loop of [DoCmdSet] over the snapshot entries. *)
Fixpoint DoCmdSet_each (entries : list ContextInfo) (level : Z) : Cmd Result :=
  match entries with
  | [] => ret RESULT_OK
  | contextInfoP :: rest =>
      exec InfoPrint ("Setting context level for '%s'." ++ LF)
             [ArgS (contextName contextInfoP)];
      do logErr <- call (Call_PmLogSetContextLevel (context contextInfoP) level)
                        (PmLogSetContextLevel lib (context contextInfoP) level);
      if negb (is_kPmLogErr_None logErr)
      then
        exec ErrPrint ("Error setting context log level: 0x%08X (%s)" ++ LF)
               (err_args logErr);
        ret RESULT_RUN_ERR
      else DoCmdSet_each rest level
  end.

(** [DoCmdSet] *)
Definition DoCmdSet (argv : list string) : Cmd Result :=
  do parsed <- DoCmdSet_args (tail argv) None None None;
  match parsed with
  | inl result => ret result
  | inr (None, _, _) =>
      exec ErrPrint ("Context not specified." ++ LF) []; ret RESULT_PARAM_ERR
  | inr (Some _, _, None) =>
      exec ErrPrint ("Level not specified." ++ LF) []; ret RESULT_PARAM_ERR
  | inr (Some m, None, Some level) =>
      (* If a specific context wasn't matched, it's a wildcard match *)
      do ok <- read (malloc_ok libc);
      if negb ok
      then exec ErrPrint ("Out of memory." ++ LF) []; ret RESULT_RUN_ERR
      else
        do r <- read (fun w => PrvGetContextList lib libc w (Some m));
        do r' <- lift_opt r;
        let '(logErr, contextInfos) := r' in
        if negb (is_kPmLogErr_None logErr)
        then
          exec ErrPrint ("Error getting contexts info: 0x%08X (%s)" ++ LF) (err_args logErr);
          ret RESULT_RUN_ERR
        else if numContexts contextInfos =? 0
        then
          exec ErrPrint ("No contexts matched '%s'." ++ LF) [ArgS m];
          ret RESULT_RUN_ERR
        else
          do entries <- lift_opt (snapshot_checked contextInfos);
          DoCmdSet_each entries level
  | inr (Some m, Some matchedContext, Some level) =>
      exec InfoPrint ("Setting context level for '%s'." ++ LF) [ArgS m];
      do logErr <- call (Call_PmLogSetContextLevel (Some matchedContext) level)
                        (PmLogSetContextLevel lib (Some matchedContext) level);
      if negb (is_kPmLogErr_None logErr)
      then
        exec ErrPrint ("Error setting context log level: 0x%08X (%s)" ++ LF)
               (err_args logErr);
        ret RESULT_RUN_ERR
      else ret RESULT_OK
  end.

(** The argument loop of [DoCmdLog]. *)
Fixpoint DoCmdLog_args (rest : list string) (contextName : option string)
    (context : option Ctx) (levelIntP : option Z) (msg : option string)
    : Cmd (Result + (option string * option Ctx * option Z * option string)) :=
  match rest with
  | [] => ret (inr (contextName, context, levelIntP, msg))
  | arg :: rest' =>
      match contextName, levelIntP, msg with
      | None, _, _ =>
          let name := PrvResolveContextNameAlias arg in
          do r <- read (PmLogFindContext lib name);
          let '(logErr, found) := r in
          if negb (is_kPmLogErr_None logErr)
          then
            exec ErrPrint ("Invalid context '%s'." ++ LF) [ArgS arg];
            ret (inl RESULT_PARAM_ERR)
          else DoCmdLog_args rest' (Some name) found levelIntP msg
      | Some _, None, _ =>
          match PmLogStringToLevel lib arg with
          | Some v =>
              if v =? -1
              then
                exec ErrPrint ("Invalid level '%s'." ++ LF) [ArgS arg];
                ret (inl RESULT_PARAM_ERR)
              else DoCmdLog_args rest' contextName context (Some v) msg
          | None =>
              exec ErrPrint ("Invalid level '%s'." ++ LF) [ArgS arg];
              ret (inl RESULT_PARAM_ERR)
          end
      | Some _, Some _, None =>
          DoCmdLog_args rest' contextName context levelIntP (Some arg)
      | Some _, Some _, Some _ =>
          exec ErrPrint ("Invalid parameter '%s'." ++ LF) [ArgS arg];
          ret (inl RESULT_PARAM_ERR)
      end
  end.

(** [DoCmdLog] *)
Definition DoCmdLog (argv : list string) : Cmd Result :=
  let argc := Z.of_nat (length argv) in
  (* if only one parameter was specified, use default context and level *)
  let '(contextName, context, levelIntP) :=
    if argc =? 2
    then (Some (kPmLogGlobalContextName lib), Some (kPmLogGlobalContext lib),
          Some (kPmLogLevel_Notice lib))
    else (None, None, None) in
  do parsed <- DoCmdLog_args (tail argv) contextName context levelIntP None;
  match parsed with
  | inl result => ret result
  | inr (None, _, _, _) =>
      exec ErrPrint ("Context not specified." ++ LF) []; ret RESULT_PARAM_ERR
  | inr (Some _, _, None, _) =>
      exec ErrPrint ("Level not specified." ++ LF) []; ret RESULT_PARAM_ERR
  | inr (Some _, _, Some _, None) =>
      exec ErrPrint ("Message not specified." ++ LF) []; ret RESULT_PARAM_ERR
  | inr (Some _, context, Some level, Some msg) =>
      do logErr <- call (Call_PmLogPrint context level "%s" [ArgS msg])
                        (PmLogPrint_ lib context level "%s" [ArgS msg]);
      if negb (is_kPmLogErr_None logErr)
      then
        exec ErrPrint ("Error logging: 0x%08X (%s)" ++ LF) (err_args logErr);
        ret RESULT_RUN_ERR
      else ret RESULT_OK
  end.

(** *** The [logkv] command and its key/value buffer *)

(** [char kvPair[1024]] *)
Definition sizeof_kvPair : Z := 1024.
Definition INT_MAX : Z := 2147483647.

(** The [kvPair] buffer after its [memset] to zero. *)
Definition kvPair_zero : list ascii := replicate (Z.to_nat sizeof_kvPair) NUL.

(** [size_t] arithmetic wraps. *)
Definition to_size_t (z : Z) : Z := z mod 2 ^ 64.

Definition TAB : ascii := ascii_of_nat 9.
Definition NEWLINE : ascii := ascii_of_nat 10.
Definition DQUOTE : ascii := ascii_of_nat 34.

(** [strlen] of the string in a buffer: the offset of its first NUL;
    [None] when there is none inside the buffer. *)
Fixpoint buf_strlen (b : list ascii) : option nat :=
  match b with
  | [] => None
  | a :: b' =>
      if Ascii.eqb a NUL then Some O
      else match buf_strlen b' with
           | Some n => Some (S n)
           | None => None
           end
  end.

(** The C string held in a buffer. *)
Definition buf_cstr (b : list ascii) : option string :=
  match buf_strlen b with
  | Some n => Some (string_of_list_ascii (take n b))
  | None => None
  end.

(** Storing [src] at offset [off]; [None] when a byte would land outside
    the buffer. *)
Definition buf_write (b : list ascii) (off : nat) (src : list ascii)
    : option (list ascii) :=
  if (off + length src <=? length b)%nat
  then Some (take off b ++ src ++ drop (off + length src) b)
  else None.

(** [strncat(b, src, n)]: at most [n] characters of [src] and a NUL are
    stored behind the string in [b]; the function knows no bound. *)
Definition buf_strncat (b : list ascii) (src : string) (n : nat)
    : option (list ascii) :=
  match buf_strlen b with
  | Some len => buf_write b len (take n (list_ascii_of_string src) ++ [NUL])
  | None => None
  end.

(** [snprintf(b + off, size, ...)] where the formatted text is [s]: with
    [size = 0] nothing is stored, otherwise the first [size - 1] characters
    of [s] and a NUL. *)
Definition buf_snprintf (b : list ascii) (off : Z) (size : Z) (s : string)
    : option (list ascii) :=
  if size =? 0 then Some b
  else if off <? 0 then None
  else
    let n := Z.min (size - 1) (strlen s) in
    buf_write b (Z.to_nat off) (take (Z.to_nat n) (list_ascii_of_string s) ++ [NUL]).

(** The longest prefix of characters in the scan set, and what follows. *)
Fixpoint scan_set (p : ascii -> bool) (s : string) : string * string :=
  match s with
  | EmptyString => (EmptyString, EmptyString)
  | String a s' =>
      if p a
      then let '(x, r) := scan_set p s' in (String a x, r)
      else (EmptyString, s)
  end.

Definition not_equals_sign (c : ascii) : bool := negb (Ascii.eqb c "=").
Definition not_tab_newline (c : ascii) : bool :=
  negb (Ascii.eqb c TAB) && negb (Ascii.eqb c NEWLINE).

(** [sscanf(arg, "%m[^=]=%m[^\t\n]", &keyBuffer, &valueBuffer)]: the
    return value and the two buffers.  A [%[] conversion needs at least one
    character; the input ending before the first conversion is [EOF]. *)
Definition sscanf_kv (arg : string) : Z * option string * option string :=
  match arg with
  | EmptyString => (-1, None, None)
  | String _ _ =>
      let '(key, r1) := scan_set not_equals_sign arg in
      match key with
      | EmptyString => (0, None, None)
      | String _ _ =>
          match r1 with
          | EmptyString => (1, Some key, None)
          | String _ r2 =>
              let '(value, _) := scan_set not_tab_newline r2 in
              match value with
              | EmptyString => (1, Some key, None)
              | String _ _ => (2, Some key, Some value)
              end
          end
      end
  end.

(** The text [snprintf] formats for one pair: the key in double quotes, a
    colon, the value. *)
Definition kv_entry (key value : string) : string :=
  String DQUOTE (key ++ String DQUOTE (String ":" value)).

(** The inner loop of [DoCmdLogKV], entered with [arg = argv[paramIndex]].
    It returns early ([inl]) or leaves the loop with the values of
    [paramIndex], [arg] and [kvPair]. *)
Fixpoint DoCmdLogKV_pairs (fuel : nat) (argv : list string)
    (paramIndex : Z) (arg : option string) (index : Z) (result : bool)
    (kvPair : list ascii)
    : Cmd (Result + (Z * option string * list ascii)) :=
  let argc := Z.of_nat (length argv) in
  match fuel with
  | O => out_of_fuel
  | S fuel' =>
      if negb (paramIndex <? argc) then ret (inr (paramIndex, arg, kvPair))
      else if paramIndex =? argc - 1
      then
        (* No more key and value pair. *)
        if paramIndex =? 4
        then
          (* free text only *)
          do kvPair' <- lift_opt (buf_snprintf kvPair 0 sizeof_kvPair "{}");
          ret (inr (paramIndex, arg, kvPair'))
        else ret (inr (paramIndex, arg, kvPair))
      else
        match arg with
        | None =>
            DoCmdLogKV_pairs fuel' argv paramIndex arg index result kvPair
        | Some a =>
            do opened <-
              (if index =? 0
               then
                 do b <- lift_opt (buf_strncat kvPair "{" 1);
                 ret (b, index + 1)
               else ret (kvPair, index));
            let '(kvPair1, index1) := opened in
            let '(n, keyBuffer, valueBuffer) := sscanf_kv a in
            do parsed <-
              (if 2 >? n
               then
                 exec ErrPrint ("key and value pair is wrong : %s" ++ LF) [ArgS a];
                 ret (kvPair1, index1, result)
               else
                 do key <- lift_opt keyBuffer;
                 do value <- lift_opt valueBuffer;
                 do b <- lift_opt
                   (buf_snprintf kvPair1 index1
                      (to_size_t (sizeof_kvPair - index1 - 1))
                      (kv_entry key value));
                 (* the key, two quotes, the colon and the value *)
                 let kvLength := strlen key + 2 + 1 + strlen value in
                 if paramIndex =? argc - 2
                 then
                   do b' <- lift_opt (buf_strncat b "}" 1);
                   if kvLength <=? INT_MAX then ret (b', index1, true)
                   else undefined
                 else
                   do b' <- lift_opt (buf_strncat b "," 1);
                   (* the comma; index of next key and value pair *)
                   if index1 + (kvLength + 1) <=? INT_MAX
                   then ret (b', index1 + (kvLength + 1), true)
                   else undefined);
            let '(kvPair2, index2, result2) := parsed in
            let paramIndex' := paramIndex + 1 in
            let arg' := argv !! Z.to_nat paramIndex' in
            if negb result2 then ret (inl RESULT_PARAM_ERR)
            else DoCmdLogKV_pairs fuel' argv paramIndex' arg' index2 result2 kvPair2
        end
  end.

(** The local variables of [DoCmdLogKV] that its argument loop carries. *)
Record LogKV_locals : Type := mkLogKV {
  kv_paramIndex : Z;
  kv_contextName : option string;
  kv_context : option Ctx;
  kv_levelIntP : option Z;
  kv_msgID : option string;
  kv_msg : option string;
  kv_kvPair : list ascii;
  kv_isCheckedKV : bool
}.

(** The outer [while (paramIndex < argc)] of [DoCmdLogKV]. *)
Fixpoint DoCmdLogKV_args (fuel : nat) (argv : list string) (st : LogKV_locals)
    : Cmd (Result + LogKV_locals) :=
  let argc := Z.of_nat (length argv) in
  match fuel with
  | O => out_of_fuel
  | S fuel' =>
      if negb (kv_paramIndex st <? argc) then ret (inr st)
      else
        let arg := argv !! Z.to_nat (kv_paramIndex st) in
        match kv_contextName st, kv_levelIntP st with
        | None, _ =>
            do a <- lift_opt arg;
            let name := PrvResolveContextNameAlias a in
            do r <- read (PmLogFindContext lib name);
            let '(logErr, found) := r in
            if negb (is_kPmLogErr_None logErr)
            then
              exec ErrPrint ("Invalid context '%s'." ++ LF) [ArgS a];
              ret (inl RESULT_PARAM_ERR)
            else
              DoCmdLogKV_args fuel' argv
                (mkLogKV (kv_paramIndex st + 1) (Some name) found (kv_levelIntP st)
                   (kv_msgID st) (kv_msg st) (kv_kvPair st) (kv_isCheckedKV st))
        | Some _, None =>
            do a <- lift_opt arg;
            match PmLogStringToLevel lib a with
            | Some v =>
                if v =? -1
                then
                  exec ErrPrint ("Invalid level '%s'." ++ LF) [ArgS a];
                  ret (inl RESULT_PARAM_ERR)
                else
                  DoCmdLogKV_args fuel' argv
                    (mkLogKV (kv_paramIndex st + 1) (kv_contextName st) (kv_context st)
                       (Some v) (kv_msgID st) (kv_msg st) (kv_kvPair st)
                       (kv_isCheckedKV st))
            | None =>
                exec ErrPrint ("Invalid level '%s'." ++ LF) [ArgS a];
                ret (inl RESULT_PARAM_ERR)
            end
        | Some _, Some level =>
            let notDebug := negb (level =? kPmLogLevel_Debug lib) in
            if (match kv_msgID st with None => true | Some _ => false end) && notDebug
            then
              DoCmdLogKV_args fuel' argv
                (mkLogKV (kv_paramIndex st + 1) (kv_contextName st) (kv_context st)
                   (kv_levelIntP st) arg (kv_msg st) (kv_kvPair st) (kv_isCheckedKV st))
            else if (match kv_kvPair st with a :: _ => Ascii.eqb a NUL | [] => false end)
                    && negb (kv_isCheckedKV st) && notDebug
            then
              do r <- DoCmdLogKV_pairs (length argv) argv (kv_paramIndex st) arg 0 false
                        (kv_kvPair st);
              match r with
              | inl result => ret (inl result)
              | inr (paramIndex', _, kvPair') =>
                  (* kvPair[sizeof(kvPair) - 1] = 0 *)
                  do kvPair'' <- lift_opt
                    (buf_write kvPair' (Z.to_nat (sizeof_kvPair - 1)) [NUL]);
                  DoCmdLogKV_args fuel' argv
                    (mkLogKV paramIndex' (kv_contextName st) (kv_context st)
                       (kv_levelIntP st) (kv_msgID st) (kv_msg st) kvPair'' true)
              end
            else
              match kv_msg st with
              | None =>
                  DoCmdLogKV_args fuel' argv
                    (mkLogKV (kv_paramIndex st + 1) (kv_contextName st) (kv_context st)
                       (kv_levelIntP st) (kv_msgID st) arg (kv_kvPair st)
                       (kv_isCheckedKV st))
              | Some _ =>
                  exec ErrPrint ("Invalid parameter '%s'." ++ LF) [ArgS_opt arg];
                  ret (inl RESULT_PARAM_ERR)
              end
        end
  end.

(** [DoCmdLogKV] *)
Definition DoCmdLogKV (argv : list string) : Cmd Result :=
  let argc := Z.of_nat (length argv) in
  if argc <? 4
  then
    exec ErrPrint
      ("Minimum 4 parameters are expected. Please see help for more details." ++ LF) [];
    ret RESULT_PARAM_ERR
  else
    do parsed <- DoCmdLogKV_args (S (length argv)) argv
      (mkLogKV 1 None None None None None kvPair_zero false);
    match parsed with
    | inl result => ret result
    | inr st =>
        match kv_contextName st, kv_levelIntP st with
        | None, _ =>
            exec ErrPrint ("Context is not specified." ++ LF) []; ret RESULT_PARAM_ERR
        | Some _, None =>
            exec ErrPrint ("Level is not specified." ++ LF) []; ret RESULT_PARAM_ERR
        | Some _, Some level =>
            let isDebug := level =? kPmLogLevel_Debug lib in
            if (match kv_msgID st with None => true | Some _ => false end) && negb isDebug
            then
              exec ErrPrint ("Message ID is not specified." ++ LF) [];
              ret RESULT_PARAM_ERR
            else
              do kv <- (if isDebug then ret None
                        else do s <- lift_opt (buf_cstr (kv_kvPair st)); ret (Some s));
              do logErr <-
                call (Call_PmLogString (kv_context st) level (kv_msgID st) kv (kv_msg st))
                     (PmLogString lib (kv_context st) level (kv_msgID st) kv (kv_msg st));
              if negb (is_kPmLogErr_None logErr)
              then
                exec ErrPrint ("Error logging: 0x%08X (%s)" ++ LF) (err_args logErr);
                ret RESULT_RUN_ERR
              else ret RESULT_OK
        end
    end.

(** *** The remaining commands *)

(** [mysprintf] of [PmLogCtlUtil.c] with a destination of [dstSize] bytes,
    for a call whose destination and format are not NULL and whose
    formatted text is [formatted]: the text stored in the destination. *)
Definition mysprintf (dstSize : Z) (formatted : string) : Cmd string :=
  if dstSize <? 1
  then exec ErrPrint ("mysprintf invalid dst size" ++ LF) []; ret EmptyString
  else if strlen formatted >=? dstSize
  then
    exec ErrPrint ("mysprintf buffer overflow" ++ LF) [];
    ret (substring 0 (Z.to_nat (dstSize - 1)) formatted)
  else ret formatted.

(** [%d] *)
Definition decimal (n : Z) : string := NilZero.string_of_int (Z.to_int n).

(** [WriteKMsg] *)
Definition WriteKMsg (priority : Z) (msgStr : string) : Cmd Result :=
  let kKMsgPath := "/dev/kmsg"%string in
  do f <- read (fopen_kmsg libc);
  match f with
  | Some err =>
      exec ErrPrint "Error opening %s: %s" [ArgS kKMsgPath; ArgS (strerror libc err)];
      ret RESULT_RUN_ERR
  | None =>
      do priorityStr <-
        (if priority >=? 0
         then mysprintf 8 ("<" ++ decimal priority ++ ">")
         else ret EmptyString);
      let text := (priorityStr ++ msgStr ++ LF)%string in
      do r <- call (Call_kmsg_write text) (fprintf_kmsg libc text);
      let '(n, err) := r in
      if n <? 0
      then
        exec ErrPrint "Error writing %s: %s" [ArgS kKMsgPath; ArgS (strerror libc err)];
        ret RESULT_RUN_ERR
      else ret RESULT_OK
  end.

(** The argument loop of [DoCmdKLog]. *)
Fixpoint DoCmdKLog_args (rest : list string) (level : Z) (msg : option string)
    : Cmd (Result + (Z * option string)) :=
  match rest with
  | [] => ret (inr (level, msg))
  | arg :: rest' =>
      if (match arg with String c _ => Ascii.eqb c "-" | EmptyString => false end)
      then
        if strcmp arg "-p" =? 0
        then
          match rest' with
          | [] =>
              exec ErrPrint ("Invalid parameter: -p requires value" ++ LF) [];
              ret (inl RESULT_PARAM_ERR)
          | arg2 :: rest'' =>
              match PmLogStringToLevel lib arg2 with
              | None =>
                  exec ErrPrint ("Invalid level '%s'." ++ LF) [ArgS arg2];
                  ret (inl RESULT_PARAM_ERR)
              | Some v => DoCmdKLog_args rest'' v msg
              end
          end
        else
          exec ErrPrint ("Invalid parameter '%s'." ++ LF) [ArgS arg];
          ret (inl RESULT_PARAM_ERR)
      else
        match msg with
        | None => DoCmdKLog_args rest' level (Some arg)
        | Some _ =>
            exec ErrPrint ("Invalid parameter '%s'." ++ LF) [ArgS arg];
            ret (inl RESULT_PARAM_ERR)
        end
  end.

(** [DoCmdKLog] *)
Definition DoCmdKLog (argv : list string) : Cmd Result :=
  do parsed <- DoCmdKLog_args (tail argv) (kPmLogLevel_Notice lib) None;
  match parsed with
  | inl result => ret result
  | inr (_, None) =>
      exec ErrPrint ("Message not specified." ++ LF) []; ret RESULT_PARAM_ERR
  | inr (level, Some msg) => WriteKMsg level msg
  end.

(** [DoCmdFlush] *)
Definition DoCmdFlush : Cmd Result :=
  do r <- call (Call_PmLogGetContext "pmlogctl") (PmLogGetContext lib "pmlogctl");
  let '(logErr, context) := r in
  if negb (is_kPmLogErr_None logErr)
  then
    exec ErrPrint ("Error getting context PmLogCtl: 0x%08X (%s)" ++ LF) (err_args logErr);
    ret RESULT_RUN_ERR
  else
    do logErr <-
      call (Call_PmLogInfo context "FLUSH_BUFFER" 0 "Manually Flushing Buffers")
           (PmLogInfo lib context "FLUSH_BUFFER" 0 "Manually Flushing Buffers");
    if negb (is_kPmLogErr_None logErr)
    then
      exec ErrPrint ("Error logging: 0x%08X (%s)" ++ LF) (err_args logErr);
      ret RESULT_RUN_ERR
    else ret RESULT_OK.

(** [DoCmdReConf] *)
Definition DoCmdReConf (argv : list string) : Cmd Result :=
  match tail argv with
  | arg :: _ =>
      exec ErrPrint ("Invalid parameter '%s'." ++ LF) [ArgS arg];
      ret RESULT_PARAM_ERR
  | [] =>
      let context := Some (kPmLogGlobalContext lib) in
      do logErr <-
        call (Call_PmLogPrint context (kPmLogLevel_Emergency lib) "!loglib loadconf" [])
             (PmLogPrint_ lib context (kPmLogLevel_Emergency lib) "!loglib loadconf" []);
      if negb (is_kPmLogErr_None logErr)
      then
        exec ErrPrint ("Error logging: 0x%08X (%s)" ++ LF) (err_args logErr);
        ret RESULT_RUN_ERR
      else ret RESULT_OK
  end.

Definition kLevelNotSpecified : Z := -999.

(** The argument loop of [DoCmdDef]. *)
Fixpoint DoCmdDef_args (rest : list string) (contextName : option string)
    (levelIntP : option Z) (level : Z)
    : Cmd (Result + (option string * Z)) :=
  match rest with
  | [] => ret (inr (contextName, level))
  | arg :: rest' =>
      match contextName with
      | None =>
          let name := PrvResolveContextNameAlias arg in
          do r <- read (PmLogFindContext lib name);
          let '(logErr, _) := r in
          if is_kPmLogErr_None logErr
          then
            exec ErrPrint ("Context '%s' is already defined." ++ LF) [ArgS name];
            ret (inl RESULT_OK)
          else DoCmdDef_args rest' (Some name) levelIntP level
      | Some _ =>
          match levelIntP with
          | None =>
              match PmLogStringToLevel lib arg with
              | None =>
                  exec ErrPrint ("Invalid level '%s'." ++ LF) [ArgS arg];
                  ret (inl RESULT_PARAM_ERR)
              | Some v => DoCmdDef_args rest' contextName (Some v) v
              end
          | Some _ =>
              exec ErrPrint ("Invalid parameter '%s'." ++ LF) [ArgS arg];
              ret (inl RESULT_PARAM_ERR)
          end
      end
  end.

(** [DoCmdDef] *)
Definition DoCmdDef (argv : list string) : Cmd Result :=
  do parsed <- DoCmdDef_args (tail argv) None None kLevelNotSpecified;
  match parsed with
  | inl result => ret result
  | inr (None, _) =>
      exec ErrPrint ("Context not specified." ++ LF) []; ret RESULT_PARAM_ERR
  | inr (Some contextName, level) =>
      do r <- call (Call_PmLogGetContext contextName) (PmLogGetContext lib contextName);
      let '(logErr, context) := r in
      if negb (is_kPmLogErr_None logErr)
      then
        exec ErrPrint ("Error defining context: 0x%08X (%s)" ++ LF) (err_args logErr);
        ret RESULT_RUN_ERR
      else if negb (level =? kLevelNotSpecified)
      then
        do logErr <- call (Call_PmLogSetContextLevel context level)
                          (PmLogSetContextLevel lib context level);
        if negb (is_kPmLogErr_None logErr)
        then
          exec ErrPrint ("Error setting context log level: 0x%08X (%s)" ++ LF)
                 (err_args logErr);
          ret RESULT_RUN_ERR
        else ret RESULT_OK
      else ret RESULT_OK
  end.

(** [ShowUsage] *)
Fixpoint ShowUsage_levels (k : nat) (level : Z) : Cmd unit :=
  match k with
  | O => ret tt
  | S k' =>
      exec InfoPrint ("  %-10s  # %d" ++ LF)
             [ArgS_opt (PmLogLevelToString lib level); ArgD level];
      ShowUsage_levels k' (level + 1)
  end.

Definition ShowUsage : Cmd unit :=
  exec InfoPrint ("PmLogCtl COMMAND [PARAM...]" ++ LF) [];
  exec InfoPrint ("PmLogCtl -s COMMAND [PARAM...] # disable stdout messages" ++ LF) [];
  exec InfoPrint ("  help                         # show usage info" ++ LF) [];
  exec InfoPrint ("  def <context> [<level>]      # define logging context" ++ LF) [];
  exec InfoPrint ("  flush                        # flush all ring buffers" ++ LF) [];
  exec InfoPrint ("  log <context> <level> <message>" ++ LF) [];
  exec InfoPrint ("                               # log a message" ++ LF) [];
  exec InfoPrint
    ("  logkv <context> <level> <msgID> <key1>=<value1> <key2>=<value2> ... <message>"
     ++ LF) [];
  exec InfoPrint
    ("                               # log a message include msgID and key-value pairs"
     ++ LF) [];
  exec InfoPrint
    ("                               # If you want value be a string, use quoting => <key>=<\"
     ++ String DQUOTE ("value\" ++ String DQUOTE (">" ++ LF))) [];
  exec InfoPrint
    ("                               # Debug level message takes only freetext. msgID and key-value pairs are not needed"
     ++ LF) [];
  exec InfoPrint ("  klog [-p <level>] <msg>      # log a kernel message" ++ LF) [];
  exec InfoPrint ("  reconf                       # re-load lib options from conf" ++ LF) [];
  exec InfoPrint ("  set <context> <level>        # set logging context level" ++ LF) [];
  exec InfoPrint ("  show [<context>]             # show logging context(s)" ++ LF) [];
  exec InfoPrint LF [];
  exec InfoPrint ("Contexts:" ++ LF) [];
  exec InfoPrint ("  The global context can be specified as '.'" ++ LF) [];
  exec InfoPrint LF [];
  exec InfoPrint ("Levels:" ++ LF) [];
  (* for (level = -1; level <= 7; level++) *)
  ShowUsage_levels 9 (-1).

(** [DoCmdView] is defined in [PmLogView.c], which is not part of the
    sources at hand; [main] only hands its arguments over. *)
Variable DoCmdView : list string -> Cmd Result.

(** The chain of [strcmp] tests in [main]. *)
Definition dispatch (cmd : string) (cmd_index : list string) : Cmd Result :=
  if strcmp cmd "def" =? 0 then DoCmdDef cmd_index
  else if strcmp cmd "log" =? 0 then DoCmdLog cmd_index
  else if strcmp cmd "logkv" =? 0 then DoCmdLogKV cmd_index
  else if strcmp cmd "klog" =? 0 then DoCmdKLog cmd_index
  else if strcmp cmd "reconf" =? 0 then DoCmdReConf cmd_index
  else if strcmp cmd "set" =? 0 then DoCmdSet cmd_index
  else if strcmp cmd "show" =? 0 then DoCmdShow cmd_index
  else if strcmp cmd "view" =? 0 then DoCmdView cmd_index
  else if strcmp cmd "flush" =? 0 then DoCmdFlush
  else if (strcmp cmd "help" =? 0) || (strcmp cmd "-help" =? 0)
  then exec ShowUsage; ret RESULT_HELP
  else
    exec ErrPrint ("Invalid command '%s'" ++ LF) [ArgS cmd];
    ret RESULT_PARAM_ERR.

Definition EXIT_SUCCESS : Z := 0.
Definition EXIT_FAILURE : Z := 1.

(** What [main] does once [result] is known. *)
Definition finish (body : Cmd Result) : Cmd Z :=
  do result <- body;
  exec (if Result_eqb result RESULT_PARAM_ERR then SuggestHelp else ret tt);
  ret (if Result_eqb result RESULT_OK then EXIT_SUCCESS else EXIT_FAILURE).

Definition no_command : Cmd Result :=
  exec ErrPrint ("No command specified." ++ LF) [];
  ret RESULT_PARAM_ERR.

(** [main]: the value of [flag_silence] the rest of the run sees, and what
    is run under it.  [flag_silence] starts out [false]. *)
Definition main_plan (argv : list string) : bool * Cmd Result :=
  let argc := Z.of_nat (length argv) in
  if argc <? 2 then (false, no_command)
  else
    match argv !! 1%nat with
    | None => (false, undefined)
    | Some cmd =>
        if strncmp cmd "-s" 2 =? 0
        then
          (* flag_silence = true *)
          match argv !! 2%nat with
          | Some cmd2 => (true, dispatch cmd2 (drop 2 argv))
          | None => (true, no_command)
          end
        else (false, dispatch cmd (drop 1 argv))
    end.

(** [main]: the exit status, the events and the final library state. *)
Definition main (argv : list string) (w : W) : Outcome W Ctx Z :=
  let '(flag_silence, body) := main_plan argv in
  finish body flag_silence w.

End Commands.

(** ** The utilities of [PmLogCtlUtil.c] *)

(** [IntLabel]: a string label and its integer.  The entry that ends a
    table has the label NULL. *)
Module IntLabel.
Record t : Set := mk {
  s : option string;
  n : Z
}.
End IntLabel.

(** [PrvGetIntLabel]: the table is walked up to the entry whose label is
    NULL.  The outer [None] is the walk leaving a table that has no such
    entry (undefined), the inner option is the pointer returned. *)
Fixpoint PrvGetIntLabel (labels : list IntLabel.t) (n : Z) : option (option string) :=
  match labels with
  | [] => None
  | p :: labels' =>
      match IntLabel.s p with
      | None => Some None
      | Some label =>
          if IntLabel.n p =? n then Some (Some label)
          else PrvGetIntLabel labels' n
      end
  end.

(** [PrvLabelToInt]; the pointer [&p->n] it returns is modelled by the
    integer it points to. *)
Fixpoint PrvLabelToInt (labels : list IntLabel.t) (s : string) : option (option Z) :=
  match labels with
  | [] => None
  | p :: labels' =>
      match IntLabel.s p with
      | None => Some None
      | Some label =>
          if strcmp label s =? 0 then Some (Some (IntLabel.n p))
          else PrvLabelToInt labels' s
      end
  end.

Section Utilities.
Context {W Ctx : Type}.

(** [mystrcpy]: [dst] is the memory the pointer points to ([None] for a
    NULL pointer), which need not be [dstSize] bytes long; [dstSize] is a
    [size_t], so it is not negative.  The result is that memory after the
    call. *)
Definition mystrcpy (dst : option (list ascii)) (dstSize : Z) (src : option string)
    : M W Ctx (option (list ascii)) :=
  match dst with
  | None => exec ErrPrint ("mystrcpy null dst" ++ LF) []; ret None
  | Some b =>
      if dstSize <? 1
      then exec ErrPrint ("mystrcpy invalid dst size" ++ LF) []; ret (Some b)
      else
        (* dst[ 0 ] = 0 *)
        do b0 <- lift_opt (buf_write b 0 [NUL]);
        match src with
        | None => exec ErrPrint ("mystrcpy null src" ++ LF) []; ret (Some b0)
        | Some src' =>
            do srcLen <-
              (if strlen src' >=? dstSize
               then
                 exec ErrPrint ("mystrcpy buffer overflow on '%s'" ++ LF) [ArgS src'];
                 ret (dstSize - 1)
               else ret (strlen src'));
            (* memcpy(dst, src, srcLen) *)
            do b1 <- lift_opt
              (buf_write b0 0 (take (Z.to_nat srcLen) (list_ascii_of_string src')));
            (* dst[ srcLen ] = 0 *)
            do b2 <- lift_opt (buf_write b1 (Z.to_nat srcLen) [NUL]);
            ret (Some b2)
        end
  end.

(** [mystrcat] *)
Definition mystrcat (dst : option (list ascii)) (dstSize : Z) (src : option string)
    : M W Ctx (option (list ascii)) :=
  match dst with
  | None => exec ErrPrint ("mystrcat null dst" ++ LF) []; ret None
  | Some b =>
      if dstSize <? 1
      then exec ErrPrint ("mystrcat invalid dst size" ++ LF) []; ret (Some b)
      else
        do dstLen <- lift_opt (buf_strlen b);
        if Z.of_nat dstLen >=? dstSize
        then exec ErrPrint ("mystrcat invalid dst len" ++ LF) []; ret (Some b)
        else
          match src with
          | None => exec ErrPrint ("mystrcat null src" ++ LF) []; ret (Some b)
          | Some src' =>
              if strlen src' <? 1
              then (* empty string, do nothing *) ret (Some b)
              else
                let maxLen := (dstSize - 1) - Z.of_nat dstLen in
                do srcLen <-
                  (if strlen src' >? maxLen
                   then
                     exec ErrPrint ("mystrcat buffer overflow" ++ LF) [];
                     ret maxLen
                   else ret (strlen src'));
                if srcLen >? 0
                then
                  (* memcpy(dst + dstLen, src, srcLen) *)
                  do b1 <- lift_opt
                    (buf_write b dstLen
                       (take (Z.to_nat srcLen) (list_ascii_of_string src')));
                  (* dst[ dstLen + srcLen ] = 0 *)
                  do b2 <- lift_opt (buf_write b1 (dstLen + Z.to_nat srcLen) [NUL]);
                  ret (Some b2)
                else ret (Some b)
          end
  end.

End Utilities.

(** ** Vocabulary of the statements *)

(** The events of one [InfoPrint] or [ErrPrint] under [flag_silence]. *)
Definition printed {Ctx} (flag_silence : bool) (f : Stream) (fmt : string)
    (args : list Arg) : list (Event Ctx) :=
  if flag_silence then [] else [Print f (COMPONENT_PREFIX ++ fmt) args].

(** An outcome with the events [tr] in front of its own. *)
Definition after {W Ctx A} (tr : list (Event Ctx)) (o : Outcome W Ctx A)
    : Outcome W Ctx A :=
  match o with
  | Done a tr' w => Done a (tr ++ tr') w
  | Undefined => Undefined
  | Fuel => Fuel
  end.

(** An outcome without its console output. *)
Definition mute {W Ctx A} (o : Outcome W Ctx A) : Outcome W Ctx A :=
  match o with
  | Done a tr w => Done a (List.filter (fun e => negb (is_Print e)) tr) w
  | Undefined => Undefined
  | Fuel => Fuel
  end.

(** A command that never returns [RESULT_PARAM_ERR]. *)
Definition never_param_err {W Ctx} (c : M W Ctx Result) : Prop :=
  forall flag w r tr w', c flag w = Done r tr w' -> r <> RESULT_PARAM_ERR.

(** A command that has done nothing but print whenever it returns
    [RESULT_PARAM_ERR]. *)
Definition param_err_clean {W Ctx} (c : M W Ctx Result) : Prop :=
  forall flag w tr w',
    c flag w = Done RESULT_PARAM_ERR tr w' ->
    Forall (fun e => is_Print e = true) tr /\ w' = w.

(** The entries of an [IntLabel] table in front of its terminator (all of
    them when there is none), and whether the table has a terminator. *)
Fixpoint table_entries (labels : list IntLabel.t) : list (string * Z) :=
  match labels with
  | [] => []
  | p :: labels' =>
      match IntLabel.s p with
      | None => []
      | Some label => (label, IntLabel.n p) :: table_entries labels'
      end
  end.

Fixpoint terminated (labels : list IntLabel.t) : bool :=
  match labels with
  | [] => false
  | p :: labels' =>
      match IntLabel.s p with
      | None => true
      | Some _ => terminated labels'
      end
  end.

(** A piece of the program whose run under [flag_silence] is its run
    without the flag, minus the console output. *)
Definition silenced {W Ctx A} (c : M W Ctx A) : Prop :=
  forall w, c true w = mute (c false w).

(** A piece of the program that never exhausts the fuel of its loops and
    whose result, when it has one, satisfies [P]. *)
Definition ensures {W Ctx A} (P : A -> Prop) (c : M W Ctx A) : Prop :=
  forall flag w,
    match c flag w with
    | Done a _ _ => P a
    | Undefined => True
    | Fuel => False
    end.

(** What the inner loop of [DoCmdLogKV] entered at [paramIndex = p] leaves
    in [paramIndex]. *)
Definition advanced (p : Z) (r : Result + (Z * option string * list ascii)) : Prop :=
  match r with
  | inl _ => True
  | inr (p', _, _) => p <= p'
  end.

(** A piece of the program that does nothing but print: whatever it
    leaves in the trace is console output and the library state is
    untouched. *)
Definition prints_only {W Ctx A} (c : M W Ctx A) : Prop :=
  forall flag w,
    match c flag w with
    | Done _ tr w' => Forall (fun e => is_Print e = true) tr /\ w' = w
    | Undefined => True
    | Fuel => True
    end.

(** The encoder as the specification words it: a token is split at its
    first equals sign, the key is put in double quotes, the value follows a
    colon as it is, the entries are separated by commas and wrapped in
    braces. *)
Definition split_first_equals (token : string) : option (string * string) :=
  match String.index 0 "=" token with
  | Some k =>
      Some (substring 0 k token,
            substring (S k) (String.length token - S k) token)
  | None => None
  end.

Definition EncodeKV_entry (token : string) : string :=
  match split_first_equals token with
  | Some (key, value) => String DQUOTE (key ++ String DQUOTE (String ":" value))
  | None => EmptyString
  end.

Definition EncodeKV_ref (tokens : list string) : string :=
  String "{" (String.concat "," (map EncodeKV_entry tokens) ++ "}").

Fixpoint all_chars (p : ascii -> bool) (s : string) : bool :=
  match s with
  | EmptyString => true
  | String a s' => p a && all_chars p s'
  end.

(** The tokens the encoder takes in whole: C strings with a key before the
    first equals sign and a value behind it that has no tab and no
    newline. *)
Definition encodable (token : string) : bool :=
  nul_free token &&
  match split_first_equals token with
  | Some (key, value) =>
      negb (String.eqb key EmptyString) && negb (String.eqb value EmptyString)
      && all_chars not_tab_newline value
  | None => false
  end.

(** What [DoCmdLogKV] does with the result of [PmLogString]. *)
Definition after_PmLogString {W Ctx} (lib : PmLogLib W Ctx) (flag_silence : bool)
    (r : PmLogErr * W) : Outcome W Ctx Result :=
  let '(logErr, w) := r in
  if is_kPmLogErr_None logErr then Done RESULT_OK [] w
  else
    Done RESULT_RUN_ERR
      (printed flag_silence stderr ("Error logging: 0x%08X (%s)" ++ LF)
         [ArgX logErr; ArgS (PmLogGetErrDbgString lib logErr)]) w.

(** A logging call [ev] with the result [r], and what [DoCmdLog],
    [DoCmdLogKV] and [DoCmdReConf] make of it: [RESULT_OK], or the report
    of the error and [RESULT_RUN_ERR]. *)
Definition logged {W Ctx} (lib : PmLogLib W Ctx) (flag_silence : bool)
    (ev : Event Ctx) (r : PmLogErr * W) : Outcome W Ctx Result :=
  after [ev] (after_PmLogString lib flag_silence r).

(** The text [WriteKMsg] formats for the priority: ["<%d>"] for a priority
    that is not negative, nothing otherwise. *)
Definition kmsg_prefix (priority : Z) : string :=
  if priority >=? 0 then ("<" ++ decimal priority ++ ">")%string else EmptyString.

(** The room the tokens of [logkv] can take in the buffer: for each token
    its characters, the two quotes and the comma or brace behind it. *)
Fixpoint kv_room (tokens : list string) : nat :=
  match tokens with
  | [] => O
  | t :: tokens' => (String.length t + 3 + kv_room tokens')%nat
  end.

(** The command words [main] knows. *)
Definition commands : list string :=
  ["def"; "log"; "logkv"; "klog"; "reconf"; "set"; "show"; "view"; "flush"; "help";
   "-help"]%string.

(** [arg[ 0 ] == '-'] *)
Definition starts_with_dash (arg : string) : bool :=
  match arg with
  | String c _ => Ascii.eqb c "-"
  | EmptyString => false
  end.

(** The payload once a pair is about to be appended: the opening brace is
    stored in front of the first pair. *)
Definition open_acc (acc : string) : string :=
  match acc with
  | EmptyString => "{"%string
  | String _ _ => acc
  end.

(** The end of [DoCmdLogKV] at a level other than debug: the buffer is
    handed to [PmLogString] as a C string. *)
Definition DoCmdLogKV_emit {W Ctx} (lib : PmLogLib W Ctx) (flag_silence : bool)
    (context : option Ctx) (level : Z) (msgID : option string)
    (kvPair : list ascii) (msg : option string) (w : W) : Outcome W Ctx Result :=
  match buf_cstr kvPair with
  | Some kv =>
      after [Call_PmLogString context level msgID (Some kv) msg]
        (after_PmLogString lib flag_silence
           (PmLogString lib context level msgID (Some kv) msg w))
  | None => Undefined
  end.

(** The buffer [b] is a [kvPair] that holds the C string [s]. *)
Definition kv_holds (b : list ascii) (s : string) : Prop :=
  cstring s /\
  length b = Z.to_nat sizeof_kvPair /\
  exists rest, b = list_ascii_of_string s ++ NUL :: rest.

(** Two runs of the inner loop of [DoCmdLogKV] end alike: both return
    early with the same result, or both leave the loop at index [n] with
    the same buffer, after the same events and in the same state. *)
Definition same_exit {W Ctx} (n : Z)
    (o1 o2 : Outcome W Ctx (Result + (Z * option string * list ascii))) : Prop :=
  match o1, o2 with
  | Done (inl r1) tr1 w1, Done (inl r2) tr2 w2 => r1 = r2 /\ tr1 = tr2 /\ w1 = w2
  | Done (inr (p1, _, kv1)) tr1 w1, Done (inr (p2, _, kv2)) tr2 w2 =>
      p1 = n /\ p2 = n /\ kv1 = kv2 /\ tr1 = tr2 /\ w1 = w2
  | Undefined, Undefined => True
  | Fuel, Fuel => True
  | _, _ => False
  end.

Section Vocabulary.
Context {W Ctx : Type} (lib : PmLogLib W Ctx).

(** The pattern [m] matches no context, the way [DoCmdSet] finds out: a
    pattern without a star is looked up with [PmLogFindContext], a pattern
    with a star is matched against every enumerated name. *)
Definition matches_nothing (w : W) (m : string) : Prop :=
  if PrvIsWildcardContextName m
  then
    cstring m /\
    exists entries, enumerates lib w entries /\ matching (Some m) entries = []
  else fst (PmLogFindContext lib m w) <> kPmLogErr_None.




(** The notice and the library call [DoCmdSet] issues for one entry. *)
Definition notice_and_call (flag_silence : bool) (level : Z)
    (e : ContextInfo_t Ctx) : list (Event Ctx) :=
  printed flag_silence stdout ("Setting context level for '%s'." ++ LF)
    [ArgS (contextName e)]
  ++ [Call_PmLogSetContextLevel (context e) level].

(** The line [ShowContext] prints for an entry with a context. *)
Definition shown_line (flag_silence : bool) (w : W) (e : ContextInfo_t Ctx)
    : list (Event Ctx) :=
  match context e with
  | Some c =>
      printed flag_silence stdout ("Context '%s' = %s" ++ LF)
        [ArgS (contextName e);
         ArgS (match PmLogLevelToString lib (enabledLevel lib c w) with
               | Some s => s
               | None => "Unknown"%string
               end)]
  | None => []
  end.

(** The pattern [DoCmdShow] lists with, for the arguments behind the
    command word. *)
Definition show_pattern (args : list string) : option string :=
  option_map (PrvResolveContextNameAlias lib) (head args).

End Vocabulary.

(** ** A small concrete library

    A registry held in a list, with the list index as the context handle,
    to run the commands on concrete inputs.  A [frozen] context refuses a
    new level. *)

Module Toy.

Record ctx_state : Set := mkCtx {
  c_name : string;
  c_level : Z;
  c_frozen : bool
}.

Definition World : Set := list ctx_state.

Fixpoint find_index (name : string) (w : World) : option nat :=
  match w with
  | [] => None
  | c :: w' =>
      if String.eqb (c_name c) name then Some O
      else match find_index name w' with
           | Some k => Some (S k)
           | None => None
           end
  end.

Definition level_table : list (string * Z) :=
  [("none", -1); ("emerg", 0); ("alert", 1); ("crit", 2); ("err", 3);
   ("warning", 4); ("notice", 5); ("info", 6); ("debug", 7)]%string.

Fixpoint label_to_int (t : list (string * Z)) (s : string) : option Z :=
  match t with
  | [] => None
  | (l, n) :: t' => if String.eqb l s then Some n else label_to_int t' s
  end.

Fixpoint int_to_label (t : list (string * Z)) (n : Z) : option string :=
  match t with
  | [] => None
  | (l, m) :: t' => if m =? n then Some l else int_to_label t' n
  end.

Definition set_level (c : option nat) (level : Z) (w : World) : PmLogErr * World :=
  match c with
  | Some k =>
      match w !! k with
      | Some st =>
          if c_frozen st then (kPmLogErr_Lib 4, w)
          else (kPmLogErr_None, <[k := mkCtx (c_name st) level false]> w)
      | None => (kPmLogErr_Lib 3, w)
      end
  | None => (kPmLogErr_Lib 3, w)
  end.

Definition get_context (name : string) (w : World) : (PmLogErr * option nat) * World :=
  match find_index name w with
  | Some k => ((kPmLogErr_None, Some k), w)
  | None => ((kPmLogErr_None, Some (length w)), w ++ [mkCtx name 6 false])
  end.

Definition lib (max_contexts : nat) : PmLogLib World nat := {|
  PMLOG_MAX_NUM_CONTEXTS := max_contexts;
  kPmLogGlobalContextName := "<global>";
  kPmLogGlobalContext := O;
  kPmLogLevel_Emergency := 0;
  kPmLogLevel_Notice := 5;
  kPmLogLevel_Debug := 7;
  PmLogGetNumContexts := fun w => (kPmLogErr_None, Z.of_nat (length w));
  PmLogGetIndContext := fun i w =>
    if (0 <=? i) && (i <? Z.of_nat (length w))
    then (kPmLogErr_None, Some (Z.to_nat i))
    else (kPmLogErr_Lib 2, None);
  PmLogGetContextName := fun c w =>
    match c with
    | Some k =>
        match w !! k with
        | Some st => (kPmLogErr_None, c_name st)
        | None => (kPmLogErr_Lib 3, EmptyString)
        end
    | None => (kPmLogErr_Lib 3, EmptyString)
    end;
  PmLogFindContext := fun name w =>
    match find_index name w with
    | Some k => (kPmLogErr_None, Some k)
    | None => (kPmLogErr_Lib 13, None)
    end;
  PmLogGetContext := get_context;
  PmLogSetContextLevel := set_level;
  enabledLevel := fun c w =>
    match w !! c with
    | Some st => c_level st
    | None => -1
    end;
  PmLogStringToLevel := label_to_int level_table;
  PmLogLevelToString := int_to_label level_table;
  PmLogGetErrDbgString := fun _ => "library error"%string;
  PmLogPrint_ := fun _ _ _ _ w => (kPmLogErr_None, w);
  PmLogString := fun _ _ _ _ _ w => (kPmLogErr_None, w);
  PmLogInfo := fun _ _ _ _ w => (kPmLogErr_None, w)
|}.

(** The same library with a count query that reports one context more
    than the registry holds, so that the fetch of the last index fails. *)
Definition lib_miscounting (max_contexts : nat) : PmLogLib World nat := {|
  PMLOG_MAX_NUM_CONTEXTS := max_contexts;
  kPmLogGlobalContextName := kPmLogGlobalContextName (lib max_contexts);
  kPmLogGlobalContext := kPmLogGlobalContext (lib max_contexts);
  kPmLogLevel_Emergency := kPmLogLevel_Emergency (lib max_contexts);
  kPmLogLevel_Notice := kPmLogLevel_Notice (lib max_contexts);
  kPmLogLevel_Debug := kPmLogLevel_Debug (lib max_contexts);
  PmLogGetNumContexts := fun w => (kPmLogErr_None, Z.of_nat (length w) + 1);
  PmLogGetIndContext := PmLogGetIndContext (lib max_contexts);
  PmLogGetContextName := PmLogGetContextName (lib max_contexts);
  PmLogFindContext := PmLogFindContext (lib max_contexts);
  PmLogGetContext := PmLogGetContext (lib max_contexts);
  PmLogSetContextLevel := PmLogSetContextLevel (lib max_contexts);
  enabledLevel := enabledLevel (lib max_contexts);
  PmLogStringToLevel := PmLogStringToLevel (lib max_contexts);
  PmLogLevelToString := PmLogLevelToString (lib max_contexts);
  PmLogGetErrDbgString := PmLogGetErrDbgString (lib max_contexts);
  PmLogPrint_ := PmLogPrint_ (lib max_contexts);
  PmLogString := PmLogString (lib max_contexts);
  PmLogInfo := PmLogInfo (lib max_contexts)
|}.

(** The level names as an [IntLabel] table with its terminator. *)
Definition level_labels : list IntLabel.t :=
  map (fun e => IntLabel.mk (Some (fst e)) (snd e)) level_table
  ++ [IntLabel.mk None 0].

(** The order [qsort] sorts into. *)
Definition name_le (a b : ContextInfo_t nat) : Prop :=
  SortCmpContextInfoByName a b <= 0.

#[local] Instance name_le_dec a b : Decision (name_le a b) :=
  Z_le_dec (SortCmpContextInfoByName a b) 0.

(** A [qsort] that happens to keep equal elements in their order ... *)
Definition libc : Libc World nat := {|
  qsort := fun _ l => merge_sort name_le l;
  malloc_ok := fun _ => true;
  fopen_kmsg := fun _ => None;
  fprintf_kmsg := fun _ w => ((1, 0), w);
  strerror := fun _ => "error"%string
|}.

(** ... and one that does not: it sorts the reversed array. *)
Definition libc_rev : Libc World nat := {|
  qsort := fun _ l => merge_sort name_le (reverse l);
  malloc_ok := fun _ => true;
  fopen_kmsg := fun _ => None;
  fprintf_kmsg := fun _ w => ((1, 0), w);
  strerror := fun _ => "error"%string
|}.

(** The registry of the scenario in the specification. *)
Definition scenario : World :=
  [mkCtx "<global>" 6 false; mkCtx "network" 3 false;
   mkCtx "network.wifi" 5 false; mkCtx "ui" 2 false].

Definition view_absent : list string -> M World nat Result :=
  fun _ => ret RESULT_OK.

(** The entries the registry enumerates. *)
Definition entries (w : World) : list (ContextInfo_t nat) :=
  imap (fun k st => mkContextInfo (Some k) (c_name st)) w.

(** A registry in which the second of three matching contexts refuses a
    new level. *)
Definition with_frozen : World :=
  [mkCtx "<global>" 6 false; mkCtx "net.c" 3 false; mkCtx "net.a" 3 false;
   mkCtx "net.b" 3 true].

(** Two contexts whose names differ in case only. *)
Definition two_cases : World :=
  [mkCtx "Net" 6 false; mkCtx "net" 6 false].

(** Three contexts, for a library built with room for two. *)
Definition three : World :=
  [mkCtx "<global>" 6 false; mkCtx "audio" 3 false; mkCtx "video" 3 false].

End Toy.

(** * Properties *)

(** ** C strings *)

Section CStrFacts.

Lemma ascii_eqb_refl (a : ascii) : Ascii.eqb a a = true.
Proof. apply Ascii.eqb_eq. reflexivity. Qed.

Lemma uchar_inj (a b : ascii) : uchar a = uchar b -> a = b.
Proof.
  unfold uchar. intros H. apply N2Z.inj in H.
  rewrite <- (ascii_N_embedding a), <- (ascii_N_embedding b). now rewrite H.
Qed.

Lemma uchar_nonneg (a : ascii) : 0 <= uchar a.
Proof. unfold uchar. lia. Qed.

Lemma uchar_zero (a : ascii) : uchar a = 0 -> a = NUL.
Proof. intros H. apply uchar_inj. rewrite H. reflexivity. Qed.

Lemma uchar_diff (a b : ascii) : Ascii.eqb a b = false -> uchar a - uchar b <> 0.
Proof.
  intros H Hd. apply Ascii.eqb_neq in H. apply H, uchar_inj. lia.
Qed.

Lemma nul_free_cons (a : ascii) (s : string) :
  nul_free (String a s) = true <-> a <> NUL /\ nul_free s = true.
Proof.
  simpl. rewrite andb_true_iff, negb_true_iff. split.
  - intros [H1 H2]. split; [now apply Ascii.eqb_neq | exact H2].
  - intros [H1 H2]. split; [now apply Ascii.eqb_neq | exact H2].
Qed.

(** On C strings [strcmp] returns zero exactly for equal strings. *)
Lemma strcmp_eq_0 (s1 s2 : string) :
  cstring s1 -> cstring s2 -> (strcmp s1 s2 = 0 <-> s1 = s2).
Proof.
  unfold cstring. revert s2.
  induction s1 as [|a s1 IH]; intros [|b s2] H1 H2; simpl.
  - tauto.
  - apply nul_free_cons in H2 as [Hb _]. split; [|discriminate].
    intros H. exfalso. apply Hb, uchar_zero. lia.
  - apply nul_free_cons in H1 as [Ha _]. split; [|discriminate].
    intros H. exfalso. now apply Ha, uchar_zero.
  - apply nul_free_cons in H1 as [_ H1]. apply nul_free_cons in H2 as [_ H2].
    destruct (Ascii.eqb a b) eqn:E.
    + apply Ascii.eqb_eq in E. subst b. rewrite (IH s2 H1 H2).
      split; [now intros -> | now intros [= ->]].
    + split.
      * intros H. now apply uchar_diff in E.
      * intros [= -> _]. now rewrite ascii_eqb_refl in E.
Qed.

Lemma strcmp_refl (s : string) : strcmp s s = 0.
Proof. induction s as [|a s IH]; simpl; [reflexivity|]. now rewrite ascii_eqb_refl. Qed.

End CStrFacts.

(** ** The context matcher *)

Section Matcher.

(** [strchr] finds what [String.index] finds. *)
Lemma index_strchr (c : ascii) (s : string) :
  String.index 0 (String c EmptyString) s = strchr s c.
Proof.
  induction s as [|b s IH]; [reflexivity|].
  cbn [String.index strchr String.prefix]. rewrite IH.
  destruct (ascii_dec c b) as [->|Hne].
  - rewrite ascii_eqb_refl. now destruct s.
  - destruct (Ascii.eqb b c) eqn:E; [|reflexivity].
    apply Ascii.eqb_eq in E. congruence.
Qed.

Lemma cstr_mem_cons (a : ascii) (s : string) :
  cstr_mem (String a s) = a :: cstr_mem s.
Proof. reflexivity. Qed.

Lemma memcmp_cons (a b : ascii) (m1 m2 : list ascii) (n : nat) :
  memcmp (a :: m1) (b :: m2) (S n)
  = if Ascii.eqb a b then memcmp m1 m2 n else Some (uchar a - uchar b).
Proof. reflexivity. Qed.

(** [memcmp] over the bytes before the first star never reads behind a
    terminator, and it returns zero exactly when the prefixes agree. *)
Lemma memcmp_before_star (pat : string) :
  cstring pat ->
  forall (k : nat) (name : string),
    strchr pat "*" = Some k ->
    exists r,
      memcmp (cstr_mem name) (cstr_mem pat) k = Some r /\
      (r = 0 <-> substring 0 k name = substring 0 k pat).
Proof.
  unfold cstring.
  induction pat as [|b pat IH]; intros Hc k name Hk; [discriminate|].
  apply nul_free_cons in Hc as [Hb Hc]. simpl in Hk.
  destruct (Ascii.eqb b "*") eqn:Eb.
  - injection Hk as <-. exists 0. split; [reflexivity|]. now destruct name, pat.
  - destruct (strchr pat "*") as [k'|] eqn:Ek; [|discriminate].
    injection Hk as <-. destruct name as [|a name].
    + exists (uchar NUL - uchar b).
      change (cstr_mem EmptyString) with [NUL].
      rewrite cstr_mem_cons, memcmp_cons.
      destruct (Ascii.eqb NUL b) eqn:E.
      * apply Ascii.eqb_eq in E. congruence.
      * split; [reflexivity|]. split; [|discriminate]. intros H. exfalso.
        now apply uchar_diff in E.
    + rewrite !cstr_mem_cons, memcmp_cons. destruct (Ascii.eqb a b) eqn:E.
      * apply Ascii.eqb_eq in E. subst b.
        destruct (IH Hc k' name eq_refl) as (r & Hr & Hiff).
        exists r. split; [exact Hr|]. rewrite Hiff. cbn [substring].
        split; [now intros -> | now intros [= ->]].
      * exists (uchar a - uchar b). split; [reflexivity|]. split.
        -- intros H. now apply uchar_diff in E.
        -- cbn [substring]. intros [= -> _]. now rewrite ascii_eqb_refl in E.
Qed.

(** C1: for every C string [candidateName] and every pattern (NULL or a C
    string) [PrvMatchContextName] returns, and its result is that of the
    reference matcher: NULL matches everything, a pattern without a star
    matches by byte-wise equality, a pattern whose first star is at offset
    [k] matches exactly when the first [k] bytes agree, whatever follows
    that star. *)
Theorem PrvMatchContextName_ref (candidateName : string) (pattern : option string) :
  cstring candidateName ->
  cstring_opt pattern ->
  PrvMatchContextName candidateName pattern = Some (Matches_ref candidateName pattern).
Proof.
  intros Hn Hp. destruct pattern as [pat|]; [|reflexivity].
  simpl in Hp. unfold PrvMatchContextName, Matches_ref.
  rewrite (index_strchr "*" pat).
  destruct (strchr pat "*") as [k|] eqn:Ek.
  - destruct k as [|k]; [now destruct candidateName, pat|].
    cbn [Nat.eqb].
    destruct (memcmp_before_star pat Hp (S k) candidateName Ek) as (r & -> & Hiff).
    destruct (r =? 0) eqn:Er.
    + apply Z.eqb_eq, Hiff in Er. rewrite Er. now rewrite String.eqb_refl.
    + apply Z.eqb_neq in Er. f_equal. symmetry. apply String.eqb_neq.
      intros H. now apply Er, Hiff.
  - destruct (strcmp candidateName pat =? 0) eqn:E.
    + apply Z.eqb_eq, strcmp_eq_0 in E; [|assumption..]. subst.
      now rewrite String.eqb_refl.
    + apply Z.eqb_neq in E. f_equal. symmetry. apply String.eqb_neq.
      intros ->. apply E, strcmp_refl.
Qed.

Lemma PrvMatchContextName_ref_witness :
  PrvMatchContextName "network.wifi" (Some "netw*rk*"%string)
  = Some (Matches_ref "network.wifi" (Some "netw*rk*"%string)).
Proof. apply PrvMatchContextName_ref; reflexivity. Defined.

End Matcher.

(** ** The context lister *)

Section ListerFacts.
Context {W Ctx : Type} (lib : PmLogLib W Ctx) (libc : Libc W Ctx).

Abbreviation slots := (snapshot_slots lib).

Lemma ContextsInfo_zero_inv : snapshot_inv lib (ContextsInfo_zero lib).
Proof.
  split; cbn [ContextsInfo_zero contextInfos numContexts].
  - apply length_replicate.
  - lia.
Qed.

Lemma snapshot_zero : snapshot (ContextsInfo_zero lib) = [].
Proof. reflexivity. Qed.

Lemma slots_Z : Z.of_nat slots = Z.of_nat (PMLOG_MAX_NUM_CONTEXTS lib) + 1.
Proof. unfold snapshot_slots. lia. Qed.

(** A store into the first free slot stays inside the array and leaves the
    entries in use alone. *)
Lemma store_slot_free (ci : ContextsInfo_t Ctx) f :
  snapshot_inv lib ci ->
  numContexts ci < Z.of_nat slots ->
  exists ci',
    store_slot ci (Z.to_nat (numContexts ci)) f = Some ci' /\
    snapshot_inv lib ci' /\
    numContexts ci' = numContexts ci /\
    snapshot ci' = snapshot ci /\
    (forall e, contextInfos ci !! Z.to_nat (numContexts ci) = Some e ->
               contextInfos ci' !! Z.to_nat (numContexts ci) = Some (f e)).
Proof.
  intros [Hlen Hnum] Hlt. unfold store_slot.
  destruct (lookup_lt_is_Some_2 (contextInfos ci) (Z.to_nat (numContexts ci)))
    as [e He]; [lia|].
  rewrite He. eexists. split; [reflexivity|]. repeat split; simpl.
  - now rewrite length_insert.
  - lia.
  - lia.
  - unfold snapshot. simpl. now rewrite take_insert_ge.
  - intros e' [= <-]. apply list_lookup_insert_eq. lia.
Qed.

(** Taking the slot just filled into use. *)
Lemma snapshot_grow (ci : ContextsInfo_t Ctx) e :
  0 <= numContexts ci ->
  contextInfos ci !! Z.to_nat (numContexts ci) = Some e ->
  snapshot (mkContextsInfo (numContexts ci + 1) (contextInfos ci)) = snapshot ci ++ [e].
Proof.
  intros H0 He. unfold snapshot. simpl.
  replace (Z.to_nat (numContexts ci + 1)) with (S (Z.to_nat (numContexts ci))) by lia.
  now apply take_S_r.
Qed.

(** The loop keeps the count within the array; it is undefined only where
    the matcher is. *)
Lemma PrvGetContextList_loop_inv (w : W) (pat : option string) :
  forall (k : nat) (i : Z) (ci : ContextsInfo_t Ctx),
    snapshot_inv lib ci ->
    match PrvGetContextList_loop lib k i w pat ci with
    | Some (_, ci') => snapshot_inv lib ci'
    | None => exists name, PrvMatchContextName name pat = None
    end.
Proof.
  induction k as [|k IH]; intros i ci Hinv.
  - exact Hinv.
  - cbn [PrvGetContextList_loop]. rewrite <- slots_Z.
    destruct ((0 <=? numContexts ci) && (numContexts ci <? Z.of_nat slots)) eqn:Hguard;
      [|exact Hinv].
    apply andb_true_iff in Hguard as [_ Hlt]. apply Z.ltb_lt in Hlt.
    destruct (PmLogGetIndContext lib i w) as [e1 ctx].
    destruct (store_slot_free ci (fun e => mkContextInfo ctx (contextName e)) Hinv Hlt)
      as (ci1 & -> & Hinv1 & Hn1 & _ & _).
    destruct (is_kPmLogErr_None e1); cbn [negb]; [|exact Hinv1].
    destruct (PmLogGetContextName lib ctx w) as [e2 name].
    rewrite <- Hn1.
    destruct (store_slot_free ci1 (fun e => mkContextInfo (context e) name) Hinv1)
      as (ci2 & -> & Hinv2 & Hn2 & _ & _); [lia|].
    destruct (is_kPmLogErr_None e2); cbn [negb]; [|exact Hinv2].
    destruct (PrvMatchContextName name pat) as [[|]|] eqn:Hm.
    + destruct (numContexts ci2 >=? Z.of_nat slots) eqn:Hfull; [exact Hinv2|].
      rewrite Z.geb_leb in Hfull. apply Z.leb_gt in Hfull.
      apply IH. destruct Hinv2 as [Hl2 Hb2]. split; simpl; [exact Hl2|lia].
    + now apply IH.
    + now exists name.
Qed.

(** The matcher is defined on every C-string pattern. *)
Lemma PrvMatchContextName_defined (pat : option string) :
  cstring_opt pat -> forall name, PrvMatchContextName name pat <> None.
Proof.
  intros Hp name. destruct pat as [pat|]; [|discriminate]. simpl in Hp.
  unfold PrvMatchContextName.
  destruct (strchr pat "*") as [k|] eqn:Ek.
  - destruct (Nat.eqb k 0); [discriminate|].
    destruct (memcmp_before_star pat Hp k name Ek) as (r & -> & _).
    now destruct (r =? 0).
  - now destruct (strcmp name pat =? 0).
Qed.

(** With every fetch succeeding the loop appends the matching entries, in
    registry order, to the entries in use; the only error it can end in is
    [kPmLogErr_Unknown]. *)
Lemma PrvGetContextList_loop_matching (w : W) (pat : option string) :
  forall (rest : list (ContextInfo_t Ctx)) (i : nat) (ci : ContextsInfo_t Ctx),
    snapshot_inv lib ci ->
    (forall (j : nat) e, rest !! j = Some e -> fetch lib w (Z.of_nat (i + j)) = inr e) ->
    forall logErr ci',
      PrvGetContextList_loop lib (length rest) (Z.of_nat i) w pat ci = Some (logErr, ci') ->
      (logErr = kPmLogErr_None /\ snapshot ci' = snapshot ci ++ matching pat rest) \/
      (logErr = kPmLogErr_Unknown /\
       Z.of_nat slots <= numContexts ci + Z.of_nat (length (matching pat rest))).
Proof.
  induction rest as [|e rest IH]; intros i ci Hinv Hfetch logErr ci' Hrun.
  - injection Hrun as <- <-. left. split; [reflexivity|].
    simpl. now rewrite app_nil_r.
  - cbn [length PrvGetContextList_loop] in Hrun. rewrite <- slots_Z in Hrun.
    destruct ((0 <=? numContexts ci) && (numContexts ci <? Z.of_nat slots)) eqn:Hguard.
    2:{ injection Hrun as <- <-. right. split; [reflexivity|].
        destruct Hinv as [_ Hb]. apply andb_false_iff in Hguard as [E|E];
          [apply Z.leb_gt in E|apply Z.ltb_ge in E]; lia. }
    apply andb_true_iff in Hguard as [_ Hlt]. apply Z.ltb_lt in Hlt.
    pose proof (Hfetch O e eq_refl) as Hf. rewrite Nat.add_0_r in Hf.
    unfold fetch in Hf.
    destruct (PmLogGetIndContext lib (Z.of_nat i) w) as [e1 ctx].
    destruct (is_kPmLogErr_None e1); cbn [negb] in Hf, Hrun; [|discriminate].
    destruct (PmLogGetContextName lib ctx w) as [e2 name].
    destruct (is_kPmLogErr_None e2); cbn [negb] in Hf, Hrun; [|discriminate].
    injection Hf as <-.
    destruct (store_slot_free ci (fun e => mkContextInfo ctx (contextName e)) Hinv Hlt)
      as (ci1 & Hs1 & Hinv1 & Hn1 & Hsnap1 & Hat1).
    rewrite Hs1 in Hrun. rewrite <- Hn1 in Hrun.
    destruct (store_slot_free ci1 (fun e => mkContextInfo (context e) name) Hinv1)
      as (ci2 & Hs2 & Hinv2 & Hn2 & Hsnap2 & Hat2); [lia|].
    rewrite Hs2 in Hrun.
    assert (Hslot : contextInfos ci2 !! Z.to_nat (numContexts ci2)
                    = Some (mkContextInfo ctx name)).
    { destruct Hinv as [Hlen Hb].
      destruct (lookup_lt_is_Some_2 (contextInfos ci) (Z.to_nat (numContexts ci)))
        as [e0 He0]; [lia|].
      rewrite Hn2. rewrite <- Hn1 in He0. rewrite Hn1 in He0.
      specialize (Hat1 e0 He0). rewrite <- Hn1 in Hat1.
      now specialize (Hat2 _ Hat1). }
    assert (Hnext : forall (j : nat) e',
               rest !! j = Some e' -> fetch lib w (Z.of_nat (S i + j)) = inr e').
    { intros j e' Hj. specialize (Hfetch (S j) e' Hj).
      now replace (S i + j)%nat with (i + S j)%nat by lia. }
    replace (Z.of_nat i + 1) with (Z.of_nat (S i)) in Hrun by lia.
    cbn [matching List.filter contextName].
    destruct (PrvMatchContextName name pat) as [[|]|] eqn:Hm; [| |discriminate].
    + destruct (numContexts ci2 >=? Z.of_nat slots) eqn:Hfull.
      { rewrite Z.geb_leb in Hfull. apply Z.leb_le in Hfull. lia. }
      pose proof Hinv2 as [Hl2 Hb2].
      eapply IH in Hrun; [| |exact Hnext].
      * destruct Hrun as [[-> Hsnap] | [-> Hge]].
        -- left. split; [reflexivity|]. rewrite Hsnap.
           rewrite (snapshot_grow ci2 (mkContextInfo ctx name)); [|lia|exact Hslot].
           rewrite Hsnap2, Hsnap1, <- app_assoc. reflexivity.
        -- right. split; [reflexivity|]. unfold matching in Hge.
           cbn [numContexts length] in Hge |- *. lia.
      * split; simpl; [exact Hl2|lia].
    + eapply IH in Hrun; [|exact Hinv2|exact Hnext].
      destruct Hrun as [[-> Hsnap] | [-> Hge]].
      * left. split; [reflexivity|]. now rewrite Hsnap, Hsnap2, Hsnap1.
      * right. split; [reflexivity|]. unfold matching in Hge. lia.
Qed.

Lemma snapshot_length (ci : ContextsInfo_t Ctx) :
  snapshot_inv lib ci -> Z.of_nat (length (snapshot ci)) = numContexts ci.
Proof.
  intros [Hlen Hb]. unfold snapshot. rewrite length_take_le; lia.
Qed.

(** What [PrvGetContextList] returns in terms of its loop. *)
Lemma PrvGetContextList_unfold (w : W) (pat : option string) (n : Z) :
  PmLogGetNumContexts lib w = (kPmLogErr_None, n) ->
  0 < n ->
  PrvGetContextList lib libc w pat =
    match PrvGetContextList_loop lib (Z.to_nat n) 0 w pat (ContextsInfo_zero lib) with
    | None => None
    | Some (kPmLogErr_None, ci') =>
        if numContexts ci' >? 0
        then
          Some (kPmLogErr_None,
                mkContextsInfo (numContexts ci')
                  (qsort libc SortCmpContextInfoByName (snapshot ci')
                   ++ drop (Z.to_nat (numContexts ci')) (contextInfos ci')))
        else Some (kPmLogErr_None, ci')
    | Some (logErr, ci') => Some (logErr, ci')
    end.
Proof.
  intros Hn Hpos. unfold PrvGetContextList. rewrite Hn. cbn [is_kPmLogErr_None negb].
  destruct (n <=? 0) eqn:E; [apply Z.leb_le in E; lia|]. reflexivity.
Qed.

(** Whatever [PrvGetContextList] returns, the count it leaves is within
    the array. *)
Lemma PrvGetContextList_count (w : W) (pat : option string) logErr ci :
  PrvGetContextList lib libc w pat = Some (logErr, ci) ->
  0 <= numContexts ci <= Z.of_nat slots.
Proof.
  unfold PrvGetContextList. destruct (PmLogGetNumContexts lib w) as [e n].
  pose proof ContextsInfo_zero_inv as [_ Hz].
  destruct (is_kPmLogErr_None e); cbn [negb]; [|now intros [= <- <-]].
  destruct (n <=? 0); [now intros [= <- <-]|].
  pose proof (PrvGetContextList_loop_inv w pat (Z.to_nat n) 0 _ ContextsInfo_zero_inv)
    as Hinv.
  destruct (PrvGetContextList_loop lib (Z.to_nat n) 0 w pat (ContextsInfo_zero lib))
    as [[e' ci']|]; [|discriminate].
  destruct Hinv as [_ Hb].
  destruct e'; try (now intros [= <- <-]).
  destruct (numContexts ci' >? 0); now intros [= <- <-].
Qed.

(** A legal [qsort] keeps the number of elements. *)
Lemma qsort_length (l : list (ContextInfo_t Ctx)) :
  qsort_spec libc -> length (qsort libc SortCmpContextInfoByName l) = length l.
Proof. intros Hq. destruct (Hq l) as [Hp _]. symmetry. now apply Permutation_length. Qed.

(** A successful listing returns the sorted entries of the loop. *)
Lemma PrvGetContextList_success (w : W) (pat : option string) ci :
  qsort_spec libc ->
  PrvGetContextList lib libc w pat = Some (kPmLogErr_None, ci) ->
  exists n ci',
    PmLogGetNumContexts lib w = (kPmLogErr_None, n) /\ 0 < n /\
    PrvGetContextList_loop lib (Z.to_nat n) 0 w pat (ContextsInfo_zero lib)
      = Some (kPmLogErr_None, ci') /\
    snapshot_inv lib ci' /\
    snapshot_inv lib ci /\
    numContexts ci = numContexts ci' /\
    snapshot ci = qsort libc SortCmpContextInfoByName (snapshot ci').
Proof.
  intros Hq. unfold PrvGetContextList.
  destruct (PmLogGetNumContexts lib w) as [e n].
  destruct e; cbn [is_kPmLogErr_None negb]; try discriminate.
  destruct (n <=? 0) eqn:En; [discriminate|]. apply Z.leb_gt in En.
  pose proof (PrvGetContextList_loop_inv w pat (Z.to_nat n) 0 _ ContextsInfo_zero_inv)
    as Hinv.
  destruct (PrvGetContextList_loop lib (Z.to_nat n) 0 w pat (ContextsInfo_zero lib))
    as [[e' ci']|] eqn:Hloop; [|discriminate].
  destruct e'; try discriminate.
  pose proof Hinv as [Hlen Hb].
  destruct (numContexts ci' >? 0) eqn:Epos; intros [= <-].
  - exists n, ci'.
    assert (Hsl : length (snapshot ci') = Z.to_nat (numContexts ci'))
      by (unfold snapshot; rewrite length_take_le; lia).
    split; [reflexivity|]. split; [lia|]. split; [exact Hloop|].
    split; [exact Hinv|]. split; [|split; [reflexivity|]].
    + split; cbn [numContexts contextInfos]; [|lia].
      change (take (Z.to_nat (numContexts ci')) (contextInfos ci')) with (snapshot ci').
      rewrite length_app, qsort_length, length_drop, Hsl by assumption. lia.
    + unfold snapshot at 1. cbn [numContexts contextInfos].
      change (take (Z.to_nat (numContexts ci')) (contextInfos ci')) with (snapshot ci').
      apply take_app_length'. now rewrite qsort_length.
  - exists n, ci'.
    split; [reflexivity|]. split; [lia|]. split; [exact Hloop|].
    split; [exact Hinv|]. split; [exact Hinv|]. split; [reflexivity|].
    rewrite Z.gtb_ltb in Epos. apply Z.ltb_ge in Epos.
    assert (numContexts ci' = 0) as H0 by lia.
    unfold snapshot. rewrite H0. change (Z.to_nat 0) with O. rewrite !take_0.
    destruct (Hq []) as [Hp _]. now apply Permutation_nil_l in Hp.
Qed.

End ListerFacts.

(** ** The concrete library *)

Section ToyFacts.

Lemma strcasecmp_swap (s1 s2 : string) : strcasecmp s2 s1 = - strcasecmp s1 s2.
Proof.
  revert s2. induction s1 as [|a s1 IH]; intros [|b s2]; simpl; try lia.
  rewrite (Ascii.eqb_sym (tolower b) (tolower a)).
  destruct (Ascii.eqb (tolower a) (tolower b)); [apply IH|lia].
Qed.

#[local] Instance name_le_total : Total Toy.name_le.
Proof.
  intros a b. unfold Toy.name_le, SortCmpContextInfoByName.
  rewrite (strcasecmp_swap (contextName a) (contextName b)). lia.
Qed.

Lemma toy_qsort_spec : qsort_spec Toy.libc.
Proof.
  intros l. split; simpl.
  - symmetry. apply merge_sort_Permutation.
  - apply (Sorted_merge_sort Toy.name_le).
Qed.

Lemma toy_rev_qsort_spec : qsort_spec Toy.libc_rev.
Proof.
  intros l. split; simpl.
  - rewrite merge_sort_Permutation. symmetry. apply reverse_Permutation.
  - apply (Sorted_merge_sort Toy.name_le).
Qed.

Lemma toy_enumerates (m : nat) (w : Toy.World) :
  w <> [] -> enumerates (Toy.lib m) w (Toy.entries w).
Proof.
  intros Hne. unfold enumerates, Toy.entries. rewrite length_imap.
  split; [reflexivity|]. split; [destruct w; [congruence|simpl; lia]|].
  intros i e He. rewrite list_lookup_imap in He.
  apply fmap_Some in He as (st & Hi & ->).
  pose proof (lookup_lt_Some _ _ _ Hi) as Hlt.
  unfold fetch. cbn [Toy.lib PmLogGetIndContext PmLogGetContextName].
  destruct ((0 <=? Z.of_nat i) && (Z.of_nat i <? Z.of_nat (length w))) eqn:E.
  - cbn [is_kPmLogErr_None negb]. rewrite Nat2Z.id, Hi. reflexivity.
  - apply andb_false_iff in E as [E|E]; [apply Z.leb_gt in E|apply Z.ltb_ge in E]; lia.
Qed.

End ToyFacts.

(** ** The lister: capacity and order *)

Section ListerTheorems.
Context {W Ctx : Type} (lib : PmLogLib W Ctx) (libc : Libc W Ctx).

(** The lister is defined, its count is bounded by the number of slots and
    equals the number of matching entries on success. *)
Lemma PrvGetContextList_counts (w : W) (pat : option string) :
  cstring_opt pat ->
  exists logErr ci,
    PrvGetContextList lib libc w pat = Some (logErr, ci) /\
    0 <= numContexts ci <= Z.of_nat (PMLOG_MAX_NUM_CONTEXTS lib) + 1 /\
    forall entries,
      enumerates lib w entries ->
      (logErr = kPmLogErr_None ->
       numContexts ci = Z.of_nat (length (matching pat entries))) /\
      (Z.of_nat (length (matching pat entries))
         > Z.of_nat (PMLOG_MAX_NUM_CONTEXTS lib) + 1 ->
       logErr = kPmLogErr_Unknown) /\
      (Z.of_nat (length (matching pat entries))
         <= Z.of_nat (PMLOG_MAX_NUM_CONTEXTS lib) ->
       logErr = kPmLogErr_None).
Proof.
  intros Hp.
  assert (Hdef : exists r, PrvGetContextList lib libc w pat = Some r).
  { unfold PrvGetContextList. destruct (PmLogGetNumContexts lib w) as [e n].
    destruct (is_kPmLogErr_None e); cbn [negb]; [|eauto].
    destruct (n <=? 0); [eauto|].
    pose proof (PrvGetContextList_loop_inv lib w pat (Z.to_nat n) 0 _
                  (ContextsInfo_zero_inv lib)) as Hinv.
    destruct (PrvGetContextList_loop lib (Z.to_nat n) 0 w pat (ContextsInfo_zero lib))
      as [[e' ci']|].
    - destruct e'; eauto. destruct (numContexts ci' >? 0); eauto.
    - destruct Hinv as [name Hname].
      now apply (PrvMatchContextName_defined pat Hp) in Hname. }
  destruct Hdef as [[logErr ci] Hrun]. exists logErr, ci.
  split; [exact Hrun|].
  pose proof (PrvGetContextList_count lib libc w pat logErr ci Hrun) as Hcount.
  rewrite slots_Z in Hcount. split; [exact Hcount|].
  intros entries (Hn & Hpos & Hfetch).
  rewrite (PrvGetContextList_unfold lib libc w pat _ Hn) in Hrun by lia.
  rewrite Nat2Z.id in Hrun.
  pose proof (PrvGetContextList_loop_inv lib w pat (length entries) 0 _
                (ContextsInfo_zero_inv lib)) as Hinv.
  pose proof (PrvGetContextList_loop_matching lib w pat entries O _
                (ContextsInfo_zero_inv lib) Hfetch) as Hm.
  change (Z.of_nat 0) with 0 in Hm.
  destruct (PrvGetContextList_loop lib (length entries) 0 w pat (ContextsInfo_zero lib))
    as [[e' ci']|]; [|discriminate].
  specialize (Hm e' ci' eq_refl).
  assert (Hlen : e' = kPmLogErr_None ->
                 numContexts ci' = Z.of_nat (length (matching pat entries))).
  { intros ->. destruct Hm as [[_ Hsnap]|[? _]]; [|discriminate].
    rewrite <- (snapshot_length lib ci' Hinv), Hsnap. reflexivity. }
  assert (Hcases : (logErr = kPmLogErr_None /\ e' = kPmLogErr_None /\
                    numContexts ci = numContexts ci') \/
                   (logErr = kPmLogErr_Unknown /\
                    Z.of_nat (snapshot_slots lib)
                      <= Z.of_nat (length (matching pat entries)))).
  { destruct Hm as [[-> _] | [-> Hge]].
    - left. destruct (numContexts ci' >? 0); injection Hrun as <- <-; auto.
    - right. injection Hrun as <- <-. split; [reflexivity|].
      cbn [ContextsInfo_zero numContexts] in Hge. lia. }
  rewrite slots_Z in Hcases.
  destruct Hcases as [(-> & He' & Hnum) | [-> Hge]].
  - split; [|split].
    + intros _. rewrite Hnum. now apply Hlen.
    + intros Hbig. rewrite <- (Hlen He'), <- Hnum in Hbig. lia.
    + reflexivity.
  - split; [discriminate|]. split; [reflexivity|]. lia.
Qed.

(** C4, as amended: for every C-string pattern [PrvGetContextList] is
    defined (no store leaves the snapshot array), the count it leaves
    satisfies 0 <= count <= PMLOG_MAX_NUM_CONTEXTS + 1, the number of slots
    of the snapshot array, and over a registry that enumerates without
    errors a successful listing counts every matching entry (none is
    dropped), more matching entries than slots make it fail with
    [kPmLogErr_Unknown], and at most PMLOG_MAX_NUM_CONTEXTS matching
    entries make it succeed. *)
Theorem PrvGetContextList_capacity (w : W) (pat : option string) :
  cstring_opt pat ->
  exists logErr ci,
    PrvGetContextList lib libc w pat = Some (logErr, ci) /\
    0 <= numContexts ci <= Z.of_nat (PMLOG_MAX_NUM_CONTEXTS lib) + 1 /\
    forall entries,
      enumerates lib w entries ->
      (logErr = kPmLogErr_None ->
       numContexts ci = Z.of_nat (length (matching pat entries))) /\
      (Z.of_nat (length (matching pat entries))
         > Z.of_nat (PMLOG_MAX_NUM_CONTEXTS lib) + 1 ->
       logErr = kPmLogErr_Unknown) /\
      (Z.of_nat (length (matching pat entries))
         <= Z.of_nat (PMLOG_MAX_NUM_CONTEXTS lib) ->
       logErr = kPmLogErr_None).
Proof. apply PrvGetContextList_counts. Qed.

(** The entries of a successful listing are sorted, and they are the
    matching entries of the registry. *)
Lemma snapshot_sorted_perm (w : W) (pat : option string) (ci : ContextsInfo_t Ctx) :
  qsort_spec libc ->
  PrvGetContextList lib libc w pat = Some (kPmLogErr_None, ci) ->
  Sorted (fun a b => strcasecmp (contextName a) (contextName b) <= 0) (snapshot ci) /\
  forall entries,
    enumerates lib w entries -> Permutation (matching pat entries) (snapshot ci).
Proof.
  intros Hq Hrun.
  destruct (PrvGetContextList_success lib libc w pat ci Hq Hrun)
    as (n & ci' & Hn & Hpos & Hloop & Hinv' & Hinv & Hnum & Hsnap).
  rewrite Hsnap. split; [apply Hq|].
  intros entries (Hn' & Hlen & Hfetch).
  rewrite Hn in Hn'. injection Hn' as ->. rewrite Nat2Z.id in Hloop.
  destruct (PrvGetContextList_loop_matching lib w pat entries O _
              (ContextsInfo_zero_inv lib) Hfetch _ _ Hloop) as [[_ Hm]|[? _]];
    [|discriminate].
  rewrite snapshot_zero in Hm. simpl in Hm. rewrite <- Hm. apply Hq.
Qed.

(** C5, as amended: over a [qsort] that meets the C standard, the entries a
    successful listing returns are in non-decreasing [strcasecmp] order of
    their names, and over a registry that enumerates without errors they
    are a rearrangement of exactly the matching entries.  The order of
    entries whose names compare equal is not determined. *)
Theorem PrvGetContextList_sorted (w : W) (pat : option string) (ci : ContextsInfo_t Ctx) :
  qsort_spec libc ->
  PrvGetContextList lib libc w pat = Some (kPmLogErr_None, ci) ->
  Sorted (fun a b => strcasecmp (contextName a) (contextName b) <= 0) (snapshot ci) /\
  forall entries,
    enumerates lib w entries -> Permutation (matching pat entries) (snapshot ci).
Proof. apply snapshot_sorted_perm. Qed.

End ListerTheorems.

Section ListerExamples.

Lemma PrvGetContextList_capacity_witness :
  exists logErr ci,
    PrvGetContextList (Toy.lib 2) Toy.libc Toy.three (Some "*"%string)
      = Some (logErr, ci) /\
    0 <= numContexts ci <= Z.of_nat (PMLOG_MAX_NUM_CONTEXTS (Toy.lib 2)) + 1 /\
    forall entries,
      enumerates (Toy.lib 2) Toy.three entries ->
      (logErr = kPmLogErr_None ->
       numContexts ci = Z.of_nat (length (matching (Some "*"%string) entries))) /\
      (Z.of_nat (length (matching (Some "*"%string) entries))
         > Z.of_nat (PMLOG_MAX_NUM_CONTEXTS (Toy.lib 2)) + 1 ->
       logErr = kPmLogErr_Unknown) /\
      (Z.of_nat (length (matching (Some "*"%string) entries))
         <= Z.of_nat (PMLOG_MAX_NUM_CONTEXTS (Toy.lib 2)) ->
       logErr = kPmLogErr_None).
Proof.
  apply (PrvGetContextList_capacity (Toy.lib 2) Toy.libc Toy.three (Some "*"%string)).
  reflexivity.
Defined.

(** C4, as stated, fails: a library whose compile-time maximum is two
    contexts and whose registry holds three (the global context and two
    more) is listed successfully with a count of three. *)
Lemma PrvGetContextList_count_above_max :
  exists ci,
    PrvGetContextList (Toy.lib 2) Toy.libc Toy.three None = Some (kPmLogErr_None, ci) /\
    numContexts ci = 3 /\
    ~ numContexts ci <= Z.of_nat (PMLOG_MAX_NUM_CONTEXTS (Toy.lib 2)).
Proof.
  eexists. split; [vm_compute; reflexivity|]. split; [reflexivity|]. simpl. lia.
Qed.

(** One entry more than the array has slots makes the listing fail. *)
Example PrvGetContextList_too_many :
  exists ci,
    PrvGetContextList (Toy.lib 1) Toy.libc Toy.three None = Some (kPmLogErr_Unknown, ci).
Proof. eexists. vm_compute. reflexivity. Qed.

Lemma PrvGetContextList_sorted_witness :
  exists ci,
    PrvGetContextList (Toy.lib 8) Toy.libc Toy.scenario (Some "network*"%string)
      = Some (kPmLogErr_None, ci) /\
    Sorted (fun a b => strcasecmp (contextName a) (contextName b) <= 0) (snapshot ci) /\
    forall entries,
      enumerates (Toy.lib 8) Toy.scenario entries ->
      Permutation (matching (Some "network*"%string) entries) (snapshot ci).
Proof.
  eexists. split; [vm_compute; reflexivity|].
  apply (PrvGetContextList_sorted (Toy.lib 8) Toy.libc Toy.scenario
           (Some "network*"%string)).
  - exact toy_qsort_spec.
  - vm_compute. reflexivity.
Defined.

(** The scenario of the specification: listing [network*] returns
    [network] and [network.wifi], in that order. *)
Example PrvGetContextList_scenario :
  exists ci,
    PrvGetContextList (Toy.lib 8) Toy.libc Toy.scenario (Some "network*"%string)
      = Some (kPmLogErr_None, ci) /\
    map contextName (snapshot ci) = ["network"; "network.wifi"]%string.
Proof. eexists. split; vm_compute; reflexivity. Qed.

(** C5, as stated, fails in its stability part: with a [qsort] that meets
    the C standard, two contexts the registry enumerates as [Net], [net],
    whose names compare equal under [strcasecmp], are listed as [net],
    [Net]. *)
Lemma PrvGetContextList_ties_reordered :
  qsort_spec Toy.libc_rev /\
  map contextName (Toy.entries Toy.two_cases) = ["Net"; "net"]%string /\
  strcasecmp "Net" "net" = 0 /\
  exists ci,
    PrvGetContextList (Toy.lib 8) Toy.libc_rev Toy.two_cases None
      = Some (kPmLogErr_None, ci) /\
    map contextName (snapshot ci) = ["net"; "Net"]%string.
Proof.
  split; [exact toy_rev_qsort_spec|]. split; [reflexivity|]. split; [reflexivity|].
  eexists. split; vm_compute; reflexivity.
Qed.

End ListerExamples.

(** ** Running commands *)

Section MonadFacts.
Context {W Ctx : Type}.

Lemma after_nil {A} (o : Outcome W Ctx A) : after [] o = o.
Proof. now destruct o. Qed.

Lemma after_after {A} (tr1 tr2 : list (Event Ctx)) (o : Outcome W Ctx A) :
  after tr1 (after tr2 o) = after (tr1 ++ tr2) o.
Proof. destruct o; simpl; [|reflexivity..]. now rewrite app_assoc. Qed.

Lemma bind_ret {A B} (a : A) (k : A -> M W Ctx B) flag w :
  bind (ret a) k flag w = k a flag w.
Proof. unfold bind, ret. now destruct (k a flag w). Qed.

Lemma bind_read {A B} (f : W -> A) (k : A -> M W Ctx B) flag w :
  bind (read f) k flag w = k (f w) flag w.
Proof. unfold bind, read. now destruct (k (f w) flag w). Qed.

Lemma bind_call {A B} ev (f : W -> A * W) (k : A -> M W Ctx B) flag w :
  bind (call ev f) k flag w = after [ev] (k (fst (f w)) flag (snd (f w))).
Proof.
  unfold bind, call, after. destruct (f w) as [a w']. cbn [fst snd].
  now destruct (k a flag w').
Qed.

Lemma bind_ErrPrint {B} fmt args (k : unit -> M W Ctx B) flag w :
  bind (ErrPrint fmt args) k flag w = after (printed flag stderr fmt args) (k tt flag w).
Proof.
  unfold bind, ErrPrint, printed, after.
  destruct flag; cbn [negb]; now destruct (k tt _ w).
Qed.

Lemma bind_InfoPrint {B} fmt args (k : unit -> M W Ctx B) flag w :
  bind (InfoPrint fmt args) k flag w = after (printed flag stdout fmt args) (k tt flag w).
Proof.
  unfold bind, InfoPrint, printed, after.
  destruct flag; cbn [negb]; now destruct (k tt _ w).
Qed.

Lemma bind_undefined {A B} (k : A -> M W Ctx B) flag w :
  bind undefined k flag w = Undefined.
Proof. reflexivity. Qed.

Lemma bind_bind {A B C} (m : M W Ctx A) (k1 : A -> M W Ctx B) (k2 : B -> M W Ctx C)
    flag w :
  bind (bind m k1) k2 flag w = bind m (fun a => bind (k1 a) k2) flag w.
Proof.
  unfold bind. destruct (m flag w) as [a tr w'| |]; [|reflexivity..].
  destruct (k1 a flag w') as [b tr' w''| |]; [|reflexivity..].
  destruct (k2 b flag w'') as [c tr'' w'''| |]; [|reflexivity..].
  now rewrite app_assoc.
Qed.

Lemma ret_run {A} (a : A) flag (w : W) : ret (Ctx := Ctx) a flag w = Done a [] w.
Proof. reflexivity. Qed.

Lemma bind_Done {A B} (m : M W Ctx A) (k : A -> M W Ctx B) flag (w : W) a tr w1 :
  m flag w = Done a tr w1 -> bind m k flag w = after tr (k a flag w1).
Proof. intros H. unfold bind, after. rewrite H. reflexivity. Qed.

End MonadFacts.

(** ** Setting levels *)

Section SetFacts.
Context {W Ctx : Type} (lib : PmLogLib W Ctx) (libc : Libc W Ctx).


Lemma snapshot_checked_inv (ci : ContextsInfo_t Ctx) :
  snapshot_inv lib ci -> snapshot_checked ci = Some (snapshot ci).
Proof.
  intros [Hlen Hb]. unfold snapshot_checked.
  destruct (Z.to_nat (numContexts ci) <=? length (contextInfos ci))%nat eqn:E;
    [reflexivity|].
  apply Nat.leb_gt in E. lia.
Qed.

(** [DoCmdSet] with a pattern and a level, up to the listing. *)
Lemma DoCmdSet_wildcard_run (cmd p lvl : string) (v : Z) logErr ci flag (w : W) :
  PrvIsWildcardContextName (PrvResolveContextNameAlias lib p) = true ->
  PmLogStringToLevel lib lvl = Some v ->
  malloc_ok libc w = true ->
  PrvGetContextList lib libc w (Some (PrvResolveContextNameAlias lib p))
    = Some (logErr, ci) ->
  DoCmdSet lib libc [cmd; p; lvl] flag w =
    if negb (is_kPmLogErr_None logErr)
    then
      Done RESULT_RUN_ERR
        (printed flag stderr ("Error getting contexts info: 0x%08X (%s)" ++ LF)
           (err_args lib logErr)) w
    else if numContexts ci =? 0
    then
      Done RESULT_RUN_ERR
        (printed flag stderr ("No contexts matched '%s'." ++ LF)
           [ArgS (PrvResolveContextNameAlias lib p)]) w
    else
      match snapshot_checked ci with
      | Some es => DoCmdSet_each lib es v flag w
      | None => Undefined
      end.
Proof.
  intros Hwild Hlvl Hmalloc Hrun. unfold DoCmdSet.
  cbn [tail DoCmdSet_args]. rewrite Hwild. cbn [negb]. rewrite Hlvl.
  rewrite bind_ret, bind_read, Hmalloc. cbn [negb].
  rewrite bind_read, Hrun. cbn [lift_opt]. rewrite bind_ret.
  destruct (is_kPmLogErr_None logErr); cbn [negb].
  - destruct (numContexts ci =? 0).
    + rewrite bind_ErrPrint, ret_run. cbn [after]. now rewrite app_nil_r.
    + destruct (snapshot_checked ci) as [es|]; cbn [lift_opt].
      * now rewrite bind_ret.
      * reflexivity.
  - rewrite bind_ErrPrint, ret_run. cbn [after]. now rewrite app_nil_r.
Qed.

(** Setting a level with a pattern that matches no context fails, with
    [RESULT_PARAM_ERR] and [Context '%s' not found.] handed to [ErrPrint]
    for a pattern without a star, and with [RESULT_RUN_ERR] and
    [No contexts matched '%s'.] handed to [ErrPrint] for a pattern with a
    star.  What [ErrPrint] makes of the message depends on
    [flag_silence]. *)
Theorem DoCmdSet_no_match (cmd p lvl : string) (v : Z) (flag : bool) (w : W) :
  PmLogStringToLevel lib lvl = Some v ->
  malloc_ok libc w = true ->
  matches_nothing lib w (PrvResolveContextNameAlias lib p) ->
  DoCmdSet lib libc [cmd; p; lvl] flag w =
    if PrvIsWildcardContextName (PrvResolveContextNameAlias lib p)
    then
      Done RESULT_RUN_ERR
        (printed flag stderr ("No contexts matched '%s'." ++ LF)
           [ArgS (PrvResolveContextNameAlias lib p)]) w
    else
      Done RESULT_PARAM_ERR
        (printed flag stderr ("Context '%s' not found." ++ LF)
           [ArgS (PrvResolveContextNameAlias lib p)]) w.
Proof.
  intros Hlvl Hmalloc Hnone. unfold matches_nothing in Hnone.
  destruct (PrvIsWildcardContextName (PrvResolveContextNameAlias lib p)) eqn:Hwild.
  - destruct Hnone as (Hc & entries & Henum & Hmatch).
    destruct (PrvGetContextList_counts lib libc w
                (Some (PrvResolveContextNameAlias lib p)) Hc)
      as (logErr & ci & Hrun & _ & Hent).
    destruct (Hent entries Henum) as (Hnum & _ & Hsucc).
    rewrite Hmatch in Hnum, Hsucc. cbn [length] in Hnum, Hsucc.
    rewrite (DoCmdSet_wildcard_run cmd p lvl v logErr ci flag w Hwild Hlvl Hmalloc Hrun).
    rewrite Hsucc by lia. cbn [is_kPmLogErr_None negb].
    rewrite Hnum by (apply Hsucc; lia). reflexivity.
  - unfold DoCmdSet. cbn [tail DoCmdSet_args]. rewrite Hwild. cbn [negb].
    rewrite bind_bind, bind_read.
    destruct (PmLogFindContext lib (PrvResolveContextNameAlias lib p) w) as [e c].
    cbn [fst] in Hnone.
    destruct e; [congruence| |]; cbn [is_kPmLogErr_None negb];
      rewrite bind_bind, bind_ErrPrint, bind_ret, ret_run; cbn [after];
      now rewrite app_nil_r.
Qed.



End SetFacts.

Section SetExamples.

Lemma DoCmdSet_no_match_witness :
  DoCmdSet (Toy.lib 8) Toy.libc ["set"; "nosuch*"; "info"]%string false Toy.scenario =
    Done RESULT_RUN_ERR
      (printed false stderr ("No contexts matched '%s'." ++ LF) [ArgS "nosuch*"])
      Toy.scenario /\
  DoCmdSet (Toy.lib 8) Toy.libc ["set"; "nosuch"; "info"]%string false Toy.scenario =
    Done RESULT_PARAM_ERR
      (printed false stderr ("Context '%s' not found." ++ LF) [ArgS "nosuch"])
      Toy.scenario.
Proof.
  split.
  - apply (DoCmdSet_no_match (Toy.lib 8) Toy.libc "set" "nosuch*" "info" 6 false
             Toy.scenario); [reflexivity|reflexivity|].
    split; [reflexivity|]. exists (Toy.entries Toy.scenario).
    split; [apply toy_enumerates; discriminate|reflexivity].
  - apply (DoCmdSet_no_match (Toy.lib 8) Toy.libc "set" "nosuch" "info" 6 false
             Toy.scenario); [reflexivity|reflexivity|].
    simpl. discriminate.
Defined.

(** C6, on the code: behind [-s] a level set with a pattern that matches
    no context gives the user nothing to tell the two cases by, nor any
    error at all: for the pattern without a star and for the pattern with
    a star alike the run prints nothing and exits with [EXIT_FAILURE].
    Without [-s] the same two invocations print [Context '%s' not found.]
    and [No contexts matched '%s'.] on stderr. *)
Theorem DoCmdSet_no_match_unseen :
  main (Toy.lib 8) Toy.libc Toy.view_absent
    ["PmLogCtl"; "-s"; "set"; "nosuch"; "info"]%string Toy.scenario =
    Done EXIT_FAILURE [] Toy.scenario /\
  main (Toy.lib 8) Toy.libc Toy.view_absent
    ["PmLogCtl"; "-s"; "set"; "nosuch*"; "info"]%string Toy.scenario =
    Done EXIT_FAILURE [] Toy.scenario /\
  main (Toy.lib 8) Toy.libc Toy.view_absent
    ["PmLogCtl"; "set"; "nosuch"; "info"]%string Toy.scenario =
    Done EXIT_FAILURE
      [Print stderr ("PmLogCtl: Context '%s' not found." ++ LF) [ArgS "nosuch"];
       Print stderr ("PmLogCtl: Use -help for usage information." ++ LF) []]
      Toy.scenario /\
  main (Toy.lib 8) Toy.libc Toy.view_absent
    ["PmLogCtl"; "set"; "nosuch*"; "info"]%string Toy.scenario =
    Done EXIT_FAILURE
      [Print stderr ("PmLogCtl: No contexts matched '%s'." ++ LF) [ArgS "nosuch*"]]
      Toy.scenario.
Proof. repeat split; vm_compute; reflexivity. Qed.


(** The failure in the middle, spelled out: [net.a] is set, [net.b]
    refuses, [net.c] is never reached and keeps its level. *)
Example DoCmdSet_fails_midway :
  DoCmdSet (Toy.lib 8) Toy.libc ["set"; "net*"; "info"]%string false Toy.with_frozen =
    Done RESULT_RUN_ERR
      [Print stdout ("PmLogCtl: Setting context level for '%s'." ++ LF) [ArgS "net.a"];
       Call_PmLogSetContextLevel (Some 2%nat) 6;
       Print stdout ("PmLogCtl: Setting context level for '%s'." ++ LF) [ArgS "net.b"];
       Call_PmLogSetContextLevel (Some 3%nat) 6;
       Print stderr ("PmLogCtl: Error setting context log level: 0x%08X (%s)" ++ LF)
         [ArgX (kPmLogErr_Lib 4); ArgS "library error"]]
      [Toy.mkCtx "<global>" 6 false; Toy.mkCtx "net.c" 3 false;
       Toy.mkCtx "net.a" 6 false; Toy.mkCtx "net.b" 3 true].
Proof. vm_compute. reflexivity. Qed.

(** The scenario of the specification: level 6 on [network*] changes
    [network] and [network.wifi] and leaves [ui] at level 2. *)
Example DoCmdSet_scenario :
  exists tr,
    DoCmdSet (Toy.lib 8) Toy.libc ["set"; "network*"; "info"]%string false Toy.scenario =
      Done RESULT_OK tr
        [Toy.mkCtx "<global>" 6 false; Toy.mkCtx "network" 6 false;
         Toy.mkCtx "network.wifi" 6 false; Toy.mkCtx "ui" 2 false].
Proof. eexists. vm_compute. reflexivity. Qed.

End SetExamples.

(** ** Defining a context *)

Section DefFacts.
Context {W Ctx : Type} (lib : PmLogLib W Ctx).

(** What [DoCmdDef] does for a name [PmLogFindContext] finds: it prints
    the message through [ErrPrint] and returns [RESULT_OK]. *)
Lemma DoCmdDef_existing (cmd name : string) (rest : list string) c flag (w : W) :
  PmLogFindContext lib (PrvResolveContextNameAlias lib name) w = (kPmLogErr_None, c) ->
  DoCmdDef lib (cmd :: name :: rest) flag w =
    Done RESULT_OK
      (printed flag stderr ("Context '%s' is already defined." ++ LF)
         [ArgS (PrvResolveContextNameAlias lib name)]) w.
Proof.
  intros Hfind. unfold DoCmdDef. cbn [tail DoCmdDef_args].
  rewrite bind_bind, bind_read, Hfind. cbn [is_kPmLogErr_None].
  rewrite bind_bind, bind_ErrPrint, bind_ret, ret_run. cbn [after].
  now rewrite app_nil_r.
Qed.

End DefFacts.

(** C8, on the code: for the context [ui], which exists in the registry,
    [DoCmdDef] reports the name as already defined and returns
    [RESULT_OK], and the process exits with [EXIT_SUCCESS]. *)
Theorem DoCmdDef_existing_returns_OK :
  DoCmdDef (Toy.lib 8) ["def"; "ui"; "info"]%string false Toy.scenario =
    Done RESULT_OK
      (printed false stderr ("Context '%s' is already defined." ++ LF) [ArgS "ui"])
      Toy.scenario /\
  main (Toy.lib 8) Toy.libc Toy.view_absent ["PmLogCtl"; "def"; "ui"; "info"]%string
    Toy.scenario =
    Done EXIT_SUCCESS
      (printed false stderr ("Context '%s' is already defined." ++ LF) [ArgS "ui"])
      Toy.scenario.
Proof. split; vm_compute; reflexivity. Qed.

(** ** The silence flag *)

Section SilenceFacts.
Context {W Ctx : Type}.

Lemma silenced_ret {A} (a : A) : silenced (ret (W := W) (Ctx := Ctx) a).
Proof. intros w. reflexivity. Qed.

Lemma silenced_read {A} (f : W -> A) : silenced (read (Ctx := Ctx) f).
Proof. intros w. reflexivity. Qed.

Lemma silenced_call {A} (ev : Event Ctx) (f : W -> A * W) :
  is_Print ev = false -> silenced (call ev f).
Proof. intros Hev w. unfold call. destruct (f w). simpl. now rewrite Hev. Qed.

Lemma silenced_undefined {A} : silenced (undefined (W := W) (Ctx := Ctx) (A := A)).
Proof. intros w. reflexivity. Qed.

Lemma silenced_out_of_fuel {A} : silenced (out_of_fuel (W := W) (Ctx := Ctx) (A := A)).
Proof. intros w. reflexivity. Qed.

Lemma silenced_lift_opt {A} (o : option A) : silenced (lift_opt (W := W) (Ctx := Ctx) o).
Proof. destruct o; intros w; reflexivity. Qed.

Lemma silenced_InfoPrint fmt args : silenced (InfoPrint (W := W) (Ctx := Ctx) fmt args).
Proof. intros w. reflexivity. Qed.

Lemma silenced_ErrPrint fmt args : silenced (ErrPrint (W := W) (Ctx := Ctx) fmt args).
Proof. intros w. reflexivity. Qed.

Lemma silenced_bind {A B} (m : M W Ctx A) (k : A -> M W Ctx B) :
  silenced m -> (forall a, silenced (k a)) -> silenced (bind m k).
Proof.
  intros Hm Hk w. unfold bind. rewrite Hm.
  destruct (m false w) as [a tr w1| |]; cbn [mute]; [|reflexivity..].
  rewrite Hk. destruct (k a false w1) as [b tr' w2| |]; cbn [mute]; [|reflexivity..].
  now rewrite List.filter_app.
Qed.

(** Nothing is left on the console of a muted run. *)
Lemma mute_no_Print {A} (o : Outcome W Ctx A) a tr w :
  mute o = Done a tr w -> Forall (fun e => is_Print e = false) tr.
Proof.
  destruct o as [a' tr' w'| |]; [|discriminate..]. intros [= _ <- _].
  apply List.Forall_forall. intros e He. apply List.filter_In in He as [_ He].
  now apply negb_true_iff in He.
Qed.

End SilenceFacts.

Create HintDb silence.

#[local] Hint Resolve silenced_ret silenced_read silenced_undefined
  silenced_out_of_fuel silenced_lift_opt silenced_InfoPrint silenced_ErrPrint
  : silence.

(** Walks a command built from [bind], the prints, the library calls and
    case distinctions. *)
Ltac silence_step :=
  match goal with
  | |- silenced _ => solve [auto with silence]
  | |- silenced (bind _ _) => apply silenced_bind; [|intros]
  | |- silenced (call _ _) => apply silenced_call; reflexivity
  | |- silenced (if ?b then _ else _) => destruct b
  | |- silenced (match ?x with _ => _ end) => destruct x
  end.

Ltac silence := repeat silence_step.

Lemma silenced_finish {W Ctx} (body : M W Ctx Result) :
  silenced body -> silenced (finish body).
Proof. intros Hb. unfold finish, SuggestHelp. silence. Qed.

Section SilenceCommands.
Context {W Ctx : Type} (lib : PmLogLib W Ctx) (libc : Libc W Ctx).
Variable DoCmdView : list string -> M W Ctx Result.

Lemma silenced_ShowContext e : silenced (ShowContext lib e).
Proof. unfold ShowContext. silence. Qed.

#[local] Hint Resolve silenced_ShowContext : silence.

Lemma silenced_DoCmdShow_each es : silenced (DoCmdShow_each lib es).
Proof. induction es as [|e es IH]; cbn [DoCmdShow_each]; silence. Qed.

#[local] Hint Resolve silenced_DoCmdShow_each : silence.

Lemma silenced_DoCmdShow argv : silenced (DoCmdShow lib libc argv).
Proof. unfold DoCmdShow. silence. Qed.

Lemma silenced_DoCmdSet_args rest :
  forall m c l, silenced (DoCmdSet_args lib rest m c l).
Proof.
  induction rest as [|arg rest IH]; intros m c l; cbn [DoCmdSet_args]; silence.
Qed.

Lemma silenced_DoCmdSet_each es level : silenced (DoCmdSet_each lib es level).
Proof. induction es as [|e es IH]; cbn [DoCmdSet_each]; silence. Qed.

#[local] Hint Resolve silenced_DoCmdSet_args silenced_DoCmdSet_each : silence.

Lemma silenced_DoCmdSet argv : silenced (DoCmdSet lib libc argv).
Proof. unfold DoCmdSet. silence. Qed.

Lemma silenced_DoCmdLog_args rest :
  forall n c l m, silenced (DoCmdLog_args lib rest n c l m).
Proof.
  induction rest as [|arg rest IH]; intros n c l m; cbn [DoCmdLog_args]; silence.
Qed.

#[local] Hint Resolve silenced_DoCmdLog_args : silence.

Lemma silenced_DoCmdLog argv : silenced (DoCmdLog lib argv).
Proof. unfold DoCmdLog. silence. Qed.

Lemma silenced_DoCmdLogKV_pairs fuel argv :
  forall p arg index result kvPair,
    silenced (DoCmdLogKV_pairs (W := W) (Ctx := Ctx) fuel argv p arg index result kvPair).
Proof.
  induction fuel as [|fuel IH]; intros p arg index result kvPair;
    cbn [DoCmdLogKV_pairs]; silence.
Qed.

#[local] Hint Resolve silenced_DoCmdLogKV_pairs : silence.

Lemma silenced_DoCmdLogKV_args fuel argv :
  forall st, silenced (DoCmdLogKV_args lib fuel argv st).
Proof.
  induction fuel as [|fuel IH]; intros st; cbn [DoCmdLogKV_args]; silence.
Qed.

#[local] Hint Resolve silenced_DoCmdLogKV_args : silence.

Lemma silenced_DoCmdLogKV argv : silenced (DoCmdLogKV lib argv).
Proof. unfold DoCmdLogKV. silence. Qed.

Lemma silenced_mysprintf n s : silenced (mysprintf (W := W) (Ctx := Ctx) n s).
Proof. unfold mysprintf. silence. Qed.

#[local] Hint Resolve silenced_mysprintf : silence.

Lemma silenced_WriteKMsg p s : silenced (WriteKMsg libc p s).
Proof. unfold WriteKMsg. silence. Qed.

#[local] Hint Resolve silenced_WriteKMsg : silence.

Lemma silenced_DoCmdKLog_args (n : nat) :
  forall rest l m, (length rest <= n)%nat -> silenced (DoCmdKLog_args lib rest l m).
Proof.
  induction n as [|n IH]; intros [|arg rest] l m Hlen; cbn [DoCmdKLog_args];
    cbn [length] in Hlen; try lia; silence.
  all: apply IH; cbn [length] in *; lia.
Qed.

Lemma silenced_DoCmdKLog argv : silenced (DoCmdKLog lib libc argv).
Proof.
  unfold DoCmdKLog. apply silenced_bind.
  - now apply (silenced_DoCmdKLog_args (length (tail argv))).
  - intros r. silence.
Qed.

Lemma silenced_DoCmdFlush : silenced (DoCmdFlush lib).
Proof. unfold DoCmdFlush. silence. Qed.

Lemma silenced_DoCmdReConf argv : silenced (DoCmdReConf lib argv).
Proof. unfold DoCmdReConf. silence. Qed.

Lemma silenced_DoCmdDef_args rest :
  forall n l v, silenced (DoCmdDef_args lib rest n l v).
Proof.
  induction rest as [|arg rest IH]; intros n l v; cbn [DoCmdDef_args]; silence.
Qed.

#[local] Hint Resolve silenced_DoCmdDef_args : silence.

Lemma silenced_DoCmdDef argv : silenced (DoCmdDef lib argv).
Proof. unfold DoCmdDef. silence. Qed.

Lemma silenced_ShowUsage_levels k : forall level, silenced (ShowUsage_levels lib k level).
Proof. induction k as [|k IH]; intros level; cbn [ShowUsage_levels]; silence. Qed.

#[local] Hint Resolve silenced_ShowUsage_levels : silence.

Lemma silenced_ShowUsage : silenced (ShowUsage lib).
Proof. unfold ShowUsage. silence. Qed.

#[local] Hint Resolve silenced_DoCmdDef silenced_DoCmdLog silenced_DoCmdLogKV
  silenced_DoCmdKLog silenced_DoCmdReConf silenced_DoCmdSet silenced_DoCmdShow
  silenced_DoCmdFlush silenced_ShowUsage : silence.

Lemma silenced_dispatch cmd cmd_index :
  strcmp cmd "view" <> 0 ->
  silenced (dispatch lib libc DoCmdView cmd cmd_index).
Proof.
  intros Hview. unfold dispatch.
  destruct (strcmp cmd "view" =? 0) eqn:E; [apply Z.eqb_eq in E; contradiction|].
  silence.
Qed.

End SilenceCommands.

Section SilenceTheorems.
Context {W Ctx : Type} (lib : PmLogLib W Ctx) (libc : Libc W Ctx).
Variable DoCmdView : list string -> M W Ctx Result.

(** What [-s] does in the code: for every invocation of a command other
    than [view] (and whose command word does not itself start with [-s]),
    putting [-s] (any word that starts with [-s]) before the command
    removes the whole console output of the run, the messages of
    [ErrPrint] on stderr as well as those of [InfoPrint] on stdout, and
    changes nothing else: the exit status, the library calls and the final
    library state are those of the run without [-s]. *)
Theorem main_silence (prog sflag cmd : string) (args : list string) (w : W) :
  strncmp sflag "-s" 2 = 0 ->
  strncmp cmd "-s" 2 <> 0 ->
  strcmp cmd "view" <> 0 ->
  main lib libc DoCmdView (prog :: sflag :: cmd :: args) w
    = mute (main lib libc DoCmdView (prog :: cmd :: args) w) /\
  forall status tr w',
    main lib libc DoCmdView (prog :: sflag :: cmd :: args) w = Done status tr w' ->
    Forall (fun e => is_Print e = false) tr.
Proof.
  intros Hs Hcmd Hview.
  assert (Heq : main lib libc DoCmdView (prog :: sflag :: cmd :: args) w
                = mute (main lib libc DoCmdView (prog :: cmd :: args) w)).
  { unfold main, main_plan.
    replace (Z.of_nat (length (prog :: sflag :: cmd :: args)) <? 2) with false
      by (symmetry; apply Z.ltb_ge; cbn [length]; lia).
    replace (Z.of_nat (length (prog :: cmd :: args)) <? 2) with false
      by (symmetry; apply Z.ltb_ge; cbn [length]; lia).
    cbn [lookup list_lookup drop]. rewrite Hs. cbn [Z.eqb].
    destruct (strncmp cmd "-s" 2 =? 0) eqn:E; [apply Z.eqb_eq in E; contradiction|].
    exact (silenced_finish _ (silenced_dispatch lib libc DoCmdView cmd _ Hview) w). }
  split; [exact Heq|]. intros status tr w' Hrun. rewrite Heq in Hrun.
  exact (mute_no_Print _ _ _ _ Hrun).
Qed.

End SilenceTheorems.

Section SilenceExamples.

Lemma main_silence_witness :
  main (Toy.lib 8) Toy.libc Toy.view_absent
    ["PmLogCtl"; "-s"; "set"; "net*"; "info"]%string Toy.with_frozen
  = mute (main (Toy.lib 8) Toy.libc Toy.view_absent
            ["PmLogCtl"; "set"; "net*"; "info"]%string Toy.with_frozen) /\
  forall status tr w',
    main (Toy.lib 8) Toy.libc Toy.view_absent
      ["PmLogCtl"; "-s"; "set"; "net*"; "info"]%string Toy.with_frozen
      = Done status tr w' ->
    Forall (fun e => is_Print e = false) tr.
Proof.
  apply (main_silence (Toy.lib 8) Toy.libc Toy.view_absent
           "PmLogCtl" "-s" "set" ["net*"; "info"]%string Toy.with_frozen).
  - reflexivity.
  - vm_compute. discriminate.
  - vm_compute. discriminate.
Defined.

(** C9, on the code: behind [-s] the error messages are not emitted.  An
    unknown command is reported with two lines on stderr without [-s] and
    with none behind it, and the message [No command specified.] that
    [main] hands to [ErrPrint] right after it has set [flag_silence] for a
    lone [-s] is never printed; the exit status is [EXIT_FAILURE] every
    time. *)
Theorem main_silence_drops_errors :
  main (Toy.lib 8) Toy.libc Toy.view_absent ["PmLogCtl"; "bogus"]%string Toy.scenario =
    Done EXIT_FAILURE
      [Print stderr ("PmLogCtl: Invalid command '%s'" ++ LF) [ArgS "bogus"];
       Print stderr ("PmLogCtl: Use -help for usage information." ++ LF) []]
      Toy.scenario /\
  main (Toy.lib 8) Toy.libc Toy.view_absent ["PmLogCtl"; "-s"; "bogus"]%string
    Toy.scenario =
    Done EXIT_FAILURE [] Toy.scenario /\
  main (Toy.lib 8) Toy.libc Toy.view_absent ["PmLogCtl"; "-s"]%string Toy.scenario =
    Done EXIT_FAILURE [] Toy.scenario.
Proof. repeat split; vm_compute; reflexivity. Qed.

End SilenceExamples.

(** ** The key/value encoder on concrete inputs *)

Section LogKVExamples.

(** The two encodings the specification lists. *)
Example DoCmdLogKV_two_pairs :
  DoCmdLogKV (Toy.lib 8) ["logkv"; "ui"; "info"; "ID"; "a=1"; "b=2"; "hello"]%string
    false Toy.scenario =
    Done RESULT_OK
      [Call_PmLogString (Some 3%nat) 6 (Some "ID"%string)
         (Some (EncodeKV_ref ["a=1"; "b=2"]%string)) (Some "hello"%string)]
      Toy.scenario /\
  EncodeKV_ref ["a=1"; "b=2"]%string
  = String "{" (kv_entry "a" "1" ++ "," ++ kv_entry "b" "2" ++ "}").
Proof. split; vm_compute; reflexivity. Qed.

Example DoCmdLogKV_no_pairs :
  DoCmdLogKV (Toy.lib 8) ["logkv"; "ui"; "info"; "ID"; "hello"]%string
    false Toy.scenario =
    Done RESULT_OK
      [Call_PmLogString (Some 3%nat) 6 (Some "ID"%string) (Some "{}"%string)
         (Some "hello"%string)]
      Toy.scenario.
Proof. vm_compute. reflexivity. Qed.

(** A token without an equals sign in first place ends the command. *)
Example DoCmdLogKV_bad_first_token :
  DoCmdLogKV (Toy.lib 8) ["logkv"; "ui"; "info"; "ID"; "badtoken"; "hello"]%string
    false Toy.scenario =
    Done RESULT_PARAM_ERR
      (printed false stderr ("key and value pair is wrong : %s" ++ LF) [ArgS "badtoken"])
      Toy.scenario.
Proof. vm_compute. reflexivity. Qed.

(** C3, on the code: a token without an equals sign that follows a good
    token is reported, but the command goes on: [PmLogString] is called
    with the payload built so far, which lacks its closing brace, and the
    result is [RESULT_OK]. *)
Theorem DoCmdLogKV_bad_later_token_emits :
  DoCmdLogKV (Toy.lib 8)
    ["logkv"; "ui"; "info"; "ID"; "a=1"; "badtoken"; "hello"]%string
    false Toy.scenario =
    Done RESULT_OK
      (printed false stderr ("key and value pair is wrong : %s" ++ LF) [ArgS "badtoken"]
       ++ [Call_PmLogString (Some 3%nat) 6 (Some "ID"%string)
             (Some (String "{" (kv_entry "a" "1" ++ ","))) (Some "hello"%string)])
      Toy.scenario.
Proof. vm_compute. reflexivity. Qed.

(** C2, as stated, fails on these inputs: the value [a<TAB>b] is cut at
    its tab and the value [a<LF>b] at its newline, so that the payload is
    not the one of the reference encoder; the tokens [k=] (no value) and
    [=v] (no key) in first place are refused; and the payload of the one
    token with a value of 2000 characters is handed on with the 1023
    characters that fit the buffer, of the 2006 it should have. *)
Lemma DoCmdLogKV_value_not_verbatim :
  (DoCmdLogKV (Toy.lib 8)
     ["logkv"; "ui"; "info"; "ID"; "k=a" ++ String TAB "b"; "hello"]%string
     false Toy.scenario =
     Done RESULT_OK
       [Call_PmLogString (Some 3%nat) 6 (Some "ID"%string)
          (Some (String "{" (kv_entry "k" "a" ++ "}"))) (Some "hello"%string)]
       Toy.scenario /\
   EncodeKV_ref ["k=a" ++ String TAB "b"]%string
   = String "{" (kv_entry "k" ("a" ++ String TAB "b") ++ "}") /\
   EncodeKV_ref ["k=a" ++ String TAB "b"]%string
   <> String "{" (kv_entry "k" "a" ++ "}")) /\
  (DoCmdLogKV (Toy.lib 8)
     ["logkv"; "ui"; "info"; "ID"; "k=a" ++ String NEWLINE "b"; "hello"]%string
     false Toy.scenario =
     Done RESULT_OK
       [Call_PmLogString (Some 3%nat) 6 (Some "ID"%string)
          (Some (String "{" (kv_entry "k" "a" ++ "}"))) (Some "hello"%string)]
       Toy.scenario /\
   EncodeKV_ref ["k=a" ++ String NEWLINE "b"]%string
   <> String "{" (kv_entry "k" "a" ++ "}")) /\
  DoCmdLogKV (Toy.lib 8) ["logkv"; "ui"; "info"; "ID"; "k="; "hello"]%string
    false Toy.scenario =
    Done RESULT_PARAM_ERR
      (printed false stderr ("key and value pair is wrong : %s" ++ LF) [ArgS "k="])
      Toy.scenario /\
  DoCmdLogKV (Toy.lib 8) ["logkv"; "ui"; "info"; "ID"; "=v"; "hello"]%string
    false Toy.scenario =
    Done RESULT_PARAM_ERR
      (printed false stderr ("key and value pair is wrong : %s" ++ LF) [ArgS "=v"])
      Toy.scenario /\
  (exists kv,
     DoCmdLogKV (Toy.lib 8)
       ["logkv"; "ui"; "info"; "ID";
        "k=" ++ string_of_list_ascii (repeat "x"%char 2000); "hello"]%string
       false Toy.scenario =
       Done RESULT_OK
         [Call_PmLogString (Some 3%nat) 6 (Some "ID"%string) (Some kv)
            (Some "hello"%string)]
         Toy.scenario /\
     String.length kv = 1023%nat /\
     String.length
       (EncodeKV_ref ["k=" ++ string_of_list_ascii (repeat "x"%char 2000)]%string)
     = 2006%nat).
Proof.
  split; [split; [vm_compute; reflexivity|split; [vm_compute; reflexivity|]]|].
  - vm_compute. discriminate.
  - split; [split; [vm_compute; reflexivity|vm_compute; discriminate]|].
    split; [vm_compute; reflexivity|]. split; [vm_compute; reflexivity|].
    eexists. split; [vm_compute; reflexivity|]. split; vm_compute; reflexivity.
Qed.

(** Two tokens that together overrun the buffer: the second [snprintf]
    is handed a pointer behind the buffer and a wrapped size. *)
Example DoCmdLogKV_overrun_undefined :
  DoCmdLogKV (Toy.lib 8)
    ["logkv"; "ui"; "info"; "ID";
     "k=" ++ string_of_list_ascii (repeat "x"%char 2000); "b=2"; "hello"]%string
    false Toy.scenario = Undefined.
Proof. vm_compute. reflexivity. Qed.

(** At the debug level the third argument is the message and a fourth is
    refused. *)
Example DoCmdLogKV_debug :
  DoCmdLogKV (Toy.lib 8) ["logkv"; "ui"; "debug"; "x=1"]%string false Toy.scenario =
    Done RESULT_OK
      [Call_PmLogString (Some 3%nat) 7 None None (Some "x=1"%string)] Toy.scenario /\
  DoCmdLogKV (Toy.lib 8) ["logkv"; "ui"; "debug"; "hello"; "x=1"]%string false
    Toy.scenario =
    Done RESULT_PARAM_ERR
      (printed false stderr ("Invalid parameter '%s'." ++ LF) [ArgS "x=1"]) Toy.scenario.
Proof. split; vm_compute; reflexivity. Qed.

End LogKVExamples.

(** ** Strings and buffers *)

Section BufferFacts.

Lemma list_ascii_app (s1 s2 : string) :
  list_ascii_of_string (s1 ++ s2)
  = list_ascii_of_string s1 ++ list_ascii_of_string s2.
Proof. induction s1 as [|a s1 IH]; simpl; [reflexivity|]. now rewrite IH. Qed.

Lemma list_ascii_length (s : string) :
  length (list_ascii_of_string s) = String.length s.
Proof. induction s as [|a s IH]; simpl; [reflexivity|]. now rewrite IH. Qed.

Lemma string_length_app (s1 s2 : string) :
  String.length (s1 ++ s2) = (String.length s1 + String.length s2)%nat.
Proof. induction s1 as [|a s1 IH]; simpl; [reflexivity|]. now rewrite IH. Qed.

Lemma string_app_assoc (s1 s2 s3 : string) :
  ((s1 ++ s2) ++ s3 = s1 ++ s2 ++ s3)%string.
Proof. induction s1 as [|a s1 IH]; simpl; [reflexivity|]. now rewrite IH. Qed.

Lemma nul_free_app (s1 s2 : string) :
  nul_free (s1 ++ s2) = nul_free s1 && nul_free s2.
Proof.
  induction s1 as [|a s1 IH]; simpl; [reflexivity|].
  now rewrite IH, andb_assoc.
Qed.

Lemma cstring_app (s1 s2 : string) :
  cstring s1 -> cstring s2 -> cstring (s1 ++ s2).
Proof. unfold cstring. intros H1 H2. now rewrite nul_free_app, H1, H2. Qed.

(** [strlen] of a buffer that starts with a C string and its terminator. *)
Lemma buf_strlen_app (s : string) (rest : list ascii) :
  cstring s ->
  buf_strlen (list_ascii_of_string s ++ NUL :: rest) = Some (String.length s).
Proof.
  unfold cstring. induction s as [|a s IH]; intros Hc; [reflexivity|].
  apply nul_free_cons in Hc as [Ha Hc]. cbn [list_ascii_of_string app buf_strlen].
  destruct (Ascii.eqb a NUL) eqn:E; [apply Ascii.eqb_eq in E; contradiction|].
  now rewrite (IH Hc).
Qed.

Lemma kv_holds_strlen (b : list ascii) (s : string) :
  kv_holds b s -> buf_strlen b = Some (String.length s).
Proof. intros (Hc & _ & rest & ->). now apply buf_strlen_app. Qed.

Lemma kv_holds_length (b : list ascii) (s : string) :
  kv_holds b s -> (String.length s < 1024)%nat.
Proof.
  intros (_ & Hlen & rest & ->). rewrite length_app, list_ascii_length in Hlen.
  cbn [length] in Hlen. change (Z.to_nat sizeof_kvPair) with 1024%nat in Hlen. lia.
Qed.

Lemma kv_holds_cstr (b : list ascii) (s : string) :
  kv_holds b s -> buf_cstr b = Some s.
Proof.
  intros H. unfold buf_cstr. rewrite (kv_holds_strlen b s H).
  destruct H as (_ & _ & rest & ->).
  rewrite <- list_ascii_length, take_app_length.
  now rewrite string_of_list_ascii_of_string.
Qed.

Lemma kv_holds_zero : kv_holds kvPair_zero EmptyString.
Proof.
  split; [reflexivity|]. split; [apply length_replicate|].
  exists (replicate 1023 NUL). reflexivity.
Qed.

(** Storing a C string and its terminator right behind the string a
    buffer holds, with room to spare, appends it. *)
Lemma kv_holds_write (b : list ascii) (s t : string) :
  kv_holds b s ->
  cstring t ->
  (String.length s + String.length t < 1024)%nat ->
  exists b',
    buf_write b (String.length s) (list_ascii_of_string t ++ [NUL]) = Some b' /\
    kv_holds b' (s ++ t).
Proof.
  intros (Hc & Hlen & rest & ->) Ht Hfit.
  change (Z.to_nat sizeof_kvPair) with 1024%nat in Hlen.
  rewrite length_app, list_ascii_length in Hlen. cbn [length] in Hlen.
  exists (list_ascii_of_string (s ++ t) ++ NUL :: drop (String.length t) rest).
  split.
  - unfold buf_write.
    rewrite !length_app, !list_ascii_length. cbn [length].
    destruct (String.length s + (String.length t + 1)
              <=? String.length s + S (length rest))%nat eqn:E;
      [|apply Nat.leb_gt in E; lia].
    f_equal. rewrite <- (list_ascii_length s) at 1 2. rewrite take_app_length.
    rewrite drop_app_add'; [|reflexivity].
    rewrite list_ascii_app, <- !app_assoc. f_equal. f_equal.
    replace (String.length t + 1)%nat with (S (String.length t)) by lia.
    reflexivity.
  - split; [now apply cstring_app|]. split; [|eauto].
    change (Z.to_nat sizeof_kvPair) with 1024%nat.
    rewrite length_app, list_ascii_length, string_length_app. cbn [length].
    rewrite length_drop. lia.
Qed.

Lemma strlen_nat (s : string) : Z.to_nat (strlen s) = String.length s.
Proof. unfold strlen. apply Nat2Z.id. Qed.

(** [strncat] of one character. *)
Lemma kv_holds_strncat (b : list ascii) (s : string) (c : ascii) :
  kv_holds b s ->
  c <> NUL ->
  (String.length s + 1 < 1024)%nat ->
  exists b',
    buf_strncat b (String c EmptyString) 1 = Some b' /\
    kv_holds b' (s ++ String c EmptyString).
Proof.
  intros Hb Hc Hfit. unfold buf_strncat. rewrite (kv_holds_strlen b s Hb).
  apply (kv_holds_write b s (String c EmptyString) Hb); [|exact Hfit].
  apply nul_free_cons. now split.
Qed.

(** [snprintf] at the end of the string, with the size the program passes,
    when the text fits. *)
Lemma kv_holds_snprintf (b : list ascii) (s t : string) :
  kv_holds b s ->
  cstring t ->
  (String.length s + String.length t < 1023)%nat ->
  exists b',
    buf_snprintf b (strlen s) (to_size_t (sizeof_kvPair - strlen s - 1)) t = Some b' /\
    kv_holds b' (s ++ t).
Proof.
  intros Hb Ht Hfit. unfold buf_snprintf, to_size_t, sizeof_kvPair.
  assert (Hs : 0 <= strlen s) by (unfold strlen; lia).
  assert (Hls : strlen s = Z.of_nat (String.length s)) by reflexivity.
  assert (Hlt : strlen t = Z.of_nat (String.length t)) by reflexivity.
  rewrite Z.mod_small by lia.
  destruct (1024 - strlen s - 1 =? 0) eqn:E0; [apply Z.eqb_eq in E0; lia|].
  destruct (strlen s <? 0) eqn:E1; [apply Z.ltb_lt in E1; lia|].
  rewrite Z.min_r by lia. rewrite !strlen_nat.
  rewrite take_ge by (rewrite list_ascii_length; lia).
  apply (kv_holds_write b s t Hb Ht). lia.
Qed.

(** The [snprintf] of the empty object into an empty buffer. *)
Lemma kv_holds_empty_object (b : list ascii) :
  kv_holds b EmptyString ->
  exists b', buf_snprintf b 0 sizeof_kvPair "{}" = Some b' /\ kv_holds b' "{}".
Proof.
  intros Hb.
  destruct (kv_holds_write b EmptyString "{}" Hb eq_refl) as (b' & Hw & Hb');
    [simpl; lia|].
  exists b'. split; [exact Hw|exact Hb'].
Qed.

(** The store of a NUL into the last byte. *)
Lemma kv_holds_terminate (b : list ascii) (s : string) :
  kv_holds b s ->
  exists b',
    buf_write b (Z.to_nat (sizeof_kvPair - 1)) [NUL] = Some b' /\ kv_holds b' s.
Proof.
  intros (Hc & Hlen & rest & ->).
  change (Z.to_nat sizeof_kvPair) with 1024%nat in Hlen.
  change (Z.to_nat (sizeof_kvPair - 1)) with 1023%nat.
  pose proof Hlen as Hlen'.
  rewrite length_app, list_ascii_length in Hlen'. cbn [length] in Hlen'.
  unfold buf_write. cbn [length]. rewrite Hlen. cbn [Nat.add Nat.leb].
  eexists. split; [reflexivity|]. split; [exact Hc|]. split.
  - change (Z.to_nat sizeof_kvPair) with 1024%nat.
    rewrite !length_app, length_take, length_drop, Hlen. reflexivity.
  - rewrite take_app, list_ascii_length.
    rewrite take_ge by (rewrite list_ascii_length; lia).
    destruct (1023 - String.length s)%nat as [|k] eqn:Ek.
    + assert (rest = []) as -> by (destruct rest; [reflexivity|simpl in Hlen'; lia]).
      exists []. rewrite take_0, app_nil_r. cbn [app].
      rewrite drop_ge; [reflexivity|]. rewrite length_app, list_ascii_length.
      simpl. lia.
    + cbn [take]. eexists. rewrite <- app_assoc. cbn [app]. reflexivity.
Qed.

(** [scan_set] takes a whole string of characters of the set. *)
Lemma scan_set_all (p : ascii -> bool) (s : string) :
  all_chars p s = true -> scan_set p s = (s, EmptyString).
Proof.
  induction s as [|a s IH]; simpl; [reflexivity|].
  intros H. apply andb_true_iff in H as [Ha Hs]. now rewrite Ha, (IH Hs).
Qed.

Lemma substring_whole (t : string) : substring 0 (String.length t) t = t.
Proof. induction t as [|b t IH]; [reflexivity|]. simpl. now rewrite IH. Qed.

Lemma substring_after_head (a : ascii) (t : string) :
  substring 1 (String.length (String a t) - 1) (String a t) = t.
Proof. simpl. rewrite Nat.sub_0_r. apply substring_whole. Qed.

Lemma substring_skip (a : ascii) (t : string) (k : nat) :
  substring (S (S k)) (String.length (String a t) - S (S k)) (String a t)
  = substring (S k) (String.length t - S k) t.
Proof. reflexivity. Qed.

(** [scan_set] up to the first equals sign. *)
Lemma scan_set_equals (t : string) (k : nat) :
  strchr t "=" = Some k ->
  scan_set not_equals_sign t
  = (substring 0 k t, String "=" (substring (S k) (String.length t - S k) t)).
Proof.
  revert k. induction t as [|a t IH]; intros k Hk; [discriminate|].
  simpl in Hk. cbn [scan_set]. unfold not_equals_sign at 1.
  destruct (Ascii.eqb a "=") eqn:E.
  - injection Hk as <-. apply Ascii.eqb_eq in E. subst a. cbn [negb].
    now rewrite substring_after_head.
  - destruct (strchr t "=") as [k'|]; [|discriminate]. injection Hk as <-.
    cbn [negb]. rewrite (IH k' eq_refl), substring_skip. reflexivity.
Qed.

(** A string with an equals sign is its key, the sign and its value. *)
Lemma split_at_equals (t : string) (k : nat) :
  strchr t "=" = Some k ->
  t = (substring 0 k t
       ++ String "=" (substring (S k) (String.length t - S k) t))%string.
Proof.
  revert k. induction t as [|a t IH]; intros k Hk; [discriminate|].
  simpl in Hk. destruct (Ascii.eqb a "=") eqn:E.
  - injection Hk as <-. apply Ascii.eqb_eq in E. subst a.
    now rewrite substring_after_head.
  - destruct (strchr t "=") as [k'|]; [|discriminate]. injection Hk as <-.
    rewrite substring_skip. cbn [substring append]. f_equal. now apply IH.
Qed.

(** On a token the encoder takes in whole, [sscanf] converts both items:
    the key before the first equals sign and the value behind it. *)
Lemma sscanf_kv_encodable (token : string) :
  encodable token = true ->
  exists key value,
    split_first_equals token = Some (key, value) /\
    sscanf_kv token = (2, Some key, Some value) /\
    cstring key /\ cstring value.
Proof.
  unfold encodable, split_first_equals. rewrite (index_strchr "=" token).
  intros H. apply andb_true_iff in H as [Hnul H].
  destruct (strchr token "=") as [k|] eqn:Hk; [|discriminate].
  apply andb_true_iff in H as [H Hval]. apply andb_true_iff in H as [Hkey Hvne].
  apply negb_true_iff, String.eqb_neq in Hkey.
  apply negb_true_iff, String.eqb_neq in Hvne.
  pose proof (scan_set_equals token k Hk) as Hscan.
  set (key := substring 0 k token) in *.
  set (value := substring (S k) (String.length token - S k) token) in *.
  exists key, value. split; [reflexivity|].
  assert (Hsplit : token = (key ++ String "=" value)%string)
    by exact (split_at_equals token k Hk).
  assert (Hcs : cstring key /\ cstring value).
  { unfold cstring in *. rewrite Hsplit, nul_free_app in Hnul.
    apply andb_true_iff in Hnul as [H1 H2]. split; [exact H1|].
    now apply nul_free_cons in H2 as [_ H2]. }
  split; [|exact Hcs].
  unfold sscanf_kv. destruct token as [|a t]; [discriminate|].
  rewrite Hscan. destruct key as [|ka key']; [congruence|].
  rewrite (scan_set_all _ _ Hval). destruct value as [|va value']; [congruence|].
  reflexivity.
Qed.

End BufferFacts.

(** ** The inner loop of [DoCmdLogKV] *)

Section PairsFacts.
Context {W Ctx : Type}.

Abbreviation Exit := (Result + (Z * option string * list ascii))%type.

Lemma same_exit_bind {A} (n : Z) (m : M W Ctx A) (k1 k2 : A -> M W Ctx Exit) flag w :
  (forall a w', same_exit n (k1 a flag w') (k2 a flag w')) ->
  same_exit n (bind m k1 flag w) (bind m k2 flag w).
Proof.
  intros Hk. unfold bind. destruct (m flag w) as [a tr w1| |]; [|exact I..].
  specialize (Hk a w1).
  destruct (k1 a flag w1) as [[r1|[[p1 a1] kv1]] tr1 w1'| |],
           (k2 a flag w1) as [[r2|[[p2 a2] kv2]] tr2 w2'| |];
    cbn [same_exit] in *; try contradiction; try exact I.
  - destruct Hk as (-> & -> & ->). auto.
  - destruct Hk as (-> & -> & -> & -> & ->). auto 6.
Qed.

Lemma same_exit_refl_inl (n : Z) (r : Result) flag (w : W) :
  same_exit (Ctx := Ctx) n (ret (inl r) flag w) (ret (inl r) flag w).
Proof. cbn. auto. Qed.

(** The inner loop never reads the last argument: over two argument
    vectors that differ in it only, it ends alike, and when it leaves the
    loop it does so at the index of the last argument. *)
Lemma DoCmdLogKV_pairs_last (pre : list string) (last1 last2 : string) flag :
  forall (fuel : nat) (p index : Z) (result : bool) (kvPair : list ascii) (w : W),
    0 <= p <= Z.of_nat (length pre) ->
    same_exit (Z.of_nat (length pre))
      (DoCmdLogKV_pairs (Ctx := Ctx) fuel (pre ++ [last1]) p
         ((pre ++ [last1]) !! Z.to_nat p) index result kvPair flag w)
      (DoCmdLogKV_pairs fuel (pre ++ [last2]) p
         ((pre ++ [last2]) !! Z.to_nat p) index result kvPair flag w).
Proof.
  induction fuel as [|fuel IH]; intros p index result kvPair w Hp; [exact I|].
  cbn [DoCmdLogKV_pairs]. rewrite !length_app. cbn [length].
  replace (Z.of_nat (length pre + 1)) with (Z.of_nat (length pre) + 1) by lia.
  destruct (p <? Z.of_nat (length pre) + 1) eqn:E1;
    [|apply Z.ltb_ge in E1; lia].
  cbn [negb]. replace (Z.of_nat (length pre) + 1 - 1) with (Z.of_nat (length pre)) by lia.
  destruct (p =? Z.of_nat (length pre)) eqn:E2.
  - apply Z.eqb_eq in E2. destruct (p =? 4).
    + apply same_exit_bind. intros b w'. cbn. auto 6.
    + cbn. auto 6.
  - apply Z.eqb_neq in E2.
    assert (Hlt : (Z.to_nat p < length pre)%nat) by lia.
    rewrite (lookup_app_l pre [last1]), (lookup_app_l pre [last2]) by exact Hlt.
    destruct (lookup_lt_is_Some_2 pre (Z.to_nat p) Hlt) as [a Ha]. rewrite Ha.
    apply same_exit_bind. intros [kvPair1 index1] w1.
    destruct (sscanf_kv a) as [[n keyBuffer] valueBuffer].
    apply same_exit_bind. intros [[kvPair2 index2] result2] w2.
    destruct result2; cbn [negb]; [|apply same_exit_refl_inl].
    apply IH. lia.
Qed.

End PairsFacts.

(** ** The argument loop of [DoCmdLogKV], one turn at a time *)

Section LogKVSteps.
Context {W Ctx : Type} (lib : PmLogLib W Ctx).

Implicit Types (argv : list string) (p level : Z) (kvPair : list ascii).

Lemma DoCmdLogKV_args_exit fuel argv st flag (w : W) :
  Z.of_nat (length argv) <= kv_paramIndex st ->
  DoCmdLogKV_args lib (S fuel) argv st flag w = Done (inr st) [] w.
Proof.
  intros Hp. cbn [DoCmdLogKV_args].
  destruct (kv_paramIndex st <? Z.of_nat (length argv)) eqn:E;
    [apply Z.ltb_lt in E; lia|reflexivity].
Qed.

Lemma DoCmdLogKV_args_context fuel argv p a c l id m kvPair chk flag (w : W) :
  p < Z.of_nat (length argv) ->
  argv !! Z.to_nat p = Some a ->
  DoCmdLogKV_args lib (S fuel) argv (mkLogKV p None c l id m kvPair chk) flag w =
    let '(logErr, found) := PmLogFindContext lib (PrvResolveContextNameAlias lib a) w in
    if negb (is_kPmLogErr_None logErr)
    then
      Done (inl RESULT_PARAM_ERR)
        (printed flag stderr ("Invalid context '%s'." ++ LF) [ArgS a]) w
    else
      DoCmdLogKV_args lib fuel argv
        (mkLogKV (p + 1) (Some (PrvResolveContextNameAlias lib a)) found l id m
           kvPair chk) flag w.
Proof.
  intros Hp Ha. cbn [DoCmdLogKV_args kv_paramIndex kv_contextName kv_levelIntP
                     kv_msgID kv_msg kv_kvPair kv_isCheckedKV kv_context].
  apply Z.ltb_lt in Hp. rewrite Hp, Ha. cbn [negb lift_opt].
  rewrite bind_ret, bind_read.
  destruct (PmLogFindContext lib (PrvResolveContextNameAlias lib a) w) as [e found].
  destruct (is_kPmLogErr_None e); cbn [negb]; [reflexivity|].
  rewrite bind_ErrPrint, ret_run. cbn [after]. now rewrite app_nil_r.
Qed.

Lemma DoCmdLogKV_args_level fuel argv p a n c id m kvPair chk flag (w : W) :
  p < Z.of_nat (length argv) ->
  argv !! Z.to_nat p = Some a ->
  DoCmdLogKV_args lib (S fuel) argv (mkLogKV p (Some n) c None id m kvPair chk) flag w =
    match PmLogStringToLevel lib a with
    | Some v =>
        if v =? -1
        then
          Done (inl RESULT_PARAM_ERR)
            (printed flag stderr ("Invalid level '%s'." ++ LF) [ArgS a]) w
        else
          DoCmdLogKV_args lib fuel argv
            (mkLogKV (p + 1) (Some n) c (Some v) id m kvPair chk) flag w
    | None =>
        Done (inl RESULT_PARAM_ERR)
          (printed flag stderr ("Invalid level '%s'." ++ LF) [ArgS a]) w
    end.
Proof.
  intros Hp Ha. cbn [DoCmdLogKV_args kv_paramIndex kv_contextName kv_levelIntP
                     kv_msgID kv_msg kv_kvPair kv_isCheckedKV kv_context].
  apply Z.ltb_lt in Hp. rewrite Hp, Ha. cbn [negb lift_opt].
  rewrite bind_ret.
  destruct (PmLogStringToLevel lib a) as [v|].
  - destruct (v =? -1); [|reflexivity].
    rewrite bind_ErrPrint, ret_run. cbn [after]. now rewrite app_nil_r.
  - rewrite bind_ErrPrint, ret_run. cbn [after]. now rewrite app_nil_r.
Qed.

Lemma DoCmdLogKV_args_msgID fuel argv p n c v m kvPair chk flag (w : W) :
  p < Z.of_nat (length argv) ->
  (v =? kPmLogLevel_Debug lib) = false ->
  DoCmdLogKV_args lib (S fuel) argv (mkLogKV p (Some n) c (Some v) None m kvPair chk)
    flag w =
    DoCmdLogKV_args lib fuel argv
      (mkLogKV (p + 1) (Some n) c (Some v) (argv !! Z.to_nat p) m kvPair chk) flag w.
Proof.
  intros Hp Hd. cbn [DoCmdLogKV_args kv_paramIndex kv_contextName kv_levelIntP
                     kv_msgID kv_msg kv_kvPair kv_isCheckedKV kv_context].
  apply Z.ltb_lt in Hp. rewrite Hp, Hd. reflexivity.
Qed.

Lemma DoCmdLogKV_args_pairs fuel argv p n c v id m kvTail flag (w : W) :
  p < Z.of_nat (length argv) ->
  (v =? kPmLogLevel_Debug lib) = false ->
  DoCmdLogKV_args lib (S fuel) argv
    (mkLogKV p (Some n) c (Some v) (Some id) m (NUL :: kvTail) false) flag w =
    match DoCmdLogKV_pairs (length argv) argv p (argv !! Z.to_nat p) 0 false
            (NUL :: kvTail) flag w with
    | Done (inl result) tr w1 => Done (inl result) tr w1
    | Done (inr (p', _, kvPair')) tr w1 =>
        match buf_write kvPair' (Z.to_nat (sizeof_kvPair - 1)) [NUL] with
        | Some kvPair'' =>
            after tr
              (DoCmdLogKV_args lib fuel argv
                 (mkLogKV p' (Some n) c (Some v) (Some id) m kvPair'' true) flag w1)
        | None => Undefined
        end
    | Undefined => Undefined
    | Fuel => Fuel
    end.
Proof.
  intros Hp Hd. cbn [DoCmdLogKV_args kv_paramIndex kv_contextName kv_levelIntP
                     kv_msgID kv_msg kv_kvPair kv_isCheckedKV kv_context].
  apply Z.ltb_lt in Hp. rewrite Hp, Hd. cbn [negb andb].
  change (Ascii.eqb NUL NUL) with true. cbn [andb]. unfold bind at 1.
  destruct (DoCmdLogKV_pairs (length argv) argv p (argv !! Z.to_nat p) 0 false
              (NUL :: kvTail) flag w) as [[r|[[p' a'] kv']] tr w1| |];
    [| |reflexivity..].
  - cbn. now rewrite app_nil_r.
  - destruct (buf_write kv' (Z.to_nat (sizeof_kvPair - 1)) [NUL]) as [kv''|];
      cbn [lift_opt]; [|reflexivity].
    rewrite bind_ret. unfold after.
    destruct (DoCmdLogKV_args lib fuel argv _ flag w1); reflexivity.
Qed.

Lemma DoCmdLogKV_args_msg fuel argv p n c v id kvPair chk flag (w : W) :
  p < Z.of_nat (length argv) ->
  (match id with None => true | Some _ => false end
   && negb (v =? kPmLogLevel_Debug lib)) = false ->
  (negb chk && negb (v =? kPmLogLevel_Debug lib)) = false ->
  DoCmdLogKV_args lib (S fuel) argv (mkLogKV p (Some n) c (Some v) id None kvPair chk)
    flag w =
    DoCmdLogKV_args lib fuel argv
      (mkLogKV (p + 1) (Some n) c (Some v) id (argv !! Z.to_nat p) kvPair chk) flag w.
Proof.
  intros Hp Hid Hkv. cbn [DoCmdLogKV_args kv_paramIndex kv_contextName kv_levelIntP
                     kv_msgID kv_msg kv_kvPair kv_isCheckedKV kv_context].
  apply Z.ltb_lt in Hp. rewrite Hp. cbn [negb]. rewrite Hid.
  rewrite <- andb_assoc, Hkv, andb_false_r. reflexivity.
Qed.

Lemma DoCmdLogKV_args_extra fuel argv p n c v id msg kvPair chk flag (w : W) :
  p < Z.of_nat (length argv) ->
  (match id with None => true | Some _ => false end
   && negb (v =? kPmLogLevel_Debug lib)) = false ->
  (negb chk && negb (v =? kPmLogLevel_Debug lib)) = false ->
  DoCmdLogKV_args lib (S fuel) argv
    (mkLogKV p (Some n) c (Some v) id (Some msg) kvPair chk) flag w =
    Done (inl RESULT_PARAM_ERR)
      (printed flag stderr ("Invalid parameter '%s'." ++ LF)
         [ArgS_opt (argv !! Z.to_nat p)]) w.
Proof.
  intros Hp Hid Hkv. cbn [DoCmdLogKV_args kv_paramIndex kv_contextName kv_levelIntP
                     kv_msgID kv_msg kv_kvPair kv_isCheckedKV kv_context].
  apply Z.ltb_lt in Hp. rewrite Hp. cbn [negb]. rewrite Hid.
  rewrite <- andb_assoc, Hkv, andb_false_r.
  rewrite bind_ErrPrint, ret_run. cbn [after]. now rewrite app_nil_r.
Qed.

End LogKVSteps.

(** ** [DoCmdLogKV] with at least one argument behind the message ID *)

Section LogKVRun.
Context {W Ctx : Type} (lib : PmLogLib W Ctx).

Lemma lookup_last_arg (pre : list string) (last : string) :
  (pre ++ [last]) !! Z.to_nat (Z.of_nat (length pre)) = Some last.
Proof. rewrite Nat2Z.id. apply list_lookup_middle. reflexivity. Qed.

(** The command, turn by turn: context, level, message ID, the pairs, and
    the last argument as the message. *)
Lemma DoCmdLogKV_unrolled (cmd cname lvl third : string) (mid : list string)
    (last : string) flag (w : W) :
  DoCmdLogKV lib (cmd :: cname :: lvl :: third :: mid ++ [last]) flag w =
    let argv := cmd :: cname :: lvl :: third :: mid ++ [last] in
    let '(logErr, c) := PmLogFindContext lib (PrvResolveContextNameAlias lib cname) w in
    if negb (is_kPmLogErr_None logErr)
    then
      Done RESULT_PARAM_ERR
        (printed flag stderr ("Invalid context '%s'." ++ LF) [ArgS cname]) w
    else
      match PmLogStringToLevel lib lvl with
      | None =>
          Done RESULT_PARAM_ERR
            (printed flag stderr ("Invalid level '%s'." ++ LF) [ArgS lvl]) w
      | Some v =>
          if v =? -1
          then
            Done RESULT_PARAM_ERR
              (printed flag stderr ("Invalid level '%s'." ++ LF) [ArgS lvl]) w
          else if v =? kPmLogLevel_Debug lib
          then
            Done RESULT_PARAM_ERR
              (printed flag stderr ("Invalid parameter '%s'." ++ LF)
                 [ArgS_opt (argv !! 4%nat)]) w
          else
            match DoCmdLogKV_pairs (length argv) argv 4 (argv !! 4%nat) 0 false
                    kvPair_zero flag w with
            | Done (inl result) tr w1 => Done result tr w1
            | Done (inr (_, _, kvPair')) tr w1 =>
                match buf_write kvPair' (Z.to_nat (sizeof_kvPair - 1)) [NUL] with
                | Some kvPair'' =>
                    after tr
                      (DoCmdLogKV_emit lib flag c v (Some third) kvPair'' (Some last) w1)
                | None => Undefined
                end
            | Undefined => Undefined
            | Fuel => Fuel
            end
      end.
Proof.
  set (argv := cmd :: cname :: lvl :: third :: mid ++ [last]).
  assert (Hargc : Z.of_nat (length argv) = Z.of_nat (length mid) + 5).
  { subst argv. cbn [length]. rewrite length_app. cbn [length]. lia. }
  cbv zeta. unfold DoCmdLogKV.
  destruct (Z.of_nat (length argv) <? 4) eqn:E4; [apply Z.ltb_lt in E4; lia|].
  assert (Hfuel : S (length argv) = (6 + length mid)%nat) by lia.
  rewrite Hfuel. cbn [Nat.add]. unfold bind at 1.
  rewrite (DoCmdLogKV_args_context lib _ argv 1 cname) by (lia || reflexivity).
  destruct (PmLogFindContext lib (PrvResolveContextNameAlias lib cname) w) as [e c].
  destruct (is_kPmLogErr_None e); cbn [negb];
    [|rewrite ret_run; now rewrite app_nil_r].
  rewrite (DoCmdLogKV_args_level lib _ argv (1 + 1) lvl) by (lia || reflexivity).
  destruct (PmLogStringToLevel lib lvl) as [v|];
    [|rewrite ret_run; now rewrite app_nil_r].
  destruct (v =? -1); [rewrite ret_run; now rewrite app_nil_r|].
  destruct (v =? kPmLogLevel_Debug lib) eqn:Hd.
  - rewrite (DoCmdLogKV_args_msg lib _ argv (1 + 1 + 1)) by (lia || now rewrite Hd).
    change (argv !! Z.to_nat (1 + 1 + 1)) with (Some third).
    rewrite (DoCmdLogKV_args_extra lib _ argv (1 + 1 + 1 + 1))
      by (lia || now rewrite Hd).
    rewrite ret_run. now rewrite app_nil_r.
  - rewrite (DoCmdLogKV_args_msgID lib _ argv (1 + 1 + 1)) by (lia || exact Hd).
    change (1 + 1 + 1 + 1) with 4. change (Z.to_nat (1 + 1 + 1)) with 3%nat.
    change (argv !! 3%nat) with (Some third).
    change kvPair_zero with (NUL :: replicate 1023 NUL).
    rewrite (DoCmdLogKV_args_pairs lib _ argv 4) by (lia || exact Hd).
    change (NUL :: replicate 1023 NUL) with kvPair_zero.
    change (Z.to_nat 4) with 4%nat.
    pose proof (DoCmdLogKV_pairs_last (Ctx := Ctx)
                  (cmd :: cname :: lvl :: third :: mid) last last
                  flag (length argv) 4 0 false kvPair_zero w) as Hexit.
    change ((cmd :: cname :: lvl :: third :: mid) ++ [last]) with argv in Hexit.
    change (Z.to_nat 4) with 4%nat in Hexit.
    destruct (DoCmdLogKV_pairs (length argv) argv 4 (argv !! 4%nat) 0 false
                kvPair_zero flag w) as [[r|[[p' a'] kv']] tr w1| |];
      [| |reflexivity..].
    + rewrite ret_run. now rewrite app_nil_r.
    + cbn [same_exit] in Hexit.
      destruct Hexit as (-> & _); [cbn [length]; lia|].
      destruct (buf_write kv' (Z.to_nat (sizeof_kvPair - 1)) [NUL]) as [kv''|];
        [|reflexivity].
      rewrite (DoCmdLogKV_args_msg lib _ argv) by (cbn [length] in *; lia || reflexivity).
      rewrite (lookup_last_arg (cmd :: cname :: lvl :: third :: mid) last
               : argv !! Z.to_nat (Z.of_nat (length (cmd :: cname :: lvl :: third :: mid)))
                 = Some last).
      rewrite DoCmdLogKV_args_exit by (cbn [kv_paramIndex length] in *; lia).
      cbn [after app kv_contextName kv_levelIntP kv_msgID kv_kvPair kv_msg kv_context].
      rewrite Hd. cbn [andb negb]. unfold DoCmdLogKV_emit.
      destruct (buf_cstr kv'') as [s|]; cbn [lift_opt];
        [|rewrite bind_bind, bind_undefined; reflexivity].
      rewrite bind_bind, bind_ret, bind_ret, bind_call.
      destruct (PmLogString lib c v (Some third) (Some s) (Some last) w1) as [e' w2].
      cbn [fst snd after_PmLogString]. rewrite after_after.
      destruct (is_kPmLogErr_None e'); cbn [negb].
      all: rewrite ?bind_ErrPrint, ret_run; cbn [after err_args];
        now rewrite ?app_nil_r, ?app_assoc.
Qed.

End LogKVRun.

(** ** The inner loop on tokens it takes in whole *)

Section PairsEncode.
Context {W Ctx : Type}.

Lemma kv_entry_length (key value : string) :
  strlen (kv_entry key value) = strlen key + 2 + 1 + strlen value.
Proof.
  unfold strlen, kv_entry. cbn [String.length].
  rewrite string_length_app. cbn [String.length]. lia.
Qed.

Lemma kv_entry_cstring (key value : string) :
  cstring key -> cstring value -> cstring (kv_entry key value).
Proof.
  intros Hk Hv. unfold kv_entry. apply nul_free_cons. split; [discriminate|].
  apply cstring_app; [exact Hk|].
  apply nul_free_cons. split; [discriminate|].
  apply nul_free_cons. split; [discriminate|exact Hv].
Qed.

Lemma open_acc_length (acc : string) : (1 <= String.length (open_acc acc))%nat.
Proof. destruct acc; simpl; lia. Qed.

Lemma open_acc_nonempty (acc : string) :
  (1 <= String.length acc)%nat -> open_acc acc = acc.
Proof. destruct acc; simpl; [lia|reflexivity]. Qed.

(** One turn of the loop on a token it takes in whole, with room in the
    buffer: the entry is appended, followed by the closing brace behind
    the last pair and by a comma otherwise. *)
Lemma DoCmdLogKV_pairs_turn (fuel : nat) (argv : list string) (p index : Z)
    (t : string) (result : bool) (kvPair : list ascii) (acc : string) flag (w : W) :
  0 <= p < Z.of_nat (length argv) - 1 ->
  encodable t = true ->
  kv_holds kvPair acc ->
  index = strlen acc ->
  (String.length (open_acc acc) + String.length (EncodeKV_entry t) + 1 < 1024)%nat ->
  exists kvPair',
    kv_holds kvPair'
      (open_acc acc ++ EncodeKV_entry t
       ++ (if (p =? Z.of_nat (length argv) - 2)%Z then "}" else ","))%string /\
    DoCmdLogKV_pairs (Ctx := Ctx) (S fuel) argv p (Some t) index result kvPair flag w =
      DoCmdLogKV_pairs fuel argv (p + 1) (argv !! Z.to_nat (p + 1))
        (if p =? Z.of_nat (length argv) - 2
         then strlen (open_acc acc)
         else strlen (open_acc acc ++ EncodeKV_entry t ++ ","))
        true kvPair' flag w.
Proof.
  intros Hp Henc Hb Hindex Hfit.
  destruct (sscanf_kv_encodable t Henc) as (key & value & Hsplit & Hscan & Hk & Hv).
  assert (Hentry : EncodeKV_entry t = kv_entry key value)
    by (unfold EncodeKV_entry; now rewrite Hsplit).
  rewrite Hentry in *.
  pose proof (kv_entry_cstring key value Hk Hv) as Hec.
  pose proof (open_acc_length acc) as Hopen.
  (* the opening brace *)
  assert (Hopened : exists kvPair1,
             kv_holds kvPair1 (open_acc acc) /\
             (if index =? 0
              then do b <- lift_opt (buf_strncat kvPair "{" 1);
                   ret (W := W) (Ctx := Ctx) (b, index + 1)
              else ret (kvPair, index)) flag w
             = Done (kvPair1, strlen (open_acc acc)) [] w).
  { destruct acc as [|a acc].
    - subst index. change (strlen EmptyString =? 0) with true. cbv iota.
      destruct (kv_holds_strncat kvPair EmptyString "{" Hb) as (b1 & Hcat & Hb1);
        [discriminate|simpl; lia|].
      exists b1. split; [exact Hb1|]. rewrite Hcat. reflexivity.
    - exists kvPair. split; [exact Hb|]. subst index.
      destruct (strlen (String a acc) =? 0) eqn:E; [|reflexivity].
      apply Z.eqb_eq in E. unfold strlen in E. simpl in E. lia. }
  destruct Hopened as (kvPair1 & Hb1 & Hopened).
  destruct (kv_holds_snprintf kvPair1 (open_acc acc) (kv_entry key value) Hb1 Hec)
    as (b2 & Hprint & Hb2); [lia|].
  assert (Hlen2 : (String.length (open_acc acc ++ kv_entry key value) + 1 < 1024)%nat)
    by (rewrite string_length_app; lia).
  assert (Hint : strlen (open_acc acc) + (strlen key + 2 + 1 + strlen value + 1)
                 <= INT_MAX).
  { rewrite <- kv_entry_length. unfold strlen, INT_MAX. lia. }
  assert (Hint' : strlen key + 2 + 1 + strlen value <= INT_MAX) by
    (unfold strlen in *; lia).
  set (closing := if p =? Z.of_nat (length argv) - 2 then "}"%string else ","%string).
  assert (Hclose : exists c, closing = String c EmptyString /\ c <> NUL).
  { subst closing. destruct (p =? Z.of_nat (length argv) - 2);
      eexists; (split; [reflexivity|discriminate]). }
  destruct Hclose as (c & Hclosing & Hc).
  destruct (kv_holds_strncat b2 _ c Hb2 Hc Hlen2) as (b3 & Hcat & Hb3).
  exists b3. split.
  { rewrite Hclosing. now rewrite string_app_assoc in Hb3. }
  cbn [DoCmdLogKV_pairs].
  destruct (p <? Z.of_nat (length argv)) eqn:E1; [|apply Z.ltb_ge in E1; lia].
  destruct (p =? Z.of_nat (length argv) - 1) eqn:E2; [apply Z.eqb_eq in E2; lia|].
  cbn [negb]. unfold bind at 1. rewrite Hopened. rewrite Hscan.
  change (2 >? 2) with false. cbv iota. cbn [lift_opt].
  rewrite bind_bind, bind_ret, bind_bind, bind_ret, bind_bind, Hprint.
  cbn [lift_opt]. rewrite bind_ret.
  subst closing.
  destruct (p =? Z.of_nat (length argv) - 2) eqn:E3.
  - injection Hclosing as <-. rewrite bind_bind, Hcat. cbn [lift_opt].
    rewrite bind_ret. apply Z.leb_le in Hint'. rewrite Hint', bind_ret. cbn [negb].
    destruct (DoCmdLogKV_pairs fuel argv (p + 1) _ _ true b3 flag w); reflexivity.
  - injection Hclosing as <-. rewrite bind_bind, Hcat. cbn [lift_opt].
    rewrite bind_ret. apply Z.leb_le in Hint. rewrite Hint, bind_ret. cbn [negb].
    rewrite <- kv_entry_length.
    assert (Hidx : strlen (open_acc acc) + (strlen (kv_entry key value) + 1)
                   = strlen (open_acc acc ++ kv_entry key value ++ ",")).
    { unfold strlen. rewrite !string_length_app. simpl. lia. }
    rewrite Hidx.
    destruct (DoCmdLogKV_pairs fuel argv (p + 1) _ _ true b3 flag w); reflexivity.
Qed.

(** The loop over tokens it takes in whole, with room in the buffer for
    the whole payload: it leaves the loop at the last argument with the
    payload in the buffer. *)
Lemma DoCmdLogKV_pairs_encodes (msg : string) flag (w : W) :
  forall (tokens front : list string) (t : string) (fuel : nat) (index : Z)
         (result : bool) (kvPair : list ascii) (acc : string),
    (4 <= length front)%nat ->
    Forall (fun t => encodable t = true) (t :: tokens) ->
    kv_holds kvPair acc ->
    index = strlen acc ->
    (String.length
       (open_acc acc ++ String.concat "," (map EncodeKV_entry (t :: tokens)) ++ "}")
     < 1024)%nat ->
    (length tokens + 2 <= fuel)%nat ->
    exists kvPair' a',
      kv_holds kvPair'
        (open_acc acc ++ String.concat "," (map EncodeKV_entry (t :: tokens)) ++ "}") /\
      DoCmdLogKV_pairs (Ctx := Ctx) fuel (front ++ (t :: tokens) ++ [msg])
        (Z.of_nat (length front)) (Some t) index result kvPair flag w
      = Done (inr (Z.of_nat (length (front ++ (t :: tokens) ++ [msg])) - 1, a', kvPair'))
          [] w.
Proof.
  induction tokens as [|t' tokens IH];
    intros front t fuel index result kvPair acc Hfront Henc Hb Hindex Hfit Hfuel.
  - destruct fuel as [|[|fuel]]; [cbn [length] in Hfuel; lia..|].
    apply Forall_cons in Henc as [Ht _].
    cbn [map String.concat] in Hfit |- *.
    rewrite !string_length_app in Hfit. cbn [String.length] in Hfit.
    set (argv := front ++ [t] ++ [msg]).
    assert (Hargc : Z.of_nat (length argv) = Z.of_nat (length front) + 2).
    { subst argv. rewrite !length_app. cbn [length]. lia. }
    destruct (DoCmdLogKV_pairs_turn (S fuel) argv (Z.of_nat (length front)) index t
                result kvPair acc flag w) as (kv' & Hkv' & Hturn);
      [lia|exact Ht|exact Hb|exact Hindex|lia|].
    replace (Z.of_nat (length front) =? Z.of_nat (length argv) - 2) with true
      in Hkv', Hturn by (symmetry; apply Z.eqb_eq; lia).
    exists kv', (argv !! Z.to_nat (Z.of_nat (length front) + 1)).
    split; [exact Hkv'|]. rewrite Hturn. cbn [DoCmdLogKV_pairs].
    destruct (Z.of_nat (length front) + 1 <? Z.of_nat (length argv)) eqn:E1;
      [|apply Z.ltb_ge in E1; lia].
    destruct (Z.of_nat (length front) + 1 =? Z.of_nat (length argv) - 1) eqn:E2;
      [|apply Z.eqb_neq in E2; lia].
    destruct (Z.of_nat (length front) + 1 =? 4) eqn:E3; [apply Z.eqb_eq in E3; lia|].
    cbn [negb]. rewrite ret_run.
    replace (Z.of_nat (length argv) - 1) with (Z.of_nat (length front) + 1) by lia.
    reflexivity.
  - destruct fuel as [|fuel]; [cbn [length] in Hfuel; lia|].
    apply Forall_cons in Henc as [Ht Henc].
    set (argv := front ++ (t :: t' :: tokens) ++ [msg]).
    assert (Hargc : Z.of_nat (length argv)
                    = Z.of_nat (length front) + Z.of_nat (length tokens) + 3).
    { subst argv. rewrite !length_app. cbn [length]. rewrite ?length_app.
      cbn [length]. lia. }
    change (String.concat "," (map EncodeKV_entry (t :: t' :: tokens)))
      with (EncodeKV_entry t ++ "," ++
            String.concat "," (map EncodeKV_entry (t' :: tokens)))%string in *.
    pose proof (open_acc_length acc) as Hopen.
    assert (Hfit' := Hfit). rewrite !string_length_app in Hfit'.
    cbn [String.length] in Hfit'.
    destruct (DoCmdLogKV_pairs_turn fuel argv (Z.of_nat (length front)) index t
                result kvPair acc flag w) as (kv' & Hkv' & Hturn);
      [lia|exact Ht|exact Hb|exact Hindex|lia|].
    replace (Z.of_nat (length front) =? Z.of_nat (length argv) - 2) with false
      in Hkv', Hturn by (symmetry; apply Z.eqb_neq; lia).
    assert (Hnext : argv !! Z.to_nat (Z.of_nat (length front) + 1) = Some t').
    { subst argv. replace (Z.to_nat (Z.of_nat (length front) + 1))
        with (length front + 1)%nat by lia.
      rewrite lookup_app_r by lia.
      replace (length front + 1 - length front)%nat with 1%nat by lia. reflexivity. }
    rewrite Hturn, Hnext.
    set (acc' := (open_acc acc ++ EncodeKV_entry t ++ ",")%string) in *.
    assert (Hacc' : open_acc acc' = acc').
    { apply open_acc_nonempty. subst acc'. rewrite string_length_app. lia. }
    assert (Hstr : (open_acc acc ++ EncodeKV_entry t ++ "," ++
                    String.concat "," (map EncodeKV_entry (t' :: tokens)) ++ "}")%string
                   = (open_acc acc' ++
                      String.concat "," (map EncodeKV_entry (t' :: tokens)) ++ "}")%string).
    { rewrite Hacc'. subst acc'. now rewrite !string_app_assoc. }
    assert (Hstr' : ((open_acc acc ++ (EncodeKV_entry t ++ "," ++
                    String.concat "," (map EncodeKV_entry (t' :: tokens))) ++ "}")%string
                   = (open_acc acc' ++
                      String.concat "," (map EncodeKV_entry (t' :: tokens)) ++ "}")%string)).
    { rewrite <- Hstr. now rewrite !string_app_assoc. }
    rewrite Hstr' in *.
    destruct (IH (front ++ [t]) t' fuel (strlen acc') true kv' acc')
      as (kv'' & a'' & Hkv'' & Hrun);
      [rewrite length_app; cbn [length]; lia|exact Henc|exact Hkv'|reflexivity
      |exact Hfit|cbn [length] in Hfuel; lia|].
    exists kv'', a''. split; [exact Hkv''|].
    replace (Z.of_nat (length front) + 1) with (Z.of_nat (length (front ++ [t])))
      by (rewrite length_app; cbn [length]; lia).
    replace argv with ((front ++ [t]) ++ (t' :: tokens) ++ [msg])
      by (subst argv; now rewrite <- app_assoc).
    exact Hrun.
Qed.

End PairsEncode.

(** ** The events of the inner loop *)

Section PrintsOnly.
Context {W Ctx : Type}.

Lemma prints_only_ret {A} (a : A) : prints_only (ret (W := W) (Ctx := Ctx) a).
Proof. intros flag w. cbn. auto. Qed.

Lemma prints_only_lift_opt {A} (o : option A) :
  prints_only (lift_opt (W := W) (Ctx := Ctx) o).
Proof. destruct o; intros flag w; cbn; auto. Qed.

Lemma prints_only_undefined {A} :
  prints_only (undefined (W := W) (Ctx := Ctx) (A := A)).
Proof. intros flag w. exact I. Qed.

Lemma prints_only_out_of_fuel {A} :
  prints_only (out_of_fuel (W := W) (Ctx := Ctx) (A := A)).
Proof. intros flag w. exact I. Qed.

Lemma prints_only_ErrPrint fmt args :
  prints_only (ErrPrint (W := W) (Ctx := Ctx) fmt args).
Proof. intros [|] w; cbn; auto. Qed.

Lemma prints_only_bind {A B} (m : M W Ctx A) (k : A -> M W Ctx B) :
  prints_only m -> (forall a, prints_only (k a)) -> prints_only (bind m k).
Proof.
  intros Hm Hk flag w. unfold bind. specialize (Hm flag w).
  destruct (m flag w) as [a tr w1| |]; [|exact I..].
  destruct Hm as [Htr ->]. specialize (Hk a flag w).
  destruct (k a flag w) as [b tr' w2| |]; [|exact I..].
  destruct Hk as [Htr' ->]. split; [|reflexivity]. now apply Forall_app.
Qed.

Lemma printed_is_Print flag f fmt args :
  Forall (fun e : Event Ctx => is_Print e = true) (printed flag f fmt args).
Proof. destruct flag; cbn; auto. Qed.

Lemma not_in_prints (e : Event Ctx) (tr : list (Event Ctx)) :
  is_Print e = false -> Forall (fun e => is_Print e = true) tr -> ~ In e tr.
Proof.
  intros He Htr Hin. rewrite List.Forall_forall in Htr.
  specialize (Htr e Hin). congruence.
Qed.

End PrintsOnly.

Create HintDb prints.

#[local] Hint Resolve prints_only_ret prints_only_lift_opt prints_only_undefined
  prints_only_out_of_fuel prints_only_ErrPrint : prints.

Ltac prints_step :=
  match goal with
  | |- prints_only _ => solve [auto with prints]
  | |- prints_only (bind _ _) => apply prints_only_bind; [|intros]
  | |- prints_only (if ?b then _ else _) => destruct b
  | |- prints_only (match ?x with _ => _ end) => destruct x
  end.

Section PairsPrints.
Context {W Ctx : Type}.

(** The inner loop of [DoCmdLogKV] calls nothing but [ErrPrint]. *)
Lemma DoCmdLogKV_pairs_prints_only fuel argv :
  forall p arg index result kvPair,
    prints_only
      (DoCmdLogKV_pairs (W := W) (Ctx := Ctx) fuel argv p arg index result kvPair).
Proof.
  induction fuel as [|fuel IH]; intros p arg index result kvPair;
    cbn [DoCmdLogKV_pairs]; repeat prints_step.
Qed.

End PairsPrints.

(** ** The key/value encoder and the trailing message *)

Section LogKVTheorems.
Context {W Ctx : Type} (lib : PmLogLib W Ctx).

(** C2, as amended: for every sequence, empty or not, of tokens the encoder
    takes in whole (C strings [key=value] with a key before the first
    equals sign and a value behind it that is not empty and has no tab and
    no newline) that is followed by the message argument and whose payload
    fits the buffer with its terminator (at most 1023 characters),
    [DoCmdLogKV], called for a context that exists and a level other than
    none and debug, hands [PmLogString] exactly the reference payload: an
    opening brace, the entries ["key":value] in token order separated by
    commas, each split at the first equals sign with the key quoted
    and the value as it is, and a closing brace.  Other tokens and longer
    payloads are outside this statement. *)
Theorem DoCmdLogKV_encodes (cmd cname lvl msgID : string) (tokens : list string)
    (msg : string) (v : Z) (c : option Ctx) flag (w : W) :
  PmLogFindContext lib (PrvResolveContextNameAlias lib cname) w = (kPmLogErr_None, c) ->
  PmLogStringToLevel lib lvl = Some v ->
  v <> -1 ->
  v <> kPmLogLevel_Debug lib ->
  Forall (fun t => encodable t = true) tokens ->
  (String.length (EncodeKV_ref tokens) < 1024)%nat ->
  DoCmdLogKV lib (cmd :: cname :: lvl :: msgID :: tokens ++ [msg]) flag w =
    after
      [Call_PmLogString c v (Some msgID) (Some (EncodeKV_ref tokens)) (Some msg)]
      (after_PmLogString lib flag
         (PmLogString lib c v (Some msgID) (Some (EncodeKV_ref tokens)) (Some msg) w)).
Proof.
  intros Hfind Hlvl Hv1 Hvd Henc Hfit.
  rewrite DoCmdLogKV_unrolled. cbv zeta. rewrite Hfind. cbn [is_kPmLogErr_None negb].
  rewrite Hlvl.
  destruct (v =? -1) eqn:E1; [apply Z.eqb_eq in E1; contradiction|].
  destruct (v =? kPmLogLevel_Debug lib) eqn:E2; [apply Z.eqb_eq in E2; contradiction|].
  assert (Hpairs : exists kvPair' p' a',
             kv_holds kvPair' (EncodeKV_ref tokens) /\
             DoCmdLogKV_pairs (Ctx := Ctx)
               (length (cmd :: cname :: lvl :: msgID :: tokens ++ [msg]))
               (cmd :: cname :: lvl :: msgID :: tokens ++ [msg]) 4
               ((cmd :: cname :: lvl :: msgID :: tokens ++ [msg]) !! 4%nat) 0 false
               kvPair_zero flag w
             = Done (inr (p', a', kvPair')) [] w).
  { destruct tokens as [|t tokens].
    - destruct (kv_holds_empty_object kvPair_zero kv_holds_zero) as (b' & Hw & Hb').
      exists b', 4, (Some msg). split; [exact Hb'|].
      cbn [app length DoCmdLogKV_pairs]. change (4 <? Z.of_nat 5) with true.
      change (4 =? Z.of_nat 5 - 1) with true. change (4 =? 4) with true.
      cbn [negb]. rewrite Hw. reflexivity.
    - destruct (DoCmdLogKV_pairs_encodes (Ctx := Ctx) msg flag w tokens
                  [cmd; cname; lvl; msgID] t
                  (length (cmd :: cname :: lvl :: msgID :: (t :: tokens) ++ [msg]))
                  0 false kvPair_zero EmptyString)
        as (kv' & a' & Hkv' & Hrun);
        [cbn [length]; lia|exact Henc|exact kv_holds_zero|reflexivity|exact Hfit| |].
      + cbn [length]. rewrite length_app. cbn [length]. lia.
      + eexists kv', _, a'. split; [exact Hkv'|]. exact Hrun. }
  destruct Hpairs as (kv' & p' & a' & Hkv' & ->).
  destruct (kv_holds_terminate kv' _ Hkv') as (kv'' & -> & Hkv'').
  unfold DoCmdLogKV_emit. rewrite (kv_holds_cstr kv'' _ Hkv''). now rewrite after_nil.
Qed.

(** C10: when [DoCmdLogKV] is given at least one argument behind the
    message ID and calls [PmLogString], the message it passes is the last
    argument, whatever its form, the message ID is the third argument, and
    the payload does not depend on the last argument: with any other last
    argument the same call is made with that argument as the message. *)
Theorem DoCmdLogKV_last_is_message (cmd cname lvl third : string) (mid : list string)
    (last : string) flag (w : W) r tr w' c level msgID kv msg :
  DoCmdLogKV lib (cmd :: cname :: lvl :: third :: mid ++ [last]) flag w = Done r tr w' ->
  In (Call_PmLogString c level msgID kv msg) tr ->
  msg = Some last /\
  msgID = Some third /\
  forall last',
    exists r' tr' w'',
      DoCmdLogKV lib (cmd :: cname :: lvl :: third :: mid ++ [last']) flag w
        = Done r' tr' w'' /\
      In (Call_PmLogString c level msgID kv (Some last')) tr'.
Proof.
  intros Hrun Hin.
  assert (Hno : forall f fmt args,
             ~ In (Call_PmLogString c level msgID kv msg) (printed flag f fmt args)).
  { intros f fmt args. apply not_in_prints; [reflexivity|apply printed_is_Print]. }
  rewrite DoCmdLogKV_unrolled in Hrun. cbv zeta in Hrun.
  assert (Hother : forall last',
             DoCmdLogKV lib (cmd :: cname :: lvl :: third :: mid ++ [last']) flag w = _)
    by (intros last'; apply DoCmdLogKV_unrolled).
  cbv zeta in Hother.
  destruct (PmLogFindContext lib (PrvResolveContextNameAlias lib cname) w) as [e c0].
  destruct (is_kPmLogErr_None e); cbn [negb] in Hrun, Hother;
    [|injection Hrun as <- <- <-; now apply Hno in Hin].
  destruct (PmLogStringToLevel lib lvl) as [v|];
    [|injection Hrun as <- <- <-; now apply Hno in Hin].
  destruct (v =? -1); [injection Hrun as <- <- <-; now apply Hno in Hin|].
  destruct (v =? kPmLogLevel_Debug lib);
    [injection Hrun as <- <- <-; now apply Hno in Hin|].
  assert (Hlen : forall x, length (cmd :: cname :: lvl :: third :: mid ++ [x])
                           = S (S (S (S (S (length mid)))))).
  { intros x. cbn [length]. rewrite length_app. cbn [length]. lia. }
  rewrite Hlen in Hrun.
  pose proof (DoCmdLogKV_pairs_prints_only (W := W) (Ctx := Ctx)
                (S (S (S (S (S (length mid))))))
                (cmd :: cname :: lvl :: third :: mid ++ [last]) 4
                ((cmd :: cname :: lvl :: third :: mid ++ [last]) !! 4%nat) 0 false
                kvPair_zero flag w) as Hprints.
  assert (Hsame : forall last',
             same_exit (Z.of_nat (length (cmd :: cname :: lvl :: third :: mid)))
               (DoCmdLogKV_pairs (Ctx := Ctx) (S (S (S (S (S (length mid))))))
                  (cmd :: cname :: lvl :: third :: mid ++ [last]) 4
                  ((cmd :: cname :: lvl :: third :: mid ++ [last]) !! 4%nat) 0 false
                  kvPair_zero flag w)
               (DoCmdLogKV_pairs (S (S (S (S (S (length mid))))))
                  (cmd :: cname :: lvl :: third :: mid ++ [last']) 4
                  ((cmd :: cname :: lvl :: third :: mid ++ [last']) !! 4%nat) 0 false
                  kvPair_zero flag w)).
  { intros last'.
    apply (DoCmdLogKV_pairs_last (Ctx := Ctx) (cmd :: cname :: lvl :: third :: mid)
             last last' flag (S (S (S (S (S (length mid)))))) 4 0 false kvPair_zero w).
    cbn [length]. lia. }
  destruct (DoCmdLogKV_pairs (S (S (S (S (S (length mid))))))
              (cmd :: cname :: lvl :: third :: mid ++ [last]) 4
              ((cmd :: cname :: lvl :: third :: mid ++ [last]) !! 4%nat) 0 false
              kvPair_zero flag w) as [[r1|[[p1 a1] kv1]] tr1 w1| |];
    [| |discriminate..].
  - injection Hrun as <- <- <-. destruct Hprints as [Hpr _].
    exfalso. revert Hin. now apply not_in_prints.
  - destruct Hprints as [Hpr _].
    destruct (buf_write kv1 (Z.to_nat (sizeof_kvPair - 1)) [NUL]) as [kv''|] eqn:Hterm;
      [|discriminate].
    unfold DoCmdLogKV_emit in Hrun, Hother.
    destruct (buf_cstr kv'') as [s|] eqn:Hcstr; [|discriminate].
    destruct (PmLogString lib c0 v (Some third) (Some s) (Some last) w1)
      as [e1 w2] eqn:Hlog.
    assert (Hcall : Call_PmLogString c level msgID kv msg
                    = Call_PmLogString c0 v (Some third) (Some s) (Some last)).
    { unfold after_PmLogString in Hrun.
      destruct (is_kPmLogErr_None e1); cbn [after] in Hrun;
        injection Hrun as <- <- <-;
        rewrite ?app_nil_r in Hin;
        repeat (apply in_app_or in Hin as [Hin|Hin]);
        try (exfalso; revert Hin; apply not_in_prints;
             [reflexivity|first [exact Hpr|apply printed_is_Print]]).
      all: destruct Hin as [Hin|Hin]; [now symmetry|].
      all: exfalso; revert Hin; apply not_in_prints;
        [reflexivity|first [apply printed_is_Print|constructor]]. }
    injection Hcall as -> -> -> -> ->.
    split; [reflexivity|]. split; [reflexivity|].
    intros last'. rewrite (Hother last'), Hlen. specialize (Hsame last').
    destruct (DoCmdLogKV_pairs (S (S (S (S (S (length mid))))))
                (cmd :: cname :: lvl :: third :: mid ++ [last']) 4
                ((cmd :: cname :: lvl :: third :: mid ++ [last']) !! 4%nat) 0 false
                kvPair_zero flag w) as [[r2|[[p2 a2] kv2]] tr2 w2'| |];
      cbn [same_exit] in Hsame; try contradiction.
    destruct Hsame as (_ & _ & <- & <- & <-).
    rewrite Hterm, Hcstr.
    destruct (after_PmLogString lib flag
                (PmLogString lib c0 v (Some third) (Some s) (Some last') w1))
      as [r' tr' w''| |] eqn:Hafter.
    + cbn [after]. eexists _, _, _. split; [reflexivity|].
      apply in_or_app. right. left. reflexivity.
    + unfold after_PmLogString in Hafter.
      destruct (PmLogString lib c0 v (Some third) (Some s) (Some last') w1) as [e2 w3].
      destruct (is_kPmLogErr_None e2); discriminate.
    + unfold after_PmLogString in Hafter.
      destruct (PmLogString lib c0 v (Some third) (Some s) (Some last') w1) as [e2 w3].
      destruct (is_kPmLogErr_None e2); discriminate.
Qed.

End LogKVTheorems.

Section LogKVWitnesses.

Lemma DoCmdLogKV_encodes_witness :
  DoCmdLogKV (Toy.lib 8)
    ("logkv" :: "ui" :: "info" :: "ID" :: ["a=1"; "b=2"] ++ ["hello"])%string
    false Toy.scenario =
    after
      [Call_PmLogString (Some 3%nat) 6 (Some "ID"%string)
         (Some (EncodeKV_ref ["a=1"; "b=2"]%string)) (Some "hello"%string)]
      (after_PmLogString (Toy.lib 8) false
         (PmLogString (Toy.lib 8) (Some 3%nat) 6 (Some "ID"%string)
            (Some (EncodeKV_ref ["a=1"; "b=2"]%string)) (Some "hello"%string)
            Toy.scenario)).
Proof.
  apply (DoCmdLogKV_encodes (Toy.lib 8) "logkv" "ui" "info" "ID"
           ["a=1"; "b=2"]%string "hello" 6 (Some 3%nat) false Toy.scenario).
  - reflexivity.
  - reflexivity.
  - discriminate.
  - vm_compute. discriminate.
  - repeat constructor.
  - vm_compute. lia.
Defined.

Lemma DoCmdLogKV_last_is_message_witness :
  DoCmdLogKV (Toy.lib 8)
    ("logkv" :: "ui" :: "info" :: "ID" :: ["a=1"] ++ ["k=v"])%string
    false Toy.scenario =
    Done RESULT_OK
      [Call_PmLogString (Some 3%nat) 6 (Some "ID"%string)
         (Some (EncodeKV_ref ["a=1"]%string)) (Some "k=v"%string)]
      Toy.scenario /\
  (Some "k=v"%string = Some "k=v"%string /\
   Some "ID"%string = Some "ID"%string /\
   forall last',
     exists r' tr' w'',
       DoCmdLogKV (Toy.lib 8)
         ("logkv" :: "ui" :: "info" :: "ID" :: ["a=1"] ++ [last'])%string
         false Toy.scenario = Done r' tr' w'' /\
       In (Call_PmLogString (Some 3%nat) 6 (Some "ID"%string)
             (Some (EncodeKV_ref ["a=1"]%string)) (Some last')) tr').
Proof.
  split; [vm_compute; reflexivity|].
  apply (DoCmdLogKV_last_is_message (Toy.lib 8) "logkv" "ui" "info" "ID"
           ["a=1"]%string "k=v" false Toy.scenario RESULT_OK
           [Call_PmLogString (Some 3%nat) 6 (Some "ID"%string)
              (Some (EncodeKV_ref ["a=1"]%string)) (Some "k=v"%string)]
           Toy.scenario).
  - vm_compute. reflexivity.
  - left. reflexivity.
Defined.

End LogKVWitnesses.

(** ** The loops of [DoCmdLogKV] end within their fuel *)

Section Ensures.
Context {W Ctx : Type}.

Lemma ensures_ret {A} (P : A -> Prop) (a : A) :
  P a -> ensures P (ret (W := W) (Ctx := Ctx) a).
Proof. intros H flag w. exact H. Qed.

Lemma ensures_lift_opt {A} (P : A -> Prop) (o : option A) :
  (forall a, o = Some a -> P a) -> ensures P (lift_opt (W := W) (Ctx := Ctx) o).
Proof. intros H flag w. destruct o; cbn; auto. Qed.

Lemma ensures_undefined {A} (P : A -> Prop) :
  ensures P (undefined (W := W) (Ctx := Ctx) (A := A)).
Proof. intros flag w. exact I. Qed.

Lemma ensures_read {A} (P : A -> Prop) (f : W -> A) :
  (forall w, P (f w)) -> ensures P (read (Ctx := Ctx) f).
Proof. intros H flag w. apply H. Qed.

Lemma ensures_call {A} (P : A -> Prop) (ev : Event Ctx) (f : W -> A * W) :
  (forall w, P (fst (f w))) -> ensures P (call ev f).
Proof. intros H flag w. unfold call. specialize (H w). now destruct (f w). Qed.

Lemma ensures_ErrPrint (P : unit -> Prop) fmt args :
  P tt -> ensures P (ErrPrint (W := W) (Ctx := Ctx) fmt args).
Proof. intros H [|] w; exact H. Qed.

Lemma ensures_bind {A B} (P : A -> Prop) (Q : B -> Prop)
    (m : M W Ctx A) (k : A -> M W Ctx B) :
  ensures P m -> (forall a, P a -> ensures Q (k a)) -> ensures Q (bind m k).
Proof.
  intros Hm Hk flag w. unfold bind. specialize (Hm flag w).
  destruct (m flag w) as [a tr w1| |]; [|exact I|exact Hm].
  specialize (Hk a Hm flag w1). now destruct (k a flag w1).
Qed.

Lemma ensures_weaken {A} (P Q : A -> Prop) (c : M W Ctx A) :
  (forall a, P a -> Q a) -> ensures P c -> ensures Q c.
Proof.
  intros HPQ Hc flag w. specialize (Hc flag w).
  destruct (c flag w); auto.
Qed.

End Ensures.

Ltac ensures_step :=
  match goal with
  | |- ensures _ (ret _) => apply ensures_ret
  | |- ensures _ (lift_opt _) => apply ensures_lift_opt; intros
  | |- ensures _ undefined => apply ensures_undefined
  | |- ensures _ (ErrPrint _ _) => apply ensures_ErrPrint
  | |- ensures _ (read _) => apply ensures_read; intros
  | |- ensures _ (call _ _) => apply ensures_call; intros
  | |- ensures _ (bind _ _) => apply (ensures_bind (fun _ => True)); [|intros ? _]
  | |- ensures _ (if ?b then _ else _) => destruct b eqn:?
  | |- ensures _ (match ?x with _ => _ end) => destruct x eqn:?
  end.

Section LogKVTotal.
Context {W Ctx : Type} (lib : PmLogLib W Ctx).

Lemma DoCmdLogKV_pairs_ensures (argv : list string) :
  forall fuel p index result kvPair,
    0 <= p ->
    (0 < fuel)%nat ->
    (length argv <= fuel + Z.to_nat p)%nat ->
    ensures (advanced p)
      (DoCmdLogKV_pairs (W := W) (Ctx := Ctx) fuel argv p (argv !! Z.to_nat p)
         index result kvPair).
Proof.
  induction fuel as [|fuel IH]; intros p index result kvPair Hp Hfuel Hlen; [lia|].
  cbn [DoCmdLogKV_pairs].
  destruct (p <? Z.of_nat (length argv)) eqn:Hlt; cbn [negb];
    [|apply ensures_ret; cbn; lia].
  apply Z.ltb_lt in Hlt.
  destruct (p =? Z.of_nat (length argv) - 1) eqn:Hlast.
  { repeat ensures_step; cbn; try lia; exact I. }
  apply Z.eqb_neq in Hlast.
  destruct (lookup_lt_is_Some_2 argv (Z.to_nat p)) as [a Ha]; [lia|].
  rewrite Ha.
  assert (Hnext : forall index' result' kvPair',
             ensures (advanced p)
               (DoCmdLogKV_pairs (W := W) (Ctx := Ctx) fuel argv (p + 1)
                  (argv !! Z.to_nat (p + 1)) index' result' kvPair')).
  { intros. apply (ensures_weaken (advanced (p + 1))).
    - intros [r|[[p' a'] k']]; cbn; [auto|lia].
    - apply IH; lia. }
  repeat first [apply Hnext | ensures_step]; try exact I.
Qed.

Lemma DoCmdLogKV_args_ensures (argv : list string) :
  forall fuel st,
    0 <= kv_paramIndex st ->
    (Z.to_nat (Z.of_nat (length argv) - kv_paramIndex st)
     + (if kv_isCheckedKV st then 0 else 1) + 1 <= fuel)%nat ->
    ensures (fun _ => True) (DoCmdLogKV_args lib fuel argv st).
Proof.
  induction fuel as [|fuel IH]; intros [p cn c lv mid msg kv chk];
    cbn [kv_paramIndex kv_isCheckedKV]; intros Hp Hfuel; [lia|].
  cbn [DoCmdLogKV_args kv_paramIndex kv_contextName kv_context kv_levelIntP kv_msgID
       kv_msg kv_kvPair kv_isCheckedKV].
  destruct (p <? Z.of_nat (length argv)) eqn:Hlt; cbn [negb];
    [|now apply ensures_ret].
  apply Z.ltb_lt in Hlt.
  assert (Hnext : forall cn' c' lv' mid' msg' kv',
             ensures (fun _ => True)
               (DoCmdLogKV_args lib fuel argv
                  (mkLogKV (p + 1) cn' c' lv' mid' msg' kv' chk))).
  { intros. apply IH; cbn [kv_paramIndex kv_isCheckedKV]; [lia|].
    destruct chk; lia. }
  destruct cn as [name|]; [|repeat first [apply Hnext | ensures_step]; exact I].
  destruct lv as [level|]; [|repeat first [apply Hnext | ensures_step]; exact I].
  destruct ((match mid with None => true | Some _ => false end)
            && negb (level =? kPmLogLevel_Debug lib)); [apply Hnext|].
  destruct ((match kv with a :: _ => Ascii.eqb a NUL | [] => false end)
            && negb chk && negb (level =? kPmLogLevel_Debug lib)) eqn:Hkv;
    [|repeat first [apply Hnext | ensures_step]; exact I].
  apply andb_prop in Hkv as [Hkv _]. apply andb_prop in Hkv as [_ Hchk].
  apply negb_true_iff in Hchk. subst chk.
  apply (ensures_bind (advanced p)).
  - apply DoCmdLogKV_pairs_ensures; lia.
  - intros [r|[[p' a'] kv']] Hadv; cbn [advanced] in Hadv; [now apply ensures_ret|].
    apply (ensures_bind (fun _ => True)); [now apply ensures_lift_opt|intros kv'' _].
    apply IH; cbn [kv_paramIndex kv_isCheckedKV]; lia.
Qed.

(** [DoCmdLogKV] never exhausts the fuel of its two loops: on every
    argument vector it returns a result or runs into undefined
    behaviour. *)
Lemma DoCmdLogKV_ensures (argv : list string) :
  ensures (fun _ => True) (DoCmdLogKV lib argv).
Proof.
  unfold DoCmdLogKV.
  destruct (Z.of_nat (length argv) <? 4) eqn:Hargc; [repeat ensures_step; exact I|].
  apply Z.ltb_ge in Hargc.
  apply (ensures_bind (fun _ => True)).
  - apply DoCmdLogKV_args_ensures; cbn [kv_paramIndex kv_isCheckedKV]; lia.
  - intros parsed _. repeat ensures_step; exact I.
Qed.

End LogKVTotal.

(** ** The label tables of [PmLogCtlUtil.c] *)

Section LabelTables.

(** The three outcomes of a walk through a table. *)
Lemma PrvGetIntLabel_cases (labels : list IntLabel.t) (n : Z) :
  match PrvGetIntLabel labels n with
  | Some (Some label) =>
      exists pre post,
        table_entries labels = pre ++ (label, n) :: post /\
        ~ In n (map snd pre)
  | Some None => terminated labels = true /\ ~ In n (map snd (table_entries labels))
  | None => terminated labels = false /\ ~ In n (map snd (table_entries labels))
  end.
Proof.
  induction labels as [|p t IH]; cbn; [auto|].
  destruct (IntLabel.s p) as [label|]; [|cbn; auto].
  destruct (IntLabel.n p =? n) eqn:E.
  - apply Z.eqb_eq in E. exists [], (table_entries t). subst n. split; [reflexivity|].
    intros [].
  - apply Z.eqb_neq in E.
    destruct (PrvGetIntLabel t n) as [[l|]|].
    + destruct IH as (pre & post & -> & Hpre).
      exists ((label, IntLabel.n p) :: pre), post. split; [reflexivity|].
      cbn. intros [H|H]; [contradiction|auto].
    + destruct IH as [Ht Hn]. split; [exact Ht|]. cbn. intros [H|H]; auto.
    + destruct IH as [Ht Hn]. split; [exact Ht|]. cbn. intros [H|H]; auto.
Qed.

Lemma PrvLabelToInt_cases (labels : list IntLabel.t) (s : string) :
  cstring s ->
  Forall (fun e => cstring (fst e)) (table_entries labels) ->
  match PrvLabelToInt labels s with
  | Some (Some n) =>
      exists pre post,
        table_entries labels = pre ++ (s, n) :: post /\
        ~ In s (map fst pre)
  | Some None => terminated labels = true /\ ~ In s (map fst (table_entries labels))
  | None => terminated labels = false /\ ~ In s (map fst (table_entries labels))
  end.
Proof.
  intros Hs. induction labels as [|p t IH]; cbn; [auto|].
  destruct (IntLabel.s p) as [label|]; [|cbn; auto].
  intros Hall. apply Forall_cons in Hall as [Hl Hall]. cbn in Hl.
  specialize (IH Hall).
  destruct (strcmp label s =? 0) eqn:E.
  - apply Z.eqb_eq in E. apply strcmp_eq_0 in E; [|assumption..]. subst label.
    exists [], (table_entries t). split; [reflexivity|]. intros [].
  - apply Z.eqb_neq in E.
    assert (Hne : label <> s) by (intros ->; apply E, strcmp_refl).
    destruct (PrvLabelToInt t s) as [[n|]|].
    + destruct IH as (pre & post & -> & Hpre).
      exists ((label, IntLabel.n p) :: pre), post. split; [reflexivity|].
      cbn. intros [H|H]; [contradiction|auto].
    + destruct IH as [Ht Hn]. split; [exact Ht|]. cbn. intros [H|H]; auto.
    + destruct IH as [Ht Hn]. split; [exact Ht|]. cbn. intros [H|H]; auto.
Qed.

(** The first entry with a label, or with an integer, is the one found. *)
Lemma PrvLabelToInt_first (labels : list IntLabel.t) (s : string) (n : Z) pre post :
  cstring s ->
  Forall (fun e => cstring (fst e)) (table_entries labels) ->
  table_entries labels = pre ++ (s, n) :: post ->
  ~ In s (map fst pre) ->
  PrvLabelToInt labels s = Some (Some n).
Proof.
  intros Hs. revert pre. induction labels as [|p t IH]; intros pre Hall Heq Hpre.
  - destruct pre; discriminate.
  - cbn in Heq, Hall |- *. destruct (IntLabel.s p) as [label|].
    2: { destruct pre; discriminate. }
    apply Forall_cons in Hall as [Hl Hall]. cbn in Hl.
    destruct pre as [|[l0 n0] pre]; cbn in Heq; injection Heq as -> Hn Heq.
    + now rewrite strcmp_refl, Hn.
    + cbn in Hpre. destruct (strcmp l0 s =? 0) eqn:E.
      * apply Z.eqb_eq in E. apply strcmp_eq_0 in E; [|assumption..].
        exfalso. auto.
      * apply (IH pre Hall Heq). auto.
Qed.

Lemma PrvGetIntLabel_first (labels : list IntLabel.t) (s : string) (n : Z) pre post :
  table_entries labels = pre ++ (s, n) :: post ->
  ~ In n (map snd pre) ->
  PrvGetIntLabel labels n = Some (Some s).
Proof.
  revert pre. induction labels as [|p t IH]; intros pre Heq Hpre.
  - destruct pre; discriminate.
  - cbn in Heq |- *. destruct (IntLabel.s p) as [label|].
    2: { destruct pre; discriminate. }
    destruct pre as [|[l0 n0] pre]; cbn in Heq; injection Heq as -> Hn Heq.
    + now rewrite Hn, Z.eqb_refl.
    + cbn in Hpre. rewrite Hn. destruct (n0 =? n) eqn:E.
      * apply Z.eqb_eq in E. exfalso. auto.
      * apply (IH pre Heq). auto.
Qed.

Lemma NoDup_not_before {A} (pre post : list A) (a : A) :
  NoDup (pre ++ a :: post) -> ~ In a pre.
Proof.
  intros Hnd Hin. apply NoDup_app in Hnd as (_ & Hdisj & _).
  apply (Hdisj a); [now apply list_elem_of_In|]. left.
Qed.

(** X1: [PrvGetIntLabel] returns the label of the first entry in front of the
    terminator that holds [n]; it returns NULL only when the table has a
    terminator and no entry in front of it holds [n]; it walks off the
    table only when the table has no terminator and no entry holds [n]. *)
Theorem PrvGetIntLabel_result (labels : list IntLabel.t) (n : Z) :
  match PrvGetIntLabel labels n with
  | Some (Some label) =>
      exists pre post,
        table_entries labels = pre ++ (label, n) :: post /\
        ~ In n (map snd pre)
  | Some None => terminated labels = true /\ ~ In n (map snd (table_entries labels))
  | None => terminated labels = false /\ ~ In n (map snd (table_entries labels))
  end.
Proof. apply PrvGetIntLabel_cases. Qed.

(** X2: [PrvLabelToInt], for a C string [s] and a table of C strings, returns
    the integer of the first entry in front of the terminator whose label
    is [s]; it returns NULL only when the table has a terminator and no
    entry in front of it has the label [s]; it walks off the table only
    when the table has no terminator and no entry has the label [s]. *)
Theorem PrvLabelToInt_result (labels : list IntLabel.t) (s : string) :
  cstring s ->
  Forall (fun e => cstring (fst e)) (table_entries labels) ->
  match PrvLabelToInt labels s with
  | Some (Some n) =>
      exists pre post,
        table_entries labels = pre ++ (s, n) :: post /\
        ~ In s (map fst pre)
  | Some None => terminated labels = true /\ ~ In s (map fst (table_entries labels))
  | None => terminated labels = false /\ ~ In s (map fst (table_entries labels))
  end.
Proof. apply PrvLabelToInt_cases. Qed.

(** X3: In a table of C strings whose labels are pairwise different, the label
    [PrvGetIntLabel] finds for [n] is mapped back to [n] by
    [PrvLabelToInt]. *)
Theorem PrvLabelToInt_PrvGetIntLabel (labels : list IntLabel.t) (n : Z) (label : string) :
  Forall (fun e => cstring (fst e)) (table_entries labels) ->
  NoDup (map fst (table_entries labels)) ->
  PrvGetIntLabel labels n = Some (Some label) ->
  PrvLabelToInt labels label = Some (Some n).
Proof.
  intros Hall Hnd Hget.
  pose proof (PrvGetIntLabel_cases labels n) as H. rewrite Hget in H.
  destruct H as (pre & post & Heq & _).
  apply (PrvLabelToInt_first labels label n pre post); [|exact Hall|exact Heq|].
  - rewrite Heq in Hall. apply Forall_app in Hall as [_ Hall].
    now apply Forall_cons in Hall as [Hl _].
  - rewrite Heq, map_app in Hnd. cbn in Hnd. now apply NoDup_not_before in Hnd.
Qed.

(** X4: In a table of C strings whose integers are pairwise different, the
    integer [PrvLabelToInt] finds for the C string [s] is mapped back to
    [s] by [PrvGetIntLabel]. *)
Theorem PrvGetIntLabel_PrvLabelToInt (labels : list IntLabel.t) (s : string) (n : Z) :
  cstring s ->
  Forall (fun e => cstring (fst e)) (table_entries labels) ->
  NoDup (map snd (table_entries labels)) ->
  PrvLabelToInt labels s = Some (Some n) ->
  PrvGetIntLabel labels n = Some (Some s).
Proof.
  intros Hs Hall Hnd Hget.
  pose proof (PrvLabelToInt_cases labels s Hs Hall) as H. rewrite Hget in H.
  destruct H as (pre & post & Heq & _).
  apply (PrvGetIntLabel_first labels s n pre post Heq).
  rewrite Heq, map_app in Hnd. cbn in Hnd. now apply NoDup_not_before in Hnd.
Qed.

End LabelTables.

Section LabelTableExamples.

Lemma PrvLabelToInt_result_witness :
  match PrvLabelToInt Toy.level_labels "err" with
  | Some (Some n) =>
      exists pre post,
        table_entries Toy.level_labels = pre ++ ("err"%string, n) :: post /\
        ~ In "err"%string (map fst pre)
  | Some None =>
      terminated Toy.level_labels = true /\
      ~ In "err"%string (map fst (table_entries Toy.level_labels))
  | None =>
      terminated Toy.level_labels = false /\
      ~ In "err"%string (map fst (table_entries Toy.level_labels))
  end.
Proof.
  apply (PrvLabelToInt_result Toy.level_labels "err").
  - reflexivity.
  - repeat constructor.
Defined.

Lemma PrvLabelToInt_PrvGetIntLabel_witness :
  PrvGetIntLabel Toy.level_labels 3 = Some (Some "err"%string) /\
  PrvLabelToInt Toy.level_labels "err" = Some (Some 3).
Proof.
  split; [reflexivity|].
  apply (PrvLabelToInt_PrvGetIntLabel Toy.level_labels 3 "err").
  - repeat constructor.
  - cbn. repeat (constructor; [rewrite list_elem_of_In; cbn; intuition discriminate|]).
    constructor.
  - reflexivity.
Defined.

Lemma PrvGetIntLabel_PrvLabelToInt_witness :
  PrvLabelToInt Toy.level_labels "warning" = Some (Some 4) /\
  PrvGetIntLabel Toy.level_labels 4 = Some (Some "warning"%string).
Proof.
  split; [reflexivity|].
  apply (PrvGetIntLabel_PrvLabelToInt Toy.level_labels "warning" 4).
  - reflexivity.
  - repeat constructor.
  - cbn. repeat (constructor; [rewrite list_elem_of_In; cbn; intuition discriminate|]).
    constructor.
  - reflexivity.
Defined.

End LabelTableExamples.

(** ** The string utilities of [PmLogCtlUtil.c] *)

Section StringBuffers.

Lemma buf_write_Some (b : list ascii) (off : nat) (src : list ascii) :
  (off + length src <= length b)%nat ->
  buf_write b off src = Some (take off b ++ src ++ drop (off + length src) b).
Proof.
  intros H. unfold buf_write.
  destruct (off + length src <=? length b)%nat eqn:E; [reflexivity|].
  apply Nat.leb_gt in E. lia.
Qed.

Lemma list_ascii_substring (n : nat) (s : string) :
  list_ascii_of_string (substring 0 n s) = take n (list_ascii_of_string s).
Proof.
  revert n. induction s as [|a s IH]; intros [|n]; cbn; try reflexivity.
  now rewrite IH.
Qed.

Lemma cstring_substring (n : nat) (s : string) :
  cstring s -> cstring (substring 0 n s).
Proof.
  unfold cstring. revert n. induction s as [|a s IH]; intros [|n] H; cbn; try reflexivity.
  apply nul_free_cons in H as [Ha H]. apply nul_free_cons. auto.
Qed.

Lemma substring_length (n : nat) (s : string) :
  String.length (substring 0 n s) = Nat.min n (String.length s).
Proof.
  revert n. induction s as [|a s IH]; intros [|n]; cbn; try reflexivity.
  now rewrite IH.
Qed.

Lemma substring_all (n : nat) (s : string) :
  (String.length s <= n)%nat -> substring 0 n s = s.
Proof.
  revert n. induction s as [|a s IH]; intros [|n] H; cbn in *; try reflexivity; [lia|].
  rewrite IH; [reflexivity|lia].
Qed.

Lemma substring_app (n : nat) (s1 s2 : string) :
  substring 0 n (s1 ++ s2)
  = (substring 0 n s1 ++ substring 0 (n - String.length s1) s2)%string.
Proof.
  revert n. induction s1 as [|a s1 IH]; intros n.
  - cbn [append String.length]. rewrite Nat.sub_0_r. now destruct n.
  - destruct n as [|n]; cbn.
    + now destruct s2.
    + now rewrite IH.
Qed.

Lemma string_app_empty_r (s : string) : (s ++ EmptyString)%string = s.
Proof. induction s as [|a s IH]; cbn; [reflexivity|now rewrite IH]. Qed.

(** The C string a buffer holds, in both directions. *)
Lemma buf_cstr_app (s : string) (rest : list ascii) :
  cstring s -> buf_cstr (list_ascii_of_string s ++ NUL :: rest) = Some s.
Proof.
  intros Hs. unfold buf_cstr. rewrite (buf_strlen_app s rest Hs).
  rewrite <- list_ascii_length, take_app_length.
  now rewrite string_of_list_ascii_of_string.
Qed.

Lemma buf_strlen_inv (b : list ascii) (n : nat) :
  buf_strlen b = Some n ->
  nul_free (string_of_list_ascii (take n b)) = true /\
  b = take n b ++ NUL :: drop (S n) b /\
  (n < length b)%nat.
Proof.
  revert n. induction b as [|a b IH]; intros n; cbn [buf_strlen]; [discriminate|].
  destruct (Ascii.eqb a NUL) eqn:E.
  - intros [= <-]. apply Ascii.eqb_eq in E. subst a. cbn. split; [reflexivity|].
    split; [now rewrite drop_0|lia].
  - destruct (buf_strlen b) as [m|] eqn:Hb; [|discriminate].
    intros [= <-]. destruct (IH m eq_refl) as (H1 & H2 & H3).
    cbn [take drop string_of_list_ascii nul_free length].
    rewrite E, H1. split; [reflexivity|]. split; [|lia].
    cbn [app]. now rewrite <- H2.
Qed.

Lemma buf_cstr_inv (b : list ascii) (s : string) :
  buf_cstr b = Some s ->
  cstring s /\
  buf_strlen b = Some (String.length s) /\
  b = list_ascii_of_string s ++ NUL :: drop (S (String.length s)) b /\
  (String.length s < length b)%nat.
Proof.
  unfold buf_cstr. destruct (buf_strlen b) as [n|] eqn:Hn; [|discriminate].
  intros [= <-]. destruct (buf_strlen_inv b n Hn) as (H1 & H2 & H3).
  assert (Hlen : String.length (string_of_list_ascii (take n b)) = n).
  { rewrite <- list_ascii_length, list_ascii_of_string_of_list_ascii.
    rewrite length_take. lia. }
  rewrite Hlen, list_ascii_of_string_of_list_ascii. auto.
Qed.

End StringBuffers.

Section StringUtilities.
Context {W Ctx : Type}.

(** The three stores of [mystrcpy]. *)
Lemma mystrcpy_writes (b pre : list ascii) (k : nat) :
  length pre = k ->
  (k < length b)%nat ->
  exists b0 b1,
    buf_write b 0 [NUL] = Some b0 /\
    buf_write b0 0 pre = Some b1 /\
    buf_write b1 k [NUL] = Some (pre ++ NUL :: drop (S k) b).
Proof.
  intros Hk Hlt.
  exists (NUL :: drop 1 b), (pre ++ drop k (NUL :: drop 1 b)).
  assert (Hb0 : length (NUL :: drop 1 b) = length b)
    by (cbn [length]; rewrite length_drop; lia).
  split; [rewrite buf_write_Some by (cbn; lia); reflexivity|].
  split.
  { rewrite buf_write_Some by (rewrite Hb0; cbn; lia).
    cbn [take app Nat.add]. now rewrite Hk. }
  rewrite buf_write_Some.
  2: { rewrite length_app, length_drop, Hb0. cbn [length]. lia. }
  rewrite take_app_length' by (symmetry; exact Hk).
  f_equal. f_equal. cbn [app length]. f_equal.
  rewrite drop_app_ge by lia. rewrite Hk.
  replace (k + 1 - k)%nat with 1%nat by lia.
  rewrite drop_drop. replace (k + 1)%nat with (S k) by lia.
  change (drop (S k) (NUL :: drop 1 b)) with (drop k (drop 1 b)).
  rewrite drop_drop. f_equal.
Qed.

Lemma mystrcpy_run (b : list ascii) (dstSize : Z) (src : string) flag (w : W) :
  1 <= dstSize <= Z.of_nat (length b) ->
  cstring src ->
  let copied := substring 0 (Z.to_nat (dstSize - 1)) src in
  mystrcpy (Ctx := Ctx) (Some b) dstSize (Some src) flag w =
    Done
      (Some (list_ascii_of_string copied ++ NUL :: drop (S (String.length copied)) b))
      (if strlen src >=? dstSize
       then printed flag stderr ("mystrcpy buffer overflow on '%s'" ++ LF) [ArgS src]
       else [])
      w.
Proof.
  intros Hsize Hsrc copied. unfold mystrcpy.
  destruct (dstSize <? 1) eqn:E; [apply Z.ltb_lt in E; lia|]. clear E.
  assert (Hlen : String.length copied
                 = Nat.min (Z.to_nat (dstSize - 1)) (String.length src))
    by apply substring_length.
  destruct (mystrcpy_writes b (list_ascii_of_string copied) (String.length copied))
    as (b0 & b1 & H0 & H1 & H2); [apply list_ascii_length|lia|].
  rewrite H0. cbn [lift_opt]. rewrite bind_ret.
  unfold strlen. destruct (Z.of_nat (String.length src) >=? dstSize) eqn:E.
  - rewrite Z.geb_leb in E. apply Z.leb_le in E.
    rewrite bind_bind, bind_ErrPrint, bind_ret.
    assert (Hk : Z.to_nat (dstSize - 1) = String.length copied) by lia.
    rewrite Hk. unfold copied at 1 in H1. rewrite list_ascii_substring, Hk in H1.
    rewrite H1. cbn [lift_opt]. rewrite bind_ret, H2. cbn [lift_opt].
    rewrite bind_ret, ret_run. cbn [after]. now rewrite app_nil_r.
  - rewrite Z.geb_leb in E. apply Z.leb_gt in E.
    rewrite bind_ret.
    assert (Hk : Z.to_nat (Z.of_nat (String.length src)) = String.length copied) by lia.
    rewrite Hk. unfold copied at 1 in H1.
    rewrite list_ascii_substring in H1.
    rewrite (take_ge (list_ascii_of_string src)) in H1
      by (rewrite list_ascii_length; lia).
    rewrite take_ge by (rewrite list_ascii_length; lia).
    rewrite H1. cbn [lift_opt]. rewrite bind_ret, H2. cbn [lift_opt].
    now rewrite bind_ret, ret_run.
Qed.

(** The two stores of [mystrcat]. *)
Lemma mystrcat_writes (b pre : list ascii) (n k : nat) :
  length pre = k ->
  (n + k < length b)%nat ->
  exists b1,
    buf_write b n pre = Some b1 /\
    buf_write b1 (n + k) [NUL] = Some (take n b ++ pre ++ NUL :: drop (S (n + k)) b).
Proof.
  intros Hk Hlt.
  exists (take n b ++ pre ++ drop (n + k) b).
  split; [rewrite buf_write_Some by lia; now rewrite Hk|].
  assert (Hn : length (take n b) = n) by (rewrite length_take; lia).
  rewrite buf_write_Some.
  2: { rewrite !length_app, Hn, Hk, length_drop. cbn [length]. lia. }
  rewrite (app_assoc (take n b) pre (drop (n + k) b)).
  rewrite take_app_length' by (rewrite length_app; lia).
  rewrite <- app_assoc. f_equal. f_equal. f_equal. cbn [app length].
  rewrite drop_app_ge by (rewrite length_app; lia).
  rewrite length_app, Hn, Hk, drop_drop. do 2 f_equal. lia.
Qed.

Lemma mystrcat_run (b : list ascii) (dstSize : Z) (d src : string) flag (w : W) :
  1 <= dstSize <= Z.of_nat (length b) ->
  buf_cstr b = Some d ->
  strlen d < dstSize ->
  cstring src ->
  let added := substring 0 (Z.to_nat (dstSize - 1 - strlen d)) src in
  mystrcat (Ctx := Ctx) (Some b) dstSize (Some src) flag w =
    Done
      (Some (list_ascii_of_string (d ++ added)
             ++ NUL :: drop (S (String.length (d ++ added))) b))
      (if strlen src >? dstSize - 1 - strlen d
       then printed flag stderr ("mystrcat buffer overflow" ++ LF) []
       else [])
      w.
Proof.
  intros Hsize Hd Hfit Hsrc added. unfold mystrcat.
  destruct (dstSize <? 1) eqn:E; [apply Z.ltb_lt in E; lia|]. clear E.
  destruct (buf_cstr_inv b d Hd) as (Hdc & Hstrlen & Hb & Hdlen).
  rewrite Hstrlen. cbn [lift_opt]. rewrite bind_ret.
  unfold strlen in *.
  destruct (Z.of_nat (String.length d) >=? dstSize) eqn:E;
    [rewrite Z.geb_leb in E; apply Z.leb_le in E; lia|]. clear E.
  assert (Hadded : String.length added
                   = Nat.min (Z.to_nat (dstSize - 1 - Z.of_nat (String.length d)))
                       (String.length src)) by apply substring_length.
  assert (Hsame : forall tr,
             added = EmptyString ->
             Done (Some b) tr w
             = Done (Ctx := Ctx)
                 (Some (list_ascii_of_string (d ++ added)
                        ++ NUL :: drop (S (String.length (d ++ added))) b)) tr w).
  { intros tr ->. rewrite string_app_empty_r. now rewrite <- Hb. }
  destruct (Z.of_nat (String.length src) <? 1) eqn:Hempty.
  { apply Z.ltb_lt in Hempty. rewrite ret_run.
    destruct (Z.of_nat (String.length src)
              >? dstSize - 1 - Z.of_nat (String.length d)) eqn:E;
      [rewrite Z.gtb_ltb in E; apply Z.ltb_lt in E; lia|].
    apply Hsame. destruct added; [reflexivity|]. cbn [String.length] in Hadded. lia. }
  apply Z.ltb_ge in Hempty.
  assert (Htake : take (String.length d) b = list_ascii_of_string d).
  { rewrite Hb at 1. now rewrite <- list_ascii_length, take_app_length. }
  destruct (Z.of_nat (String.length src)
            >? dstSize - 1 - Z.of_nat (String.length d)) eqn:E.
  - rewrite Z.gtb_ltb in E. apply Z.ltb_lt in E.
    rewrite bind_bind, bind_ErrPrint, bind_ret.
    destruct (dstSize - 1 - Z.of_nat (String.length d) >? 0) eqn:Hroom.
    + rewrite Z.gtb_ltb in Hroom. apply Z.ltb_lt in Hroom.
      assert (Hk : Z.to_nat (dstSize - 1 - Z.of_nat (String.length d))
                   = String.length added) by lia.
      destruct (mystrcat_writes b (list_ascii_of_string added) (String.length d)
                  (String.length added)) as (b1 & H1 & H2);
        [apply list_ascii_length|lia|].
      unfold added at 1 in H1. rewrite list_ascii_substring, Hk in H1.
      rewrite Hk, H1. cbn [lift_opt]. rewrite bind_ret, H2. cbn [lift_opt].
      rewrite bind_ret, ret_run. cbn [after]. rewrite app_nil_r.
      rewrite Htake, list_ascii_app, string_length_app, <- app_assoc. reflexivity.
    + rewrite Z.gtb_ltb in Hroom. apply Z.ltb_ge in Hroom.
      rewrite ret_run. cbn [after]. rewrite app_nil_r.
      apply Hsame. destruct added; [reflexivity|]. cbn [String.length] in Hadded. lia.
  - rewrite Z.gtb_ltb in E. apply Z.ltb_ge in E.
    rewrite bind_ret.
    destruct (Z.of_nat (String.length src) >? 0) eqn:Hpos;
      [|rewrite Z.gtb_ltb in Hpos; apply Z.ltb_ge in Hpos; lia].
    assert (Hk : Z.to_nat (Z.of_nat (String.length src)) = String.length added) by lia.
    destruct (mystrcat_writes b (list_ascii_of_string added) (String.length d)
                (String.length added)) as (b1 & H1 & H2);
      [apply list_ascii_length|lia|].
    unfold added at 1 in H1. rewrite list_ascii_substring in H1.
    rewrite (take_ge (list_ascii_of_string src)) in H1
      by (rewrite list_ascii_length; lia).
    rewrite Hk, take_ge by (rewrite list_ascii_length; lia).
    rewrite H1. cbn [lift_opt]. rewrite bind_ret, H2. cbn [lift_opt].
    rewrite bind_ret, ret_run.
    rewrite Htake, list_ascii_app, string_length_app, <- app_assoc. reflexivity.
Qed.

(** A buffer whose front was overwritten by a C string and its
    terminator. *)
Lemma overwritten_front (b : list ascii) (s : string) (n : nat) :
  cstring s ->
  (S (String.length s) <= n)%nat ->
  (n <= length b)%nat ->
  let b' := list_ascii_of_string s ++ NUL :: drop (S (String.length s)) b in
  length b' = length b /\
  drop n b' = drop n b /\
  buf_cstr b' = Some s.
Proof.
  intros Hs Hn Hb b'. unfold b'. split; [|split].
  - rewrite length_app, list_ascii_length. cbn [length]. rewrite length_drop. lia.
  - rewrite drop_app_ge by (rewrite list_ascii_length; lia).
    rewrite list_ascii_length.
    destruct (n - String.length s)%nat as [|m] eqn:Hm; [lia|].
    cbn [drop]. rewrite drop_drop. f_equal. lia.
  - now apply buf_cstr_app.
Qed.

(** X5: [mystrcpy] into a buffer that has its [dstSize] bytes: the buffer then
    holds the first [dstSize - 1] characters of the source (all of it when
    it is shorter) as a terminated string, nothing is stored at or behind
    offset [dstSize], and the truncation is reported exactly when the
    source has [dstSize] characters or more. *)
Theorem mystrcpy_bounded (b : list ascii) (dstSize : Z) (src : string) flag (w : W) :
  1 <= dstSize <= Z.of_nat (length b) ->
  cstring src ->
  exists b',
    mystrcpy (Ctx := Ctx) (Some b) dstSize (Some src) flag w =
      Done (Some b')
        (if strlen src >=? dstSize
         then printed flag stderr ("mystrcpy buffer overflow on '%s'" ++ LF) [ArgS src]
         else [])
        w /\
    length b' = length b /\
    drop (Z.to_nat dstSize) b' = drop (Z.to_nat dstSize) b /\
    buf_cstr b' = Some (substring 0 (Z.to_nat (dstSize - 1)) src).
Proof.
  intros Hsize Hsrc. eexists. split; [now apply mystrcpy_run|].
  apply overwritten_front; [now apply cstring_substring| |lia].
  rewrite substring_length. lia.
Qed.

(** X6: [mystrcat] onto a buffer that has its [dstSize] bytes and holds a
    string shorter than [dstSize]: the buffer then holds that string
    followed by as many characters of the source as leave room for the
    terminator, nothing is stored at or behind offset [dstSize], and the
    truncation is reported exactly when the source does not fit. *)
Theorem mystrcat_bounded (b : list ascii) (dstSize : Z) (d src : string) flag (w : W) :
  1 <= dstSize <= Z.of_nat (length b) ->
  buf_cstr b = Some d ->
  strlen d < dstSize ->
  cstring src ->
  exists b',
    mystrcat (Ctx := Ctx) (Some b) dstSize (Some src) flag w =
      Done (Some b')
        (if strlen src >? dstSize - 1 - strlen d
         then printed flag stderr ("mystrcat buffer overflow" ++ LF) []
         else [])
        w /\
    length b' = length b /\
    drop (Z.to_nat dstSize) b' = drop (Z.to_nat dstSize) b /\
    buf_cstr b'
    = Some (d ++ substring 0 (Z.to_nat (dstSize - 1 - strlen d)) src)%string.
Proof.
  intros Hsize Hd Hfit Hsrc. eexists. split; [now apply mystrcat_run|].
  destruct (buf_cstr_inv b d Hd) as (Hdc & _).
  unfold strlen in *.
  apply overwritten_front; [|rewrite string_length_app, substring_length; lia|lia].
  apply cstring_app; [exact Hdc|now apply cstring_substring].
Qed.

(** X7: [mystrcpy] followed by [mystrcat] on the same buffer and size leaves
    the first [dstSize - 1] characters of the concatenation of the two
    sources, whatever the buffer held before. *)
Theorem mystrcpy_mystrcat (b : list ascii) (dstSize : Z) (src1 src2 : string)
    flag (w : W) :
  1 <= dstSize <= Z.of_nat (length b) ->
  cstring src1 ->
  cstring src2 ->
  exists b1 b2 tr1 tr2,
    mystrcpy (Ctx := Ctx) (Some b) dstSize (Some src1) flag w = Done (Some b1) tr1 w /\
    mystrcat (Ctx := Ctx) (Some b1) dstSize (Some src2) flag w = Done (Some b2) tr2 w /\
    length b2 = length b /\
    buf_cstr b2 = Some (substring 0 (Z.to_nat (dstSize - 1)) (src1 ++ src2)).
Proof.
  intros Hsize Hs1 Hs2.
  pose proof (mystrcpy_run b dstSize src1 flag w Hsize Hs1) as H1. cbv zeta in H1.
  set (c1 := substring 0 (Z.to_nat (dstSize - 1)) src1) in *.
  assert (Hc1 : String.length c1
                = Nat.min (Z.to_nat (dstSize - 1)) (String.length src1))
    by apply substring_length.
  destruct (overwritten_front b c1 (Z.to_nat dstSize))
    as (Hlen1 & _ & Hcstr1); [now apply cstring_substring|lia|lia|].
  set (b1 := list_ascii_of_string c1 ++ NUL :: drop (S (String.length c1)) b) in *.
  assert (Hsize1 : 1 <= dstSize <= Z.of_nat (length b1)) by (rewrite Hlen1; lia).
  assert (Hfit : strlen c1 < dstSize) by (unfold strlen; lia).
  pose proof (mystrcat_run b1 dstSize c1 src2 flag w Hsize1 Hcstr1 Hfit Hs2) as H2.
  cbv zeta in H2.
  set (c2 := substring 0 (Z.to_nat (dstSize - 1 - strlen c1)) src2) in *.
  assert (Hc2 : String.length c2
                = Nat.min (Z.to_nat (dstSize - 1 - strlen c1)) (String.length src2))
    by apply substring_length.
  unfold strlen in *.
  destruct (overwritten_front b1 (c1 ++ c2) (Z.to_nat dstSize))
    as (Hlen2 & _ & Hcstr2);
    [apply cstring_app; now apply cstring_substring
    |rewrite string_length_app; lia|lia|].
  eexists _, _, _, _. split; [exact H1|]. split; [exact H2|].
  split; [now rewrite Hlen2|]. rewrite Hcstr2. f_equal.
  rewrite substring_app. fold c1. unfold c2.
  destruct (Nat.le_gt_cases (String.length src1) (Z.to_nat (dstSize - 1))) as [Hle|Hgt].
  - do 2 f_equal. lia.
  - rewrite (proj2 (Nat.sub_0_le _ _)) by lia.
    replace (Z.to_nat (dstSize - 1 - Z.of_nat (String.length c1))) with 0%nat by lia.
    reflexivity.
Qed.

End StringUtilities.

Section StringUtilityExamples.

Lemma mystrcpy_bounded_witness :
  exists b',
    mystrcpy (Ctx := nat) (Some (replicate 8 "x"%char)) 6 (Some "PmLogCtl"%string)
      false Toy.scenario =
      Done (Some b')
        (if strlen "PmLogCtl" >=? 6
         then printed false stderr ("mystrcpy buffer overflow on '%s'" ++ LF)
                [ArgS "PmLogCtl"]
         else [])
        Toy.scenario /\
    length b' = length (replicate 8 "x"%char) /\
    drop (Z.to_nat 6) b' = drop (Z.to_nat 6) (replicate 8 "x"%char) /\
    buf_cstr b' = Some (substring 0 (Z.to_nat (6 - 1)) "PmLogCtl").
Proof.
  apply (mystrcpy_bounded (replicate 8 "x"%char) 6 "PmLogCtl" false Toy.scenario).
  - cbn. lia.
  - reflexivity.
Defined.

Lemma mystrcat_bounded_witness :
  exists b',
    mystrcat (Ctx := nat) (Some (list_ascii_of_string "Pm" ++ replicate 6 NUL)) 6
      (Some "LogCtl"%string) false Toy.scenario =
      Done (Some b')
        (if strlen "LogCtl" >? 6 - 1 - strlen "Pm"
         then printed false stderr ("mystrcat buffer overflow" ++ LF) []
         else [])
        Toy.scenario /\
    length b' = length (list_ascii_of_string "Pm" ++ replicate 6 NUL) /\
    drop (Z.to_nat 6) b'
    = drop (Z.to_nat 6) (list_ascii_of_string "Pm" ++ replicate 6 NUL) /\
    buf_cstr b'
    = Some ("Pm" ++ substring 0 (Z.to_nat (6 - 1 - strlen "Pm")) "LogCtl")%string.
Proof.
  apply (mystrcat_bounded (list_ascii_of_string "Pm" ++ replicate 6 NUL) 6 "Pm"
           "LogCtl" false Toy.scenario).
  - cbn. lia.
  - reflexivity.
  - reflexivity.
  - reflexivity.
Defined.

Lemma mystrcpy_mystrcat_witness :
  exists b1 b2 tr1 tr2,
    mystrcpy (Ctx := nat) (Some (replicate 8 "x"%char)) 6 (Some "Pm"%string)
      false Toy.scenario = Done (Some b1) tr1 Toy.scenario /\
    mystrcat (Ctx := nat) (Some b1) 6 (Some "LogCtl"%string) false Toy.scenario
      = Done (Some b2) tr2 Toy.scenario /\
    length b2 = length (replicate 8 "x"%char) /\
    buf_cstr b2 = Some (substring 0 (Z.to_nat (6 - 1)) ("Pm" ++ "LogCtl")).
Proof.
  apply (mystrcpy_mystrcat (replicate 8 "x"%char) 6 "Pm" "LogCtl" false Toy.scenario).
  - cbn. lia.
  - reflexivity.
  - reflexivity.
Defined.

End StringUtilityExamples.

(** ** What the commands do before they report a parameter error *)

Section CleanFacts.
Context {W Ctx : Type}.

Lemma prints_only_read {A} (f : W -> A) : prints_only (read (Ctx := Ctx) f).
Proof. intros flag w. cbn. auto. Qed.

Lemma prints_only_InfoPrint fmt args :
  prints_only (InfoPrint (W := W) (Ctx := Ctx) fmt args).
Proof. intros [|] w; cbn; auto. Qed.

Lemma never_ret (r : Result) :
  r <> RESULT_PARAM_ERR -> never_param_err (ret (W := W) (Ctx := Ctx) r).
Proof. intros Hr flag w r' tr w' [= <- _ _]. exact Hr. Qed.

Lemma never_undefined : never_param_err (undefined (W := W) (Ctx := Ctx)).
Proof. intros flag w r tr w' H. discriminate. Qed.

Lemma never_bind {A} (m : M W Ctx A) (k : A -> M W Ctx Result) :
  (forall a, never_param_err (k a)) -> never_param_err (bind m k).
Proof.
  intros Hk flag w r tr w'. unfold bind.
  destruct (m flag w) as [a tr1 w1| |]; [|discriminate..].
  destruct (k a flag w1) as [r2 tr2 w2| |] eqn:E; [|discriminate..].
  intros [= <- _ _]. exact (Hk a flag w1 r2 tr2 w2 E).
Qed.

Lemma clean_of_prints_only (c : M W Ctx Result) : prints_only c -> param_err_clean c.
Proof. intros Hc flag w tr w' E. specialize (Hc flag w). rewrite E in Hc. exact Hc. Qed.

Lemma clean_of_never (c : M W Ctx Result) : never_param_err c -> param_err_clean c.
Proof. intros Hc flag w tr w' E. now apply Hc in E. Qed.

Lemma clean_bind {A} (m : M W Ctx A) (k : A -> M W Ctx Result) :
  prints_only m -> (forall a, param_err_clean (k a)) -> param_err_clean (bind m k).
Proof.
  intros Hm Hk flag w tr w'. unfold bind. specialize (Hm flag w).
  destruct (m flag w) as [a tr1 w1| |]; [|discriminate..].
  destruct Hm as [Htr1 ->].
  destruct (k a flag w) as [r2 tr2 w2| |] eqn:E; [|discriminate..].
  intros [= -> <- <-]. destruct (Hk a flag w tr2 w2 E) as [Htr2 ->].
  split; [now apply Forall_app|reflexivity].
Qed.

End CleanFacts.

#[local] Hint Resolve prints_only_read prints_only_InfoPrint : prints.

Ltac never_step :=
  match goal with
  | |- never_param_err (ret _) => apply never_ret; discriminate
  | |- never_param_err undefined => apply never_undefined
  | |- never_param_err (bind _ _) => apply never_bind; intros
  | |- never_param_err (if ?b then _ else _) => destruct b
  | |- never_param_err (match ?x with _ => _ end) => destruct x
  end.

Ltac clean_step :=
  match goal with
  | |- param_err_clean _ => solve [apply clean_of_prints_only; repeat prints_step]
  | |- param_err_clean _ => solve [apply clean_of_never; repeat never_step]
  | |- param_err_clean (bind _ _) =>
      apply clean_bind; [solve [repeat prints_step]|intros]
  | |- param_err_clean (if ?b then _ else _) => destruct b
  | |- param_err_clean (match ?x with _ => _ end) => destruct x
  end.

Section CleanCommands.
Context {W Ctx : Type} (lib : PmLogLib W Ctx) (libc : Libc W Ctx).
Variable DoCmdView : list string -> M W Ctx Result.

Lemma prints_only_ShowContext e : prints_only (ShowContext lib e).
Proof. unfold ShowContext. repeat prints_step. Qed.

#[local] Hint Resolve prints_only_ShowContext : prints.

Lemma prints_only_DoCmdShow_each es : prints_only (DoCmdShow_each lib es).
Proof. induction es as [|e es IH]; cbn [DoCmdShow_each]; repeat prints_step. Qed.

#[local] Hint Resolve prints_only_DoCmdShow_each : prints.

Lemma prints_only_DoCmdShow argv : prints_only (DoCmdShow lib libc argv).
Proof. unfold DoCmdShow. repeat prints_step. Qed.

Lemma prints_only_DoCmdSet_args rest :
  forall m c l, prints_only (DoCmdSet_args lib rest m c l).
Proof.
  induction rest as [|arg rest IH]; intros m c l; cbn [DoCmdSet_args];
    repeat prints_step.
Qed.

Lemma prints_only_DoCmdLog_args rest :
  forall n c l m, prints_only (DoCmdLog_args lib rest n c l m).
Proof.
  induction rest as [|arg rest IH]; intros n c l m; cbn [DoCmdLog_args];
    repeat prints_step.
Qed.

Lemma prints_only_DoCmdLogKV_pairs' fuel argv p arg index result kvPair :
  prints_only (DoCmdLogKV_pairs (W := W) (Ctx := Ctx) fuel argv p arg index result kvPair).
Proof. apply DoCmdLogKV_pairs_prints_only. Qed.

#[local] Hint Resolve prints_only_DoCmdLogKV_pairs' : prints.

Lemma prints_only_DoCmdLogKV_args fuel argv :
  forall st, prints_only (DoCmdLogKV_args lib fuel argv st).
Proof.
  induction fuel as [|fuel IH]; intros st; cbn [DoCmdLogKV_args]; repeat prints_step.
Qed.

Lemma prints_only_DoCmdKLog_args (n : nat) :
  forall rest l m, (length rest <= n)%nat -> prints_only (DoCmdKLog_args lib rest l m).
Proof.
  induction n as [|n IH]; intros [|arg rest] l m Hlen; cbn [DoCmdKLog_args];
    cbn [length] in Hlen; try lia; repeat prints_step.
  all: apply IH; cbn [length] in *; lia.
Qed.

Lemma prints_only_DoCmdDef_args rest :
  forall n l v, prints_only (DoCmdDef_args lib rest n l v).
Proof.
  induction rest as [|arg rest IH]; intros n l v; cbn [DoCmdDef_args];
    repeat prints_step.
Qed.

Lemma prints_only_mysprintf n s : prints_only (mysprintf (W := W) (Ctx := Ctx) n s).
Proof. unfold mysprintf. repeat prints_step. Qed.

Lemma prints_only_ShowUsage_levels k :
  forall level, prints_only (ShowUsage_levels lib k level).
Proof.
  induction k as [|k IH]; intros level; cbn [ShowUsage_levels]; repeat prints_step.
Qed.

#[local] Hint Resolve prints_only_DoCmdSet_args prints_only_DoCmdLog_args
  prints_only_DoCmdLogKV_args prints_only_DoCmdDef_args prints_only_mysprintf
  prints_only_ShowUsage_levels prints_only_DoCmdShow : prints.

Lemma prints_only_ShowUsage : prints_only (ShowUsage lib).
Proof. unfold ShowUsage. repeat prints_step. Qed.

#[local] Hint Resolve prints_only_ShowUsage : prints.

Lemma never_DoCmdSet_each es level : never_param_err (DoCmdSet_each lib es level).
Proof. induction es as [|e es IH]; cbn [DoCmdSet_each]; repeat never_step. exact IH. Qed.

Lemma never_WriteKMsg p s : never_param_err (WriteKMsg libc p s).
Proof. unfold WriteKMsg. repeat never_step. Qed.

Lemma clean_DoCmdSet argv : param_err_clean (DoCmdSet lib libc argv).
Proof.
  unfold DoCmdSet. repeat clean_step.
  apply clean_of_never. repeat never_step. apply never_DoCmdSet_each.
Qed.

Lemma clean_DoCmdLog argv : param_err_clean (DoCmdLog lib argv).
Proof. unfold DoCmdLog. repeat clean_step. Qed.

Lemma clean_DoCmdLogKV argv : param_err_clean (DoCmdLogKV lib argv).
Proof. unfold DoCmdLogKV. repeat clean_step. Qed.

Lemma clean_DoCmdKLog argv : param_err_clean (DoCmdKLog lib libc argv).
Proof.
  unfold DoCmdKLog. apply clean_bind.
  - now apply (prints_only_DoCmdKLog_args (length (tail argv))).
  - intros r. repeat clean_step. apply clean_of_never, never_WriteKMsg.
Qed.

Lemma clean_DoCmdReConf argv : param_err_clean (DoCmdReConf lib argv).
Proof. unfold DoCmdReConf. repeat clean_step. Qed.

Lemma clean_DoCmdDef argv : param_err_clean (DoCmdDef lib argv).
Proof. unfold DoCmdDef. repeat clean_step. Qed.

Lemma clean_DoCmdFlush : param_err_clean (DoCmdFlush lib).
Proof. unfold DoCmdFlush. repeat clean_step. Qed.

End CleanCommands.

(** ** The [show] command *)

Section ShowFacts.
Context {W Ctx : Type} (lib : PmLogLib W Ctx) (libc : Libc W Ctx).

Lemma DoCmdShow_each_run flag (w : W) :
  forall es : list (ContextInfo_t Ctx),
    Forall (fun e => context e <> None) es ->
    DoCmdShow_each lib es flag w = Done tt (flat_map (shown_line lib flag w) es) w.
Proof.
  induction es as [|e es IH]; intros Hes; [reflexivity|].
  apply Forall_cons in Hes as [He Hes]. cbn [DoCmdShow_each flat_map].
  unfold ShowContext, shown_line at 1. destruct (context e) as [c|]; [|contradiction].
  rewrite bind_bind, bind_read, bind_InfoPrint, (IH Hes).
  reflexivity.
Qed.

(** [DoCmdShow] with at most one argument, once the listing has
    succeeded. *)
Lemma DoCmdShow_listed (cmd : string) (args : list string) ci flag (w : W) :
  (length args <= 1)%nat ->
  malloc_ok libc w = true ->
  PrvGetContextList lib libc w (show_pattern lib args) = Some (kPmLogErr_None, ci) ->
  snapshot_checked ci = Some (snapshot ci) ->
  Forall (fun e => context e <> None) (snapshot ci) ->
  DoCmdShow lib libc (cmd :: args) flag w =
    match show_pattern lib args with
    | Some m =>
        if numContexts ci =? 0
        then
          Done RESULT_RUN_ERR
            (flat_map (shown_line lib flag w) (snapshot ci)
             ++ printed flag stderr
                  (if PrvIsWildcardContextName m
                   then "No contexts matched '%s'." ++ LF
                   else "Context '%s' not found." ++ LF)
                  [ArgS m]) w
        else Done RESULT_OK (flat_map (shown_line lib flag w) (snapshot ci)) w
    | None => Done RESULT_OK (flat_map (shown_line lib flag w) (snapshot ci)) w
    end.
Proof.
  intros Hlen Hmalloc Hrun Hinv Hctx. unfold DoCmdShow.
  assert (Hpat : (if Z.of_nat (length (cmd :: args)) >=? 2
                  then option_map (PrvResolveContextNameAlias lib)
                         ((cmd :: args) !! 1%nat)
                  else None) = show_pattern lib args).
  { destruct args as [|p [|q rest]]; cbn in Hlen |- *; [reflexivity..|lia]. }
  rewrite Hpat.
  destruct (Z.of_nat (length (cmd :: args)) >=? 3) eqn:E.
  { rewrite Z.geb_leb in E. apply Z.leb_le in E. cbn [length] in E. lia. }
  rewrite bind_read, Hmalloc. cbn [negb]. rewrite bind_read, Hrun.
  cbn [lift_opt]. rewrite bind_ret. cbn [is_kPmLogErr_None negb].
  rewrite Hinv. cbn [lift_opt]. rewrite bind_ret.
  unfold bind at 1. rewrite (DoCmdShow_each_run flag w _ Hctx).
  destruct (show_pattern lib args) as [m|]; [|now rewrite ret_run, app_nil_r].
  destruct (numContexts ci =? 0); [|now rewrite ret_run, app_nil_r].
  destruct (PrvIsWildcardContextName m); rewrite bind_ErrPrint, ret_run; cbn [after];
    now rewrite app_nil_r.
Qed.

(** X8: [DoCmdShow] changes nothing: whatever its arguments, all it leaves
    behind is console output, and the library state is the one it
    started from. *)
Theorem DoCmdShow_read_only (argv : list string) flag (w : W) r tr w' :
  DoCmdShow lib libc argv flag w = Done r tr w' ->
  Forall (fun e => is_Print e = true) tr /\ w' = w.
Proof.
  intros Hrun. pose proof (prints_only_DoCmdShow lib libc argv flag w) as H.
  now rewrite Hrun in H.
Qed.

(** X9: [DoCmdShow] without a pattern or with a pattern that at least one and
    at most [PMLOG_MAX_NUM_CONTEXTS] contexts match prints one line per
    matching context, in non-decreasing [strcasecmp] order of the names,
    and returns [RESULT_OK]. *)
Theorem DoCmdShow_lists_sorted (cmd : string) (args : list string)
    (entries : list (ContextInfo_t Ctx)) flag (w : W) :
  qsort_spec libc ->
  (length args <= 1)%nat ->
  malloc_ok libc w = true ->
  cstring_opt (show_pattern lib args) ->
  enumerates lib w entries ->
  Forall (fun e => context e <> None) entries ->
  (0 < length (matching (show_pattern lib args) entries)
     <= PMLOG_MAX_NUM_CONTEXTS lib)%nat ->
  exists shown,
    Sorted (fun a b => strcasecmp (contextName a) (contextName b) <= 0) shown /\
    Permutation (matching (show_pattern lib args) entries) shown /\
    DoCmdShow lib libc (cmd :: args) flag w =
      Done RESULT_OK (flat_map (shown_line lib flag w) shown) w.
Proof.
  intros Hq Hlen Hmalloc Hpat Henum Hctx Hcount.
  destruct (PrvGetContextList_counts lib libc w _ Hpat)
    as (logErr & ci & Hrun & _ & Hent).
  destruct (Hent entries Henum) as (Hnum & _ & Hok).
  rewrite Hok in Hrun, Hnum by lia. specialize (Hnum eq_refl).
  destruct (snapshot_sorted_perm lib libc w _ ci Hq Hrun) as [Hsorted Hperm].
  specialize (Hperm entries Henum).
  destruct (PrvGetContextList_success lib libc w _ ci Hq Hrun)
    as (_ & _ & _ & _ & _ & _ & Hinv & _ & _).
  exists (snapshot ci). split; [exact Hsorted|]. split; [exact Hperm|].
  rewrite (DoCmdShow_listed cmd args ci flag w Hlen Hmalloc Hrun
             (snapshot_checked_inv lib ci Hinv)).
  - destruct (show_pattern lib args); [|reflexivity].
    destruct (numContexts ci =? 0) eqn:E; [|reflexivity].
    apply Z.eqb_eq in E. lia.
  - apply List.Forall_forall. intros e He.
    rewrite List.Forall_forall in Hctx. apply Hctx.
    apply (Permutation_in _ (Permutation_sym Hperm)) in He.
    unfold matching in He. now apply List.filter_In in He as [He _].
Qed.

(** X10: [DoCmdShow] with a pattern that no context matches prints no context
    line, reports [No contexts matched '%s'.] for a pattern with a star
    and [Context '%s' not found.] for one without, and returns
    [RESULT_RUN_ERR]. *)
Theorem DoCmdShow_no_match (cmd p : string)
    (entries : list (ContextInfo_t Ctx)) flag (w : W) :
  malloc_ok libc w = true ->
  cstring (PrvResolveContextNameAlias lib p) ->
  enumerates lib w entries ->
  matching (Some (PrvResolveContextNameAlias lib p)) entries = [] ->
  DoCmdShow lib libc [cmd; p] flag w =
    Done RESULT_RUN_ERR
      (printed flag stderr
         (if PrvIsWildcardContextName (PrvResolveContextNameAlias lib p)
          then "No contexts matched '%s'." ++ LF
          else "Context '%s' not found." ++ LF)
         [ArgS (PrvResolveContextNameAlias lib p)]) w.
Proof.
  intros Hmalloc Hpat Henum Hnone.
  destruct (PrvGetContextList_counts lib libc w
              (Some (PrvResolveContextNameAlias lib p)) Hpat)
    as (logErr & ci & Hrun & _ & Hent).
  destruct (Hent entries Henum) as (Hnum & _ & Hok).
  rewrite Hnone in Hnum, Hok. cbn [length] in Hnum, Hok.
  rewrite Hok in Hrun, Hnum by lia. specialize (Hnum eq_refl).
  assert (Hsnap : snapshot ci = []) by (unfold snapshot; now rewrite Hnum).
  rewrite (DoCmdShow_listed cmd [p] ci flag w); cbn [show_pattern head option_map];
    [|cbn; lia|exact Hmalloc|exact Hrun| |rewrite Hsnap; constructor].
  - rewrite Hnum, Hsnap. reflexivity.
  - unfold snapshot_checked. now rewrite Hnum.
Qed.

(** X11: A registry that reports an error or no context at all makes
    [DoCmdShow] fail: the error of the count query, or
    [kPmLogErr_Unknown] when the count is zero or less, is reported and
    the result is [RESULT_RUN_ERR]. *)
Theorem DoCmdShow_empty_registry (cmd : string) (args : list string)
    (e : PmLogErr) (n : Z) flag (w : W) :
  (length args <= 1)%nat ->
  malloc_ok libc w = true ->
  PmLogGetNumContexts lib w = (e, n) ->
  e <> kPmLogErr_None \/ n <= 0 ->
  DoCmdShow lib libc (cmd :: args) flag w =
    Done RESULT_RUN_ERR
      (printed flag stderr ("Error getting contexts info: 0x%08X (%s)" ++ LF)
         (err_args lib (if is_kPmLogErr_None e then kPmLogErr_Unknown else e))) w.
Proof.
  intros Hlen Hmalloc Hn Hbad. unfold DoCmdShow.
  destruct (Z.of_nat (length (cmd :: args)) >=? 3) eqn:E.
  { rewrite Z.geb_leb in E. apply Z.leb_le in E. cbn [length] in E. lia. }
  rewrite bind_read, Hmalloc. cbn [negb]. rewrite bind_read.
  unfold PrvGetContextList. rewrite Hn.
  destruct e; cbn [is_kPmLogErr_None negb lift_opt].
  - destruct Hbad as [Hbad|Hbad]; [contradiction|].
    destruct (n <=? 0) eqn:En; [|apply Z.leb_gt in En; lia].
    cbn [lift_opt]. rewrite bind_ret. cbn [is_kPmLogErr_None negb].
    rewrite bind_ErrPrint, ret_run. cbn [after]. now rewrite app_nil_r.
  - rewrite bind_ret. cbn [is_kPmLogErr_None negb].
    rewrite bind_ErrPrint, ret_run. cbn [after]. now rewrite app_nil_r.
  - rewrite bind_ret. cbn [is_kPmLogErr_None negb].
    rewrite bind_ErrPrint, ret_run. cbn [after]. now rewrite app_nil_r.
Qed.

End ShowFacts.

Section CleanTheorems.
Context {W Ctx : Type} (lib : PmLogLib W Ctx) (libc : Libc W Ctx).
Variable DoCmdView : list string -> M W Ctx Result.

(** X12: Whatever command other than [view] is dispatched with whatever
    arguments: when its result is [RESULT_PARAM_ERR], it has printed
    and done nothing else; no call that changes the library or writes to
    the kernel log was made and the library state is the one the command
    started from. *)
Theorem dispatch_param_error_is_clean (cmd : string) (cmd_index : list string)
    flag (w : W) tr w' :
  strcmp cmd "view" <> 0 ->
  dispatch lib libc DoCmdView cmd cmd_index flag w = Done RESULT_PARAM_ERR tr w' ->
  Forall (fun e => is_Print e = true) tr /\ w' = w.
Proof.
  intros Hview. revert flag w tr w'.
  change (param_err_clean (dispatch lib libc DoCmdView cmd cmd_index)).
  unfold dispatch.
  destruct (strcmp cmd "view" =? 0) eqn:E; [apply Z.eqb_eq in E; contradiction|].
  destruct (strcmp cmd "def" =? 0); [apply clean_DoCmdDef|].
  destruct (strcmp cmd "log" =? 0); [apply clean_DoCmdLog|].
  destruct (strcmp cmd "logkv" =? 0); [apply clean_DoCmdLogKV|].
  destruct (strcmp cmd "klog" =? 0); [apply clean_DoCmdKLog|].
  destruct (strcmp cmd "reconf" =? 0); [apply clean_DoCmdReConf|].
  destruct (strcmp cmd "set" =? 0); [apply clean_DoCmdSet|].
  destruct (strcmp cmd "show" =? 0);
    [apply clean_of_prints_only, prints_only_DoCmdShow|].
  destruct (strcmp cmd "flush" =? 0); [apply clean_DoCmdFlush|].
  destruct ((strcmp cmd "help" =? 0) || (strcmp cmd "-help" =? 0)).
  - apply clean_of_prints_only. apply prints_only_bind; [apply prints_only_ShowUsage|].
    intros _. apply prints_only_ret.
  - apply clean_of_prints_only. apply prints_only_bind; [apply prints_only_ErrPrint|].
    intros _. apply prints_only_ret.
Qed.

End CleanTheorems.

Section ShowExamples.

Lemma dispatch_param_error_is_clean_witness :
  dispatch (Toy.lib 8) Toy.libc Toy.view_absent "set" ["set"; "ui"; "loud"]%string
    false Toy.scenario =
    Done RESULT_PARAM_ERR
      (printed false stderr ("Invalid level '%s'." ++ LF) [ArgS "loud"]) Toy.scenario /\
  (Forall (fun e : Event nat => is_Print e = true)
     (printed false stderr ("Invalid level '%s'." ++ LF) [ArgS "loud"]) /\
   Toy.scenario = Toy.scenario).
Proof.
  split; [reflexivity|].
  apply (dispatch_param_error_is_clean (Toy.lib 8) Toy.libc Toy.view_absent "set"
           ["set"; "ui"; "loud"]%string false Toy.scenario).
  - vm_compute. discriminate.
  - reflexivity.
Defined.

Lemma DoCmdShow_read_only_witness :
  exists tr,
    DoCmdShow (Toy.lib 8) Toy.libc ["show"; "net*"]%string false Toy.scenario
      = Done RESULT_OK tr Toy.scenario /\
    (Forall (fun e : Event nat => is_Print e = true) tr /\ Toy.scenario = Toy.scenario).
Proof.
  eexists. split; [vm_compute; reflexivity|].
  eapply (DoCmdShow_read_only (Toy.lib 8) Toy.libc ["show"; "net*"]%string false
            Toy.scenario RESULT_OK).
  vm_compute. reflexivity.
Defined.

Lemma DoCmdShow_lists_sorted_witness :
  exists shown,
    Sorted (fun a b => strcasecmp (contextName a) (contextName b) <= 0) shown /\
    Permutation
      (matching (show_pattern (Toy.lib 8) ["net*"%string]) (Toy.entries Toy.scenario))
      shown /\
    DoCmdShow (Toy.lib 8) Toy.libc ("show" :: ["net*"])%string false Toy.scenario =
      Done RESULT_OK (flat_map (shown_line (Toy.lib 8) false Toy.scenario) shown)
        Toy.scenario.
Proof.
  apply (DoCmdShow_lists_sorted (Toy.lib 8) Toy.libc "show" ["net*"%string]
           (Toy.entries Toy.scenario) false Toy.scenario).
  - exact toy_qsort_spec.
  - cbn. lia.
  - reflexivity.
  - reflexivity.
  - apply toy_enumerates. discriminate.
  - repeat constructor; discriminate.
  - vm_compute. lia.
Defined.

Lemma DoCmdShow_no_match_witness :
  DoCmdShow (Toy.lib 8) Toy.libc ["show"; "nosuch"]%string false Toy.scenario =
    Done RESULT_RUN_ERR
      (printed false stderr
         (if PrvIsWildcardContextName (PrvResolveContextNameAlias (Toy.lib 8) "nosuch")
          then "No contexts matched '%s'." ++ LF
          else "Context '%s' not found." ++ LF)
         [ArgS (PrvResolveContextNameAlias (Toy.lib 8) "nosuch")]) Toy.scenario.
Proof.
  apply (DoCmdShow_no_match (Toy.lib 8) Toy.libc "show" "nosuch"
           (Toy.entries Toy.scenario) false Toy.scenario).
  - reflexivity.
  - reflexivity.
  - apply toy_enumerates. discriminate.
  - reflexivity.
Defined.

Lemma DoCmdShow_empty_registry_witness :
  DoCmdShow (Toy.lib 8) Toy.libc ("show"%string :: []) false [] =
    Done RESULT_RUN_ERR
      (printed false stderr ("Error getting contexts info: 0x%08X (%s)" ++ LF)
         (err_args (Toy.lib 8)
            (if is_kPmLogErr_None kPmLogErr_None then kPmLogErr_Unknown
             else kPmLogErr_None))) [].
Proof.
  apply (DoCmdShow_empty_registry (Toy.lib 8) Toy.libc "show" [] kPmLogErr_None 0
           false []).
  - cbn. lia.
  - reflexivity.
  - reflexivity.
  - right. lia.
Defined.

End ShowExamples.

(** ** The [log] command *)

Ltac run_step :=
  first
    [ rewrite bind_bind
    | rewrite bind_ret
    | rewrite bind_read
    | rewrite bind_ErrPrint
    | rewrite bind_InfoPrint
    | rewrite bind_call
    | rewrite ret_run ].

Section LogFacts.
Context {W Ctx : Type} (lib : PmLogLib W Ctx).

Lemma printed_app_is_Print flag f fmt args (tr : list (Event Ctx)) :
  Forall (fun e => is_Print e = true) tr ->
  Forall (fun e : Event Ctx => is_Print e = true) (printed flag f fmt args ++ tr).
Proof. intros H. apply Forall_app. split; [apply printed_is_Print|exact H]. Qed.

(** X13: [DoCmdLog] takes one parameter or three: with any other number of
    parameters it returns [RESULT_PARAM_ERR], having only printed. *)
Theorem DoCmdLog_arity (argv : list string) flag (w : W) :
  length argv <> 2%nat ->
  length argv <> 4%nat ->
  exists tr,
    DoCmdLog lib argv flag w = Done RESULT_PARAM_ERR tr w /\
    Forall (fun e => is_Print e = true) tr.
Proof.
  intros H2 H4. unfold DoCmdLog.
  destruct (Z.of_nat (length argv) =? 2) eqn:E; [apply Z.eqb_eq in E; lia|]. clear E.
  destruct argv as [|cmd [|a [|b [|c [|d rest]]]]]; cbn [length] in H2, H4; try lia;
    cbn [tail DoCmdLog_args].
  - repeat run_step. cbn [after]. eexists. split; [reflexivity|].
    apply printed_app_is_Print. constructor.
  - repeat run_step. cbn [after]. eexists. split; [reflexivity|].
    apply printed_app_is_Print. constructor.
  - repeat run_step.
    destruct (PmLogFindContext lib (PrvResolveContextNameAlias lib a) w) as [e ctx].
    destruct (is_kPmLogErr_None e); cbn [negb].
    + destruct (PmLogStringToLevel lib b) as [v|].
      * destruct (v =? -1); repeat run_step; cbn [after]; eexists;
          (split; [reflexivity|]); apply printed_app_is_Print; constructor.
      * repeat run_step. cbn [after]. eexists. split; [reflexivity|].
        apply printed_app_is_Print. constructor.
    + repeat run_step. cbn [after]. eexists. split; [reflexivity|].
      apply printed_app_is_Print. constructor.
  - repeat run_step.
    destruct (PmLogFindContext lib (PrvResolveContextNameAlias lib a) w) as [e ctx].
    destruct (is_kPmLogErr_None e); cbn [negb].
    + destruct (PmLogStringToLevel lib b) as [v|].
      * destruct (v =? -1); repeat run_step; cbn [after]; eexists;
          (split; [reflexivity|]); apply printed_app_is_Print; constructor.
      * repeat run_step. cbn [after]. eexists. split; [reflexivity|].
        apply printed_app_is_Print. constructor.
    + repeat run_step. cbn [after]. eexists. split; [reflexivity|].
      apply printed_app_is_Print. constructor.
Qed.

Lemma logged_run (ev : Event Ctx) (f : W -> PmLogErr * W) flag (w : W) :
  bind (call ev f)
    (fun logErr =>
       if negb (is_kPmLogErr_None logErr)
       then
         bind (ErrPrint ("Error logging: 0x%08X (%s)" ++ LF) (err_args lib logErr))
           (fun _ => ret RESULT_RUN_ERR)
       else ret RESULT_OK) flag w
  = logged lib flag ev (f w).
Proof.
  rewrite bind_call. unfold logged, after_PmLogString.
  destruct (f w) as [logErr w1]. cbn [fst snd].
  destruct (is_kPmLogErr_None logErr); cbn [negb]; repeat run_step; [reflexivity|].
  cbn [after]. now rewrite app_nil_r.
Qed.

(** X14: [DoCmdLog] with one parameter logs it on the global context at the
    notice level, without looking the context up.  With a context, a
    level and a message it logs the message on the context
    [PmLogFindContext] finds, at that level, unless the level is -1,
    which is refused.  The message is always the argument of the format
    ["%s"], never a format itself. *)
Theorem DoCmdLog_logs (cmd cname lvl msg : string) (c : option Ctx) (v : Z)
    flag (w : W) :
  DoCmdLog lib [cmd; msg] flag w =
    logged lib flag
      (Call_PmLogPrint (Some (kPmLogGlobalContext lib)) (kPmLogLevel_Notice lib) "%s"
         [ArgS msg])
      (PmLogPrint_ lib (Some (kPmLogGlobalContext lib)) (kPmLogLevel_Notice lib) "%s"
         [ArgS msg] w) /\
  (PmLogFindContext lib (PrvResolveContextNameAlias lib cname) w = (kPmLogErr_None, c) ->
   PmLogStringToLevel lib lvl = Some v ->
   DoCmdLog lib [cmd; cname; lvl; msg] flag w =
     if v =? -1
     then
       Done RESULT_PARAM_ERR
         (printed flag stderr ("Invalid level '%s'." ++ LF) [ArgS lvl]) w
     else
       logged lib flag (Call_PmLogPrint c v "%s" [ArgS msg])
         (PmLogPrint_ lib c v "%s" [ArgS msg] w)).
Proof.
  split.
  - unfold DoCmdLog. cbn [length tail DoCmdLog_args].
    change (Z.of_nat 2 =? 2) with true. cbv iota. rewrite bind_ret.
    apply logged_run.
  - intros Hfind Hlvl. unfold DoCmdLog. cbn [length tail DoCmdLog_args].
    change (Z.of_nat 4 =? 2) with false. cbv iota.
    rewrite bind_bind, bind_read, Hfind. cbn [is_kPmLogErr_None negb]. rewrite Hlvl.
    destruct (v =? -1).
    + repeat run_step. cbn [after]. now rewrite app_nil_r.
    + rewrite bind_ret. apply logged_run.
Qed.

End LogFacts.

Section LogExamples.

Lemma DoCmdLog_arity_witness :
  exists tr,
    DoCmdLog (Toy.lib 8) ["log"; "ui"; "info"]%string false Toy.scenario
      = Done RESULT_PARAM_ERR tr Toy.scenario /\
    Forall (fun e : Event nat => is_Print e = true) tr.
Proof.
  apply (DoCmdLog_arity (Toy.lib 8) ["log"; "ui"; "info"]%string false Toy.scenario).
  - cbn. lia.
  - cbn. lia.
Defined.

Lemma DoCmdLog_logs_witness :
  DoCmdLog (Toy.lib 8) ["log"; "ui"; "err"; "%d items"]%string false Toy.scenario =
    if 3 =? -1
    then
      Done RESULT_PARAM_ERR
        (printed false stderr ("Invalid level '%s'." ++ LF) [ArgS "err"]) Toy.scenario
    else
      logged (Toy.lib 8) false (Call_PmLogPrint (Some 3%nat) 3 "%s" [ArgS "%d items"])
        (PmLogPrint_ (Toy.lib 8) (Some 3%nat) 3 "%s" [ArgS "%d items"] Toy.scenario).
Proof.
  apply (DoCmdLog_logs (Toy.lib 8) "log" "ui" "err" "%d items" (Some 3%nat) 3 false
           Toy.scenario).
  - reflexivity.
  - reflexivity.
Defined.

End LogExamples.

(** ** [set] with the name of one context *)

Section SetExact.
Context {W Ctx : Type} (lib : PmLogLib W Ctx) (libc : Libc W Ctx).

(** X15: [DoCmdSet] with a name without a star that [PmLogFindContext] finds
    and a level the library knows (-1 included) prints the notice and
    calls [PmLogSetContextLevel] once, for the context found, without
    listing the registry; the result is [RESULT_OK] when the call
    succeeds, and otherwise the error is reported and the result is
    [RESULT_RUN_ERR]. *)
Theorem DoCmdSet_exact (cmd p lvl : string) (c : Ctx) (v : Z) flag (w : W) :
  PrvIsWildcardContextName (PrvResolveContextNameAlias lib p) = false ->
  PmLogFindContext lib (PrvResolveContextNameAlias lib p) w = (kPmLogErr_None, Some c) ->
  PmLogStringToLevel lib lvl = Some v ->
  DoCmdSet lib libc [cmd; p; lvl] flag w =
    let '(logErr, w1) := PmLogSetContextLevel lib (Some c) v w in
    Done (if is_kPmLogErr_None logErr then RESULT_OK else RESULT_RUN_ERR)
      (notice_and_call flag v (mkContextInfo (Some c) (PrvResolveContextNameAlias lib p))
       ++ (if is_kPmLogErr_None logErr then []
           else printed flag stderr
                  ("Error setting context log level: 0x%08X (%s)" ++ LF)
                  (err_args lib logErr)))
      w1.
Proof.
  intros Hwild Hfind Hlvl. unfold DoCmdSet. cbn [tail DoCmdSet_args].
  rewrite Hwild. cbn [negb]. rewrite bind_bind, bind_read, Hfind.
  cbn [is_kPmLogErr_None negb]. rewrite Hlvl, bind_ret, bind_InfoPrint, bind_call.
  destruct (PmLogSetContextLevel lib (Some c) v w) as [logErr w1]. cbn [fst snd].
  unfold notice_and_call. cbn [contextName context].
  destruct (is_kPmLogErr_None logErr); cbn [negb]; repeat run_step; cbn [after].
  - now rewrite !app_nil_r.
  - now rewrite app_nil_r, <- !app_assoc.
Qed.

End SetExact.

Section SetExactExamples.

Lemma DoCmdSet_exact_witness :
  DoCmdSet (Toy.lib 8) Toy.libc ["set"; "ui"; "none"]%string false Toy.scenario =
    let '(logErr, w1) :=
      PmLogSetContextLevel (Toy.lib 8) (Some 3%nat) (-1) Toy.scenario in
    Done (if is_kPmLogErr_None logErr then RESULT_OK else RESULT_RUN_ERR)
      (notice_and_call false (-1)
         (mkContextInfo (Some 3%nat) (PrvResolveContextNameAlias (Toy.lib 8) "ui"))
       ++ (if is_kPmLogErr_None logErr then []
           else printed false stderr
                  ("Error setting context log level: 0x%08X (%s)" ++ LF)
                  (err_args (Toy.lib 8) logErr)))
      w1.
Proof.
  apply (DoCmdSet_exact (Toy.lib 8) Toy.libc "set" "ui" "none" 3%nat (-1) false
           Toy.scenario).
  - reflexivity.
  - reflexivity.
  - reflexivity.
Defined.

End SetExactExamples.

(** ** The [klog] command *)

Section KLogFacts.
Context {W Ctx : Type} (lib : PmLogLib W Ctx) (libc : Libc W Ctx).

(** X16: [WriteKMsg], once [/dev/kmsg] is open, writes one text: the priority
    in angle brackets, cut to the seven characters the priority buffer of
    eight bytes has room for, the message and a newline; without the
    priority when it is negative.  The cut is reported, and so is a
    failing write, which makes the result [RESULT_RUN_ERR]. *)
Theorem WriteKMsg_text (priority : Z) (msgStr : string) flag (w : W) :
  fopen_kmsg libc w = None ->
  let text := (substring 0 7 (kmsg_prefix priority) ++ msgStr ++ LF)%string in
  WriteKMsg (Ctx := Ctx) libc priority msgStr flag w =
    let '((n, err), w1) := fprintf_kmsg libc text w in
    Done (if n <? 0 then RESULT_RUN_ERR else RESULT_OK)
      ((if strlen (kmsg_prefix priority) >=? 8
        then printed flag stderr ("mysprintf buffer overflow" ++ LF) []
        else [])
       ++ [Call_kmsg_write text]
       ++ (if n <? 0
           then printed flag stderr "Error writing %s: %s"
                  [ArgS "/dev/kmsg"; ArgS (strerror libc err)]
           else []))
      w1.
Proof.
  intros Hopen text. unfold WriteKMsg. rewrite bind_read, Hopen.
  assert (Hfin : forall (priorityStr : string) (tr : list (Event Ctx)),
             after tr
               (bind (call (Call_kmsg_write (priorityStr ++ msgStr ++ LF))
                        (fprintf_kmsg libc (priorityStr ++ msgStr ++ LF)))
                  (fun r =>
                     let '(n, err) := r in
                     if n <? 0
                     then
                       bind (ErrPrint "Error writing %s: %s"
                               [ArgS "/dev/kmsg"; ArgS (strerror libc err)])
                         (fun _ => ret RESULT_RUN_ERR)
                     else ret RESULT_OK) flag w)
             = let '((n, err), w1) :=
                 fprintf_kmsg libc (priorityStr ++ msgStr ++ LF)%string w in
               Done (if n <? 0 then RESULT_RUN_ERR else RESULT_OK)
                 (tr ++ [Call_kmsg_write (priorityStr ++ msgStr ++ LF)%string]
                  ++ (if n <? 0
                      then printed flag stderr "Error writing %s: %s"
                             [ArgS "/dev/kmsg"; ArgS (strerror libc err)]
                      else []))
                 w1).
  { intros priorityStr tr. rewrite bind_call.
    destruct (fprintf_kmsg libc (priorityStr ++ msgStr ++ LF)%string w)
      as [[n err] w1]. cbn [fst snd].
    destruct (n <? 0); repeat run_step; cbn [after]; now rewrite ?app_nil_r. }
  unfold text, kmsg_prefix. destruct (priority >=? 0).
  - unfold mysprintf. change (8 <? 1) with false. cbv iota.
    destruct (strlen ("<" ++ decimal priority ++ ">") >=? 8) eqn:E.
    + rewrite !bind_bind, bind_ErrPrint, bind_ret.
      change (Z.to_nat (8 - 1)) with 7%nat. apply Hfin.
    + rewrite bind_ret. rewrite Z.geb_leb in E. apply Z.leb_gt in E.
      rewrite substring_all by (unfold strlen in E; lia).
      rewrite <- (Hfin _ []). now rewrite after_nil.
  - rewrite bind_ret. cbn [substring].
    rewrite <- (Hfin _ []). now rewrite after_nil.
Qed.

(** What the argument loop of [DoCmdKLog] can end with. *)
Lemma DoCmdKLog_args_message (n : nat) flag (w : W) :
  forall rest level msg0 x tr w',
    (length rest <= n)%nat ->
    DoCmdKLog_args lib rest level msg0 flag w = Done x tr w' ->
    match x with
    | inl r => r = RESULT_PARAM_ERR
    | inr (_, m) =>
        tr = [] /\ w' = w /\
        match m with
        | Some m' => msg0 = Some m' \/ (In m' rest /\ starts_with_dash m' = false)
        | None => msg0 = None
        end
    end.
Proof.
  induction n as [|n IH]; intros [|arg rest] level msg0 x tr w' Hlen;
    cbn [length] in Hlen; try lia; cbn [DoCmdKLog_args].
  - intros [= <- <- <-]. destruct msg0; auto.
  - intros [= <- <- <-]. destruct msg0; auto.
  - fold (starts_with_dash arg). destruct (starts_with_dash arg) eqn:Hdash.
    + destruct (strcmp arg "-p" =? 0).
      * destruct rest as [|arg2 rest].
        -- repeat run_step. cbn [after]. now intros [= <- _ _].
        -- destruct (PmLogStringToLevel lib arg2) as [v|].
           ++ intros Hrun. apply IH in Hrun; [|cbn [length] in Hlen; lia].
              destruct x as [r|[l m]]; [exact Hrun|].
              destruct Hrun as (-> & -> & Hrun). split; [reflexivity|].
              split; [reflexivity|]. destruct m as [m|]; [|exact Hrun].
              destruct Hrun as [Hrun|[Hin Hm]]; [now left|right].
              split; [right; right; exact Hin|exact Hm].
           ++ repeat run_step. cbn [after]. now intros [= <- _ _].
      * repeat run_step. cbn [after]. now intros [= <- _ _].
    + destruct msg0 as [m0|].
      * repeat run_step. cbn [after]. now intros [= <- _ _].
      * intros Hrun. apply IH in Hrun; [|lia].
        destruct x as [r|[l m]]; [exact Hrun|].
        destruct Hrun as (-> & -> & Hrun). split; [reflexivity|].
        split; [reflexivity|]. destruct m as [m|]; [|discriminate].
        destruct Hrun as [[= <-]|[Hin Hm]]; right.
        -- split; [now left|exact Hdash].
        -- split; [now right|exact Hm].
Qed.

(** X17: Whenever [DoCmdKLog] gets past its arguments, that is unless it
    returns [RESULT_PARAM_ERR], what it does is one [WriteKMsg] of one of
    its arguments, and that argument does not begin with a dash: a
    message that begins with a dash cannot be logged. *)
Theorem DoCmdKLog_message (argv : list string) flag (w : W) r tr w' :
  DoCmdKLog lib libc argv flag w = Done r tr w' ->
  r <> RESULT_PARAM_ERR ->
  exists level msg,
    In msg (tail argv) /\
    starts_with_dash msg = false /\
    DoCmdKLog lib libc argv flag w = WriteKMsg libc level msg flag w.
Proof.
  intros Hrun Hr. unfold DoCmdKLog in Hrun |- *.
  pose proof (DoCmdKLog_args_message (length (tail argv)) flag w (tail argv)
                (kPmLogLevel_Notice lib) None) as Hmsg.
  unfold bind in Hrun |- *.
  destruct (DoCmdKLog_args lib (tail argv) (kPmLogLevel_Notice lib) None flag w)
    as [x tr1 w1| |]; [|discriminate..].
  specialize (Hmsg x tr1 w1 (Nat.le_refl _) eq_refl).
  destruct x as [r1|[level m]].
  - subst r1. cbn in Hrun. injection Hrun as <- _ _. contradiction.
  - destruct Hmsg as (-> & -> & Hmsg). destruct m as [msg|].
    + destruct Hmsg as [|[Hin Hm]]; [discriminate|].
      exists level, msg. split; [exact Hin|]. split; [exact Hm|].
      now destruct (WriteKMsg libc level msg flag w).
    + destruct flag; cbn in Hrun; injection Hrun as <- _ _; contradiction.
Qed.

(** X18: The level option of [klog] may stand before or behind the message,
    and without it the level is notice. *)
Theorem DoCmdKLog_option_order (cmd lvl msg : string) (v : Z) flag (w : W) :
  PmLogStringToLevel lib lvl = Some v ->
  starts_with_dash msg = false ->
  DoCmdKLog lib libc [cmd; msg] flag w
    = WriteKMsg libc (kPmLogLevel_Notice lib) msg flag w /\
  DoCmdKLog lib libc [cmd; "-p"; lvl; msg]%string flag w = WriteKMsg libc v msg flag w /\
  DoCmdKLog lib libc [cmd; msg; "-p"; lvl]%string flag w = WriteKMsg libc v msg flag w.
Proof.
  intros Hlvl Hdash. unfold DoCmdKLog. cbn [tail DoCmdKLog_args].
  fold (starts_with_dash msg). rewrite Hdash.
  change (Ascii.eqb "-" "-") with true. cbv iota.
  change (strcmp "-p" "-p" =? 0) with true. cbv iota. rewrite Hlvl.
  repeat split; now rewrite bind_ret.
Qed.

End KLogFacts.

Section KLogExamples.

Lemma WriteKMsg_text_witness :
  WriteKMsg (Ctx := nat) Toy.libc 3 "disk full" false Toy.scenario =
    let '((n, err), w1) :=
      fprintf_kmsg Toy.libc (substring 0 7 (kmsg_prefix 3) ++ "disk full" ++ LF)
        Toy.scenario in
    Done (if n <? 0 then RESULT_RUN_ERR else RESULT_OK)
      ((if strlen (kmsg_prefix 3) >=? 8
        then printed false stderr ("mysprintf buffer overflow" ++ LF) []
        else [])
       ++ [Call_kmsg_write (substring 0 7 (kmsg_prefix 3) ++ "disk full" ++ LF)]
       ++ (if n <? 0
           then printed false stderr "Error writing %s: %s"
                  [ArgS "/dev/kmsg"; ArgS (strerror Toy.libc err)]
           else []))
      w1.
Proof.
  apply (WriteKMsg_text Toy.libc 3 "disk full" false Toy.scenario).
  reflexivity.
Defined.

Lemma DoCmdKLog_message_witness :
  exists level msg,
    In msg (tail ["klog"; "-p"; "err"; "disk full"]%string) /\
    starts_with_dash msg = false /\
    DoCmdKLog (Toy.lib 8) Toy.libc ["klog"; "-p"; "err"; "disk full"]%string false
      Toy.scenario
    = WriteKMsg Toy.libc level msg false Toy.scenario.
Proof.
  eapply (DoCmdKLog_message (Toy.lib 8) Toy.libc
            ["klog"; "-p"; "err"; "disk full"]%string false Toy.scenario RESULT_OK).
  - vm_compute. reflexivity.
  - discriminate.
Defined.

Lemma DoCmdKLog_option_order_witness :
  DoCmdKLog (Toy.lib 8) Toy.libc ["klog"; "disk full"]%string false Toy.scenario
    = WriteKMsg Toy.libc (kPmLogLevel_Notice (Toy.lib 8)) "disk full" false
        Toy.scenario /\
  DoCmdKLog (Toy.lib 8) Toy.libc ["klog"; "-p"; "err"; "disk full"]%string false
    Toy.scenario
    = WriteKMsg Toy.libc 3 "disk full" false Toy.scenario /\
  DoCmdKLog (Toy.lib 8) Toy.libc ["klog"; "disk full"; "-p"; "err"]%string false
    Toy.scenario
    = WriteKMsg Toy.libc 3 "disk full" false Toy.scenario.
Proof.
  apply (DoCmdKLog_option_order (Toy.lib 8) Toy.libc "klog" "err" "disk full" 3 false
           Toy.scenario).
  - reflexivity.
  - reflexivity.
Defined.

End KLogExamples.

(** ** [def] of a new context *)

Section DefNew.
Context {W Ctx : Type} (lib : PmLogLib W Ctx).

(** X19: [DoCmdDef] for a name [PmLogFindContext] does not find: the context
    is obtained with [PmLogGetContext] and, when a level is given (and is
    not the value -999 that stands for no level), its level is then set.
    A level that cannot be set leaves the context defined: the result is
    [RESULT_RUN_ERR] in the state after [PmLogGetContext]. *)
Theorem DoCmdDef_defines (cmd name lvl : string) (v : Z) e c0 flag (w : W) :
  PmLogFindContext lib (PrvResolveContextNameAlias lib name) w = (e, c0) ->
  e <> kPmLogErr_None ->
  let m := PrvResolveContextNameAlias lib name in
  let defined (then_ : option Ctx -> W -> Outcome W Ctx Result) :=
    let '((logErr, c), w1) := PmLogGetContext lib m w in
    after [Call_PmLogGetContext m]
      (if is_kPmLogErr_None logErr then then_ c w1
       else
         Done RESULT_RUN_ERR
           (printed flag stderr ("Error defining context: 0x%08X (%s)" ++ LF)
              (err_args lib logErr)) w1) in
  DoCmdDef lib [cmd; name] flag w = defined (fun _ w1 => Done RESULT_OK [] w1) /\
  (PmLogStringToLevel lib lvl = Some v ->
   v <> kLevelNotSpecified ->
   DoCmdDef lib [cmd; name; lvl] flag w =
     defined
       (fun c w1 =>
          let '(logErr, w2) := PmLogSetContextLevel lib c v w1 in
          after [Call_PmLogSetContextLevel c v]
            (if is_kPmLogErr_None logErr then Done RESULT_OK [] w2
             else
               Done RESULT_RUN_ERR
                 (printed flag stderr
                    ("Error setting context log level: 0x%08X (%s)" ++ LF)
                    (err_args lib logErr)) w2))).
Proof.
  intros Hfind He m defined.
  assert (Hnone : is_kPmLogErr_None e = false) by (destruct e; [contradiction|auto..]).
  split.
  - unfold DoCmdDef, defined, m. cbn [tail DoCmdDef_args].
    rewrite bind_bind, bind_read, Hfind, Hnone, bind_ret, bind_call.
    destruct (PmLogGetContext lib (PrvResolveContextNameAlias lib name) w)
      as [[logErr c] w1]. cbn [fst snd].
    change (kLevelNotSpecified =? kLevelNotSpecified) with true.
    destruct (is_kPmLogErr_None logErr); cbn [negb]; repeat run_step; cbn [after];
      now rewrite ?app_nil_r.
  - intros Hlvl Hv. unfold DoCmdDef, defined, m. cbn [tail DoCmdDef_args].
    rewrite bind_bind, bind_read, Hfind, Hnone, Hlvl, bind_ret, bind_call.
    destruct (PmLogGetContext lib (PrvResolveContextNameAlias lib name) w)
      as [[logErr c] w1]. cbn [fst snd].
    destruct (v =? kLevelNotSpecified) eqn:E; [apply Z.eqb_eq in E; contradiction|].
    destruct (is_kPmLogErr_None logErr); cbn [negb].
    + rewrite bind_call.
      destruct (PmLogSetContextLevel lib c v w1) as [e2 w2]. cbn [fst snd].
      destruct (is_kPmLogErr_None e2); cbn [negb]; repeat run_step; cbn [after];
        now rewrite ?app_nil_r.
    + repeat run_step. cbn [after]. now rewrite ?app_nil_r.
Qed.

End DefNew.

Section DefNewExamples.

Lemma DoCmdDef_defines_witness :
  DoCmdDef (Toy.lib 8) ["def"; "audio"]%string false Toy.scenario =
    Done RESULT_OK [Call_PmLogGetContext "audio"]
      (Toy.scenario ++ [Toy.mkCtx "audio" 6 false]) /\
  DoCmdDef (Toy.lib 8) ["def"; "audio"; "err"]%string false Toy.scenario =
    Done RESULT_OK
      [Call_PmLogGetContext "audio"; Call_PmLogSetContextLevel (Some 4%nat) 3]
      (Toy.scenario ++ [Toy.mkCtx "audio" 3 false]).
Proof.
  destruct (DoCmdDef_defines (Toy.lib 8) "def" "audio" "err" 3 (kPmLogErr_Lib 13) None
              false Toy.scenario) as [H1 H2].
  - reflexivity.
  - discriminate.
  - split.
    + rewrite H1. reflexivity.
    + rewrite H2; [reflexivity|reflexivity|discriminate].
Defined.

End DefNewExamples.

(** ** [main]: the command line *)

Section MainFacts.
Context {W Ctx : Type} (lib : PmLogLib W Ctx) (libc : Libc W Ctx).
Variable DoCmdView : list string -> M W Ctx Result.

Lemma argc_ge_2 (a b : string) (rest : list string) :
  (Z.of_nat (length (a :: b :: rest)) <? 2) = false.
Proof. apply Z.ltb_ge. cbn [length]. lia. Qed.

(** What [ShowUsage] prints. *)
Lemma ShowUsage_run flag (w : W) :
  exists usage,
    ShowUsage lib flag w = Done tt usage w /\
    Forall (fun e => is_Print e = true) usage /\
    (flag = true -> usage = []) /\
    (flag = false -> length usage = 29%nat).
Proof.
  destruct flag.
  - exists []. split; [reflexivity|]. split; [constructor|].
    split; [reflexivity|discriminate].
  - eexists. split; [reflexivity|]. split; [repeat constructor|].
    split; [discriminate|reflexivity].
Qed.

(** X20: [help] and [-help], whatever follows them, print the 29 lines of the
    usage text, touch nothing and end the process with [EXIT_FAILURE];
    behind [-s] nothing at all is printed. *)
Theorem main_help (prog : string) (rest : list string) (w : W) :
  exists usage,
    ShowUsage lib false w = Done tt usage w /\
    Forall (fun e => is_Print e = true) usage /\
    length usage = 29%nat /\
    main lib libc DoCmdView (prog :: "help" :: rest)%string w
      = Done EXIT_FAILURE usage w /\
    main lib libc DoCmdView (prog :: "-help" :: rest)%string w
      = Done EXIT_FAILURE usage w /\
    main lib libc DoCmdView (prog :: "-s" :: "help" :: rest)%string w
      = Done EXIT_FAILURE [] w.
Proof.
  destruct (ShowUsage_run false w) as (usage & Hrun & Hpr & _ & Hlen).
  destruct (ShowUsage_run true w) as (usage' & Hrun' & _ & Hnil & _).
  rewrite (Hnil eq_refl) in Hrun'.
  exists usage. split; [exact Hrun|]. split; [exact Hpr|].
  split; [now apply Hlen|].
  unfold main, main_plan. rewrite !argc_ge_2. cbn [lookup list_lookup drop].
  change (strncmp "help" "-s" 2 =? 0) with false.
  change (strncmp "-help" "-s" 2 =? 0) with false.
  change (strncmp "-s" "-s" 2 =? 0) with true. cbv iota.
  unfold dispatch.
  repeat match goal with
         | |- context [strcmp ?a ?b =? 0] =>
             let v := eval vm_compute in (strcmp a b =? 0) in
             change (strcmp a b =? 0) with v
         end.
  cbn [orb]. cbv iota. unfold finish.
  rewrite !bind_bind.
  rewrite (bind_Done _ _ false w tt usage w Hrun).
  rewrite (bind_Done _ _ true w tt [] w Hrun').
  repeat run_step. cbn [Result_eqb]. repeat run_step. cbn [after].
  now rewrite ?app_nil_r.
Qed.

(** X21: Without a command word [main] reports it and suggests the help; with
    a first argument that begins with [-s] and nothing behind it, [main]
    fails without a word, the silence flag being set by then. *)
Theorem main_no_command (prog x : string) (w : W) :
  main lib libc DoCmdView [prog] w =
    Done EXIT_FAILURE
      [Print stderr (COMPONENT_PREFIX ++ "No command specified." ++ LF) [];
       Print stderr (COMPONENT_PREFIX ++ "Use -help for usage information." ++ LF) []]
      w /\
  main lib libc DoCmdView [prog; ("-s" ++ x)%string] w = Done EXIT_FAILURE [] w.
Proof. split; reflexivity. Qed.

(** X22: Any first argument that begins with [-s] is the silence option: what
    follows the two characters is ignored. *)
Theorem main_silence_prefix (prog x : string) (rest : list string) (w : W) :
  main lib libc DoCmdView (prog :: ("-s" ++ x)%string :: rest) w
  = main lib libc DoCmdView (prog :: "-s"%string :: rest) w.
Proof.
  unfold main, main_plan. rewrite !argc_ge_2. cbn [lookup list_lookup drop].
  reflexivity.
Qed.

Lemma strcmp_other (a b : string) :
  cstring a -> cstring b -> a <> b -> (strcmp a b =? 0) = false.
Proof.
  intros Ha Hb Hne. apply Z.eqb_neq. intros H. now apply strcmp_eq_0 in H.
Qed.

(** X23: A first argument that is a C string, does not begin with [-s] and is
    none of the command words is reported as an invalid command, with
    the suggestion of the help; nothing else happens and the process ends
    with [EXIT_FAILURE]. *)
Theorem main_unknown_command (prog cmd : string) (rest : list string) (w : W) :
  cstring cmd ->
  strncmp cmd "-s" 2 <> 0 ->
  ~ In cmd commands ->
  main lib libc DoCmdView (prog :: cmd :: rest) w =
    Done EXIT_FAILURE
      [Print stderr (COMPONENT_PREFIX ++ "Invalid command '%s'" ++ LF) [ArgS cmd];
       Print stderr (COMPONENT_PREFIX ++ "Use -help for usage information." ++ LF) []]
      w.
Proof.
  intros Hc Hs Hcmd. unfold main, main_plan. rewrite argc_ge_2.
  cbn [lookup list_lookup drop].
  destruct (strncmp cmd "-s" 2 =? 0) eqn:E; [apply Z.eqb_eq in E; contradiction|].
  unfold dispatch.
  rewrite !(strcmp_other cmd) by
    (try reflexivity; try assumption; intros ->; apply Hcmd; cbn; tauto).
  reflexivity.
Qed.

End MainFacts.

Section MainExamples.

Lemma main_unknown_command_witness :
  main (Toy.lib 8) Toy.libc Toy.view_absent ("PmLogCtl" :: "list" :: ["ui"])%string
    Toy.scenario =
    Done EXIT_FAILURE
      [Print stderr (COMPONENT_PREFIX ++ "Invalid command '%s'" ++ LF) [ArgS "list"];
       Print stderr (COMPONENT_PREFIX ++ "Use -help for usage information." ++ LF) []]
      Toy.scenario.
Proof.
  apply (main_unknown_command (Toy.lib 8) Toy.libc Toy.view_absent "PmLogCtl" "list"
           ["ui"%string] Toy.scenario).
  - reflexivity.
  - vm_compute. discriminate.
  - cbn. intuition discriminate.
Defined.

End MainExamples.

(** ** [logkv] with three parameters, and at the debug level *)

Section LogKVShort.
Context {W Ctx : Type} (lib : PmLogLib W Ctx).

(** [DoCmdLogKV] with the three parameters it requires, up to the call of
    [PmLogString]. *)
Lemma DoCmdLogKV_three (cmd cname lvl x : string) (c : option Ctx) (v : Z)
    flag (w : W) :
  PmLogFindContext lib (PrvResolveContextNameAlias lib cname) w = (kPmLogErr_None, c) ->
  PmLogStringToLevel lib lvl = Some v ->
  v <> -1 ->
  DoCmdLogKV lib [cmd; cname; lvl; x] flag w =
    if v =? kPmLogLevel_Debug lib
    then
      logged lib flag (Call_PmLogString c v None None (Some x))
        (PmLogString lib c v None None (Some x) w)
    else
      logged lib flag (Call_PmLogString c v (Some x) (Some EmptyString) None)
        (PmLogString lib c v (Some x) (Some EmptyString) None w).
Proof.
  intros Hfind Hlvl Hv. set (argv := [cmd; cname; lvl; x]).
  unfold DoCmdLogKV. change (Z.of_nat (length argv) <? 4) with false. cbv iota.
  change (S (length argv)) with 5%nat. unfold bind at 1.
  rewrite (DoCmdLogKV_args_context lib _ argv 1 cname) by (cbn; lia || reflexivity).
  rewrite Hfind. cbn [is_kPmLogErr_None negb].
  rewrite (DoCmdLogKV_args_level lib _ argv (1 + 1) lvl) by (cbn; lia || reflexivity).
  rewrite Hlvl.
  destruct (v =? -1) eqn:E1; [apply Z.eqb_eq in E1; contradiction|].
  destruct (v =? kPmLogLevel_Debug lib) eqn:Hd.
  - rewrite (DoCmdLogKV_args_msg lib _ argv (1 + 1 + 1))
      by (cbn; lia || now rewrite Hd).
    change (argv !! Z.to_nat (1 + 1 + 1)) with (Some x).
    rewrite DoCmdLogKV_args_exit by (cbn; lia).
    cbn [kv_contextName kv_levelIntP kv_msgID kv_kvPair kv_msg kv_context].
    rewrite Hd. cbn [andb negb]. rewrite bind_ret.
    rewrite (logged_run lib). now destruct (logged lib flag _ _).
  - rewrite (DoCmdLogKV_args_msgID lib _ argv (1 + 1 + 1)) by (cbn; lia || exact Hd).
    change (argv !! Z.to_nat (1 + 1 + 1)) with (Some x).
    rewrite DoCmdLogKV_args_exit by (cbn; lia).
    cbn [kv_contextName kv_levelIntP kv_msgID kv_kvPair kv_msg kv_context].
    rewrite Hd. cbn [andb negb].
    rewrite (kv_holds_cstr kvPair_zero EmptyString kv_holds_zero). cbn [lift_opt].
    rewrite bind_bind, !bind_ret.
    rewrite (logged_run lib). now destruct (logged lib flag _ _).
Qed.

(** X24: At the debug level [DoCmdLogKV] takes free text only: the third
    parameter is the message, logged without message ID and without
    key/value payload, and any further parameter is refused. *)
Theorem DoCmdLogKV_debug_free_text (cmd cname lvl msg extra : string)
    (rest : list string) (c : option Ctx) flag (w : W) :
  PmLogFindContext lib (PrvResolveContextNameAlias lib cname) w = (kPmLogErr_None, c) ->
  PmLogStringToLevel lib lvl = Some (kPmLogLevel_Debug lib) ->
  kPmLogLevel_Debug lib <> -1 ->
  DoCmdLogKV lib [cmd; cname; lvl; msg] flag w =
    logged lib flag (Call_PmLogString c (kPmLogLevel_Debug lib) None None (Some msg))
      (PmLogString lib c (kPmLogLevel_Debug lib) None None (Some msg) w) /\
  DoCmdLogKV lib (cmd :: cname :: lvl :: msg :: extra :: rest) flag w =
    Done RESULT_PARAM_ERR
      (printed flag stderr ("Invalid parameter '%s'." ++ LF) [ArgS extra]) w.
Proof.
  intros Hfind Hlvl Hv. split.
  - rewrite (DoCmdLogKV_three cmd cname lvl msg c _ flag w Hfind Hlvl Hv).
    now rewrite Z.eqb_refl.
  - destruct (exists_last (l := extra :: rest)) as (mid & last & Heq); [discriminate|].
    rewrite Heq, DoCmdLogKV_unrolled. cbv zeta.
    rewrite Hfind. cbn [is_kPmLogErr_None negb]. rewrite Hlvl.
    destruct (kPmLogLevel_Debug lib =? -1) eqn:E1;
      [apply Z.eqb_eq in E1; contradiction|].
    rewrite Z.eqb_refl, <- Heq. reflexivity.
Qed.

(** X25: At any other level the third parameter is the message ID, and with
    nothing behind it the record is logged with an empty key/value string
    and without a message (a NULL pointer). *)
Theorem DoCmdLogKV_message_ID_only (cmd cname lvl msgID : string) (c : option Ctx)
    (v : Z) flag (w : W) :
  PmLogFindContext lib (PrvResolveContextNameAlias lib cname) w = (kPmLogErr_None, c) ->
  PmLogStringToLevel lib lvl = Some v ->
  v <> -1 ->
  v <> kPmLogLevel_Debug lib ->
  DoCmdLogKV lib [cmd; cname; lvl; msgID] flag w =
    logged lib flag (Call_PmLogString c v (Some msgID) (Some EmptyString) None)
      (PmLogString lib c v (Some msgID) (Some EmptyString) None w).
Proof.
  intros Hfind Hlvl Hv Hd.
  rewrite (DoCmdLogKV_three cmd cname lvl msgID c v flag w Hfind Hlvl Hv).
  destruct (v =? kPmLogLevel_Debug lib) eqn:E; [|reflexivity].
  apply Z.eqb_eq in E. contradiction.
Qed.

(** X26: The two loops of [DoCmdLogKV] end on every argument vector: the inner
    loop, which does not advance while [arg] is NULL, stops at the last
    argument and so never reads behind the arguments. *)
Theorem DoCmdLogKV_terminates (argv : list string) flag (w : W) :
  DoCmdLogKV lib argv flag w <> Fuel.
Proof.
  pose proof (DoCmdLogKV_ensures lib argv flag w) as H. intros E.
  now rewrite E in H.
Qed.

End LogKVShort.

Section LogKVShortExamples.

Lemma DoCmdLogKV_debug_free_text_witness :
  DoCmdLogKV (Toy.lib 8) ["logkv"; "ui"; "debug"; "hello"]%string false Toy.scenario =
    logged (Toy.lib 8) false
      (Call_PmLogString (Some 3%nat) (kPmLogLevel_Debug (Toy.lib 8)) None None
         (Some "hello"%string))
      (PmLogString (Toy.lib 8) (Some 3%nat) (kPmLogLevel_Debug (Toy.lib 8)) None None
         (Some "hello"%string) Toy.scenario) /\
  DoCmdLogKV (Toy.lib 8) ("logkv" :: "ui" :: "debug" :: "hello" :: "a=1" :: [])%string
    false Toy.scenario =
    Done RESULT_PARAM_ERR
      (printed false stderr ("Invalid parameter '%s'." ++ LF) [ArgS "a=1"])
      Toy.scenario.
Proof.
  apply (DoCmdLogKV_debug_free_text (Toy.lib 8) "logkv" "ui" "debug" "hello" "a=1" []
           (Some 3%nat) false Toy.scenario).
  - reflexivity.
  - reflexivity.
  - discriminate.
Defined.

Lemma DoCmdLogKV_message_ID_only_witness :
  DoCmdLogKV (Toy.lib 8) ["logkv"; "ui"; "info"; "BOOT"]%string false Toy.scenario =
    logged (Toy.lib 8) false
      (Call_PmLogString (Some 3%nat) 6 (Some "BOOT"%string) (Some EmptyString) None)
      (PmLogString (Toy.lib 8) (Some 3%nat) 6 (Some "BOOT"%string) (Some EmptyString)
         None Toy.scenario).
Proof.
  apply (DoCmdLogKV_message_ID_only (Toy.lib 8) "logkv" "ui" "info" "BOOT" (Some 3%nat)
           6 false Toy.scenario).
  - reflexivity.
  - reflexivity.
  - discriminate.
  - discriminate.
Defined.

End LogKVShortExamples.

(** ** [logkv] keeps within its buffer *)

Section PairsSafe.
Context {W Ctx : Type}.

Lemma scan_set_app (p : ascii -> bool) (s : string) :
  forall x r, scan_set p s = (x, r) -> s = (x ++ r)%string.
Proof.
  induction s as [|a s IH]; intros x r; cbn [scan_set].
  - now intros [= <- <-].
  - destruct (p a).
    + destruct (scan_set p s) as [x' r'] eqn:E. intros [= <- <-].
      cbn [append]. f_equal. now apply IH.
    + now intros [= <- <-].
Qed.

(** When [sscanf] converts both items they are C strings, and together
    with the equals sign they are no longer than the token. *)
Lemma sscanf_kv_two (t : string) (n : Z) (k v : option string) :
  cstring t ->
  sscanf_kv t = (n, k, v) ->
  (2 >? n) = false ->
  exists key value,
    k = Some key /\ v = Some value /\ cstring key /\ cstring value /\
    (String.length key + String.length value + 1 <= String.length t)%nat.
Proof.
  intros Ht. unfold sscanf_kv. destruct t as [|a t]; [now intros [= <- _ _]|].
  destruct (scan_set not_equals_sign (String a t)) as [key r1] eqn:E1.
  apply scan_set_app in E1.
  destruct key as [|ka key]; [now intros [= <- _ _]|].
  destruct r1 as [|c r2]; [now intros [= <- _ _]|].
  destruct (scan_set not_tab_newline r2) as [value r3] eqn:E2.
  apply scan_set_app in E2.
  destruct value as [|va value]; [now intros [= <- _ _]|].
  intros [= <- <- <-] _. exists (String ka key), (String va value).
  split; [reflexivity|]. split; [reflexivity|].
  unfold cstring in *. rewrite E1, nul_free_app in Ht.
  apply andb_true_iff in Ht as [Hk Hr]. apply nul_free_cons in Hr as [_ Hr].
  rewrite E2, nul_free_app in Hr. apply andb_true_iff in Hr as [Hv _].
  split; [exact Hk|]. split; [exact Hv|].
  rewrite E1, string_length_app. cbn [String.length].
  rewrite E2, string_length_app. cbn [String.length]. lia.
Qed.

Lemma kv_holds_brace (b : list ascii) (acc : string) :
  kv_holds b acc ->
  exists b', buf_snprintf b 0 sizeof_kvPair "{}" = Some b' /\ kv_holds b' "{}".
Proof.
  intros (_ & Hlen & _). change (Z.to_nat sizeof_kvPair) with 1024%nat in Hlen.
  unfold buf_snprintf. change (sizeof_kvPair =? 0) with false.
  change (0 <? 0) with false. cbv iota.
  change (Z.to_nat (Z.min (sizeof_kvPair - 1) (strlen "{}"))) with 2%nat.
  cbn [list_ascii_of_string take app]. unfold buf_write. cbn [length Nat.add].
  rewrite Hlen. cbn [Nat.leb]. eexists. split; [reflexivity|].
  change (Z.to_nat 0) with 0%nat. cbn [take app Nat.add].
  split; [reflexivity|]. split.
  - change (Z.to_nat sizeof_kvPair) with 1024%nat. rewrite take_0. cbn [app length].
    rewrite length_drop, Hlen. reflexivity.
  - rewrite take_0. cbn [list_ascii_of_string app]. eexists. reflexivity.
Qed.

(** One turn of the inner loop on any token that is a C string, with room
    in the buffer: it returns [RESULT_PARAM_ERR], or it goes on with a
    buffer that holds a string and has grown by no more than the token
    needs. *)
Lemma DoCmdLogKV_pairs_turn_safe (fuel : nat) (argv : list string) (p index : Z)
    (t : string) (result : bool) (kvPair : list ascii) (acc : string) flag (w : W) :
  0 <= p < Z.of_nat (length argv) - 1 ->
  cstring t ->
  kv_holds kvPair acc ->
  index = strlen acc ->
  (String.length (open_acc acc) + String.length t + 3 < 1024)%nat ->
  (exists tr,
     DoCmdLogKV_pairs (Ctx := Ctx) (S fuel) argv p (Some t) index result kvPair flag w
     = Done (inl RESULT_PARAM_ERR) tr w) \/
  (exists kvPair' acc' index' result' tr,
     kv_holds kvPair' acc' /\
     (p < Z.of_nat (length argv) - 2 -> index' = strlen acc') /\
     (1 <= String.length acc')%nat /\
     (String.length acc' <= String.length (open_acc acc) + String.length t + 3)%nat /\
     DoCmdLogKV_pairs (Ctx := Ctx) (S fuel) argv p (Some t) index result kvPair flag w
     = after tr
         (DoCmdLogKV_pairs fuel argv (p + 1) (argv !! Z.to_nat (p + 1)) index' result'
            kvPair' flag w)).
Proof.
  intros Hp Ht Hb Hindex Hfit.
  pose proof (open_acc_length acc) as Hopen.
  assert (Hopened : exists kvPair1,
             kv_holds kvPair1 (open_acc acc) /\
             (if index =? 0
              then do b <- lift_opt (buf_strncat kvPair "{" 1);
                   ret (W := W) (Ctx := Ctx) (b, index + 1)
              else ret (kvPair, index)) flag w
             = Done (kvPair1, strlen (open_acc acc)) [] w).
  { destruct acc as [|a acc].
    - subst index. change (strlen EmptyString =? 0) with true. cbv iota.
      destruct (kv_holds_strncat kvPair EmptyString "{" Hb) as (b1 & Hcat & Hb1);
        [discriminate|simpl; lia|].
      exists b1. split; [exact Hb1|]. rewrite Hcat. reflexivity.
    - exists kvPair. split; [exact Hb|]. subst index.
      destruct (strlen (String a acc) =? 0) eqn:E; [|reflexivity].
      apply Z.eqb_eq in E. unfold strlen in E. simpl in E. lia. }
  destruct Hopened as (kvPair1 & Hb1 & Hopened).
  cbn [DoCmdLogKV_pairs].
  destruct (p <? Z.of_nat (length argv)) eqn:E1; [|apply Z.ltb_ge in E1; lia].
  destruct (p =? Z.of_nat (length argv) - 1) eqn:E2; [apply Z.eqb_eq in E2; lia|].
  cbn [negb]. rewrite (bind_Done _ _ flag w _ _ _ Hopened), after_nil.
  destruct (sscanf_kv t) as [[n k] v] eqn:Hscan.
  destruct (2 >? n) eqn:Hn.
  - (* the token is refused *)
    rewrite bind_bind, bind_ErrPrint, bind_ret.
    destruct result; cbn [negb].
    + right. exists kvPair1, (open_acc acc), (strlen (open_acc acc)), true.
      eexists. split; [exact Hb1|]. split; [reflexivity|]. split; [exact Hopen|].
      split; [lia|].
      destruct (DoCmdLogKV_pairs fuel argv (p + 1) _ _ true kvPair1 flag w);
        cbn [after app]; reflexivity.
    + left. rewrite ret_run. cbn [after app]. eexists. reflexivity.
  - (* the token is taken *)
    destruct (sscanf_kv_two t n k v Ht Hscan Hn)
      as (key & value & -> & -> & Hk & Hv & Hlen).
    pose proof (kv_entry_cstring key value Hk Hv) as Hec.
    pose proof (kv_entry_length key value) as Hel. unfold strlen in Hel.
    assert (Hel' : String.length (kv_entry key value)
                   = (String.length key + 3 + String.length value)%nat) by lia.
    destruct (kv_holds_snprintf kvPair1 (open_acc acc) (kv_entry key value) Hb1 Hec)
      as (b2 & Hprint & Hb2); [lia|].
    assert (Hlen2 : (String.length (open_acc acc ++ kv_entry key value) + 1 < 1024)%nat)
      by (rewrite string_length_app; lia).
    cbn [lift_opt].
    rewrite bind_bind, bind_ret, bind_bind, bind_ret, bind_bind, Hprint.
    cbn [lift_opt]. rewrite bind_ret.
    right.
    destruct (p =? Z.of_nat (length argv) - 2) eqn:E3.
    + destruct (kv_holds_strncat b2 _ "}" Hb2) as (b3 & Hcat & Hb3);
        [discriminate|exact Hlen2|].
      exists b3, ((open_acc acc ++ kv_entry key value) ++ "}")%string,
        (strlen (open_acc acc)), true, [].
      split; [exact Hb3|]. split; [apply Z.eqb_eq in E3; lia|].
      rewrite !string_length_app. cbn [String.length]. split; [lia|]. split; [lia|].
      rewrite bind_bind, Hcat. cbn [lift_opt]. rewrite bind_ret.
      assert (Hint : strlen key + 2 + 1 + strlen value <= INT_MAX)
        by (unfold strlen, INT_MAX; lia).
      apply Z.leb_le in Hint. rewrite Hint, bind_ret. cbn [negb].
      destruct (DoCmdLogKV_pairs fuel argv (p + 1) _ _ true b3 flag w); reflexivity.
    + destruct (kv_holds_strncat b2 _ "," Hb2) as (b3 & Hcat & Hb3);
        [discriminate|exact Hlen2|].
      exists b3, ((open_acc acc ++ kv_entry key value) ++ ",")%string,
        (strlen (open_acc acc) + (strlen key + 2 + 1 + strlen value + 1)), true, [].
      split; [exact Hb3|]. split.
      { intros _. unfold strlen. rewrite !string_length_app. cbn [String.length]. lia. }
      rewrite !string_length_app. cbn [String.length]. split; [lia|]. split; [lia|].
      rewrite bind_bind, Hcat. cbn [lift_opt]. rewrite bind_ret.
      assert (Hint : strlen (open_acc acc) + (strlen key + 2 + 1 + strlen value + 1)
                     <= INT_MAX) by (unfold strlen, INT_MAX; lia).
      apply Z.leb_le in Hint. rewrite Hint, bind_ret. cbn [negb].
      destruct (DoCmdLogKV_pairs fuel argv (p + 1) _ _ true b3 flag w); reflexivity.
Qed.

(** The inner loop over tokens that are C strings and fit the buffer
    never leaves the buffer: it returns early, or it ends with a buffer
    that holds a string. *)
Lemma DoCmdLogKV_pairs_safe (msg : string) flag (w : W) :
  forall (tokens front : list string) (fuel : nat) (index : Z) (result : bool)
         (kvPair : list ascii) (acc : string),
    Forall cstring tokens ->
    kv_holds kvPair acc ->
    (tokens <> [] -> index = strlen acc) ->
    (String.length (open_acc acc) + kv_room tokens < 1024)%nat ->
    match DoCmdLogKV_pairs (Ctx := Ctx) fuel (front ++ tokens ++ [msg])
            (Z.of_nat (length front))
            ((front ++ tokens ++ [msg]) !! Z.to_nat (Z.of_nat (length front)))
            index result kvPair flag w with
    | Done (inl _) _ _ => True
    | Done (inr (_, _, kvPair')) _ _ => exists acc', kv_holds kvPair' acc'
    | Undefined => False
    | Fuel => True
    end.
Proof.
  induction tokens as [|t tokens IH];
    intros front fuel index result kvPair acc Htok Hb Hindex Hfit;
    (destruct fuel as [|fuel]; [exact I|]).
  - cbn [DoCmdLogKV_pairs app].
    assert (Hargc : Z.of_nat (length (front ++ [msg])) = Z.of_nat (length front) + 1)
      by (rewrite length_app; cbn [length]; lia).
    rewrite Hargc.
    destruct (Z.of_nat (length front) <? Z.of_nat (length front) + 1) eqn:E1;
      [|apply Z.ltb_ge in E1; lia].
    destruct (Z.of_nat (length front) =? Z.of_nat (length front) + 1 - 1) eqn:E2;
      [|apply Z.eqb_neq in E2; lia].
    cbn [negb]. destruct (Z.of_nat (length front) =? 4).
    + destruct (kv_holds_brace kvPair acc Hb) as (b' & Hw & Hb').
      rewrite Hw. cbn [lift_opt]. rewrite bind_ret, ret_run. now exists "{}"%string.
    + rewrite ret_run. now exists acc.
  - apply Forall_cons in Htok as [Ht Htok]. cbn [kv_room] in Hfit.
    set (argv := front ++ (t :: tokens) ++ [msg]).
    assert (Hargc : Z.of_nat (length argv)
                    = Z.of_nat (length front) + Z.of_nat (length tokens) + 2).
    { subst argv. rewrite !length_app. cbn [length]. rewrite ?length_app.
      cbn [length]. lia. }
    assert (Harg : argv !! Z.to_nat (Z.of_nat (length front)) = Some t).
    { subst argv. rewrite Nat2Z.id. now apply list_lookup_middle. }
    rewrite Harg.
    destruct (DoCmdLogKV_pairs_turn_safe fuel argv (Z.of_nat (length front)) index t
                result kvPair acc flag w)
      as [(tr & ->) | (kv' & acc' & index' & result' & tr & Hkv' & Hidx & Hne & Hlen
                       & ->)];
      [lia|exact Ht|exact Hb|now apply Hindex|lia|exact I|].
    specialize (IH (front ++ [t]) fuel index' result' kv' acc' Htok Hkv').
    replace (Z.of_nat (length (front ++ [t]))) with (Z.of_nat (length front) + 1) in IH
      by (rewrite length_app; cbn [length]; lia).
    replace ((front ++ [t]) ++ tokens ++ [msg]) with argv in IH
      by (subst argv; now rewrite <- app_assoc).
    destruct (DoCmdLogKV_pairs fuel argv (Z.of_nat (length front) + 1) _ index' result'
                kv' flag w) as [[r|[[p' a'] kv'']] tr' w'| |];
      cbn [after]; try exact I.
    + apply IH.
      * intros Hne'. apply Hidx. destruct tokens; [contradiction|].
        cbn [length] in Hargc. lia.
      * rewrite (open_acc_nonempty acc' Hne). lia.
    + apply IH.
      * intros Hne'. apply Hidx. destruct tokens; [contradiction|].
        cbn [length] in Hargc. lia.
      * rewrite (open_acc_nonempty acc' Hne). lia.
Qed.

End PairsSafe.

Section LogKVSafe.
Context {W Ctx : Type} (lib : PmLogLib W Ctx).

(** X27: [DoCmdLogKV] keeps within its buffer of 1024 bytes: when the
    arguments between the message ID and the message are C strings, well
    formed or not, that with three more characters each and the opening
    brace stay below 1024 characters, the command runs to its end with a
    result; no store leaves the buffer and no index overflows. *)
Theorem DoCmdLogKV_within_buffer (cmd cname lvl msgID : string)
    (tokens : list string) (msg : string) flag (w : W) :
  Forall cstring tokens ->
  (1 + kv_room tokens < 1024)%nat ->
  exists r tr w',
    DoCmdLogKV lib (cmd :: cname :: lvl :: msgID :: tokens ++ [msg]) flag w
    = Done r tr w'.
Proof.
  intros Htok Hfit. rewrite DoCmdLogKV_unrolled. cbv zeta.
  destruct (PmLogFindContext lib (PrvResolveContextNameAlias lib cname) w) as [e c].
  destruct (is_kPmLogErr_None e); cbn [negb]; [|eauto].
  destruct (PmLogStringToLevel lib lvl) as [v|]; [|eauto].
  destruct (v =? -1); [eauto|].
  destruct (v =? kPmLogLevel_Debug lib); [eauto|].
  pose proof (DoCmdLogKV_pairs_safe (Ctx := Ctx) msg flag w tokens
                [cmd; cname; lvl; msgID]
                (length (cmd :: cname :: lvl :: msgID :: tokens ++ [msg]))
                0 false kvPair_zero EmptyString Htok kv_holds_zero
                (fun _ => eq_refl) Hfit) as Hsafe.
  pose proof (DoCmdLogKV_pairs_ensures (W := W) (Ctx := Ctx)
                (cmd :: cname :: lvl :: msgID :: tokens ++ [msg])
                (length (cmd :: cname :: lvl :: msgID :: tokens ++ [msg]))
                4 0 false kvPair_zero) as Hfuel.
  change ([cmd; cname; lvl; msgID] ++ tokens ++ [msg])
    with (cmd :: cname :: lvl :: msgID :: tokens ++ [msg]) in Hsafe.
  change (Z.to_nat (Z.of_nat (length [cmd; cname; lvl; msgID]))) with 4%nat in Hsafe.
  change (Z.of_nat (length [cmd; cname; lvl; msgID])) with 4 in Hsafe.
  specialize (Hfuel ltac:(lia) ltac:(cbn [length]; lia) ltac:(lia) flag w).
  change (Z.to_nat 4) with 4%nat in Hfuel.
  destruct (DoCmdLogKV_pairs _ _ 4 _ 0 false kvPair_zero flag w)
    as [[r|[[p' a'] kv']] tr w1| |]; [eauto| |contradiction..].
  destruct Hsafe as (acc' & Hkv').
  destruct (kv_holds_terminate kv' acc' Hkv') as (kv'' & -> & Hkv'').
  unfold DoCmdLogKV_emit. rewrite (kv_holds_cstr kv'' acc' Hkv'').
  unfold after_PmLogString.
  destruct (PmLogString lib c v (Some msgID) (Some acc') (Some msg) w1) as [e' w2].
  destruct (is_kPmLogErr_None e'); cbn [after]; eauto.
Qed.

End LogKVSafe.

Section LogKVSafeExamples.

Lemma DoCmdLogKV_within_buffer_witness :
  exists r tr w',
    DoCmdLogKV (Toy.lib 8)
      ("logkv" :: "ui" :: "info" :: "ID" :: ["a=1"; "badtoken"; "k="] ++ ["hello"])%string
      false Toy.scenario
    = Done r tr w'.
Proof.
  apply (DoCmdLogKV_within_buffer (Toy.lib 8) "logkv" "ui" "info" "ID"
           ["a=1"; "badtoken"; "k="]%string "hello" false Toy.scenario).
  - repeat constructor.
  - cbn. lia.
Defined.

End LogKVSafeExamples.

(** ** Patterns with text behind the star *)

Section StarSuffix.

Lemma strchr_first (c : ascii) (pre suffix : string) :
  strchr pre c = None ->
  strchr (pre ++ String c suffix) c = Some (String.length pre).
Proof.
  induction pre as [|a pre IH]; cbn [append strchr String.length].
  - now rewrite ascii_eqb_refl.
  - destruct (Ascii.eqb a c); [discriminate|].
    destruct (strchr pre c); [discriminate|]. intros _. now rewrite IH.
Qed.

Lemma memcmp_common_prefix (m1 l x y : list ascii) (n : nat) :
  (n <= length l)%nat -> memcmp m1 (l ++ x) n = memcmp m1 (l ++ y) n.
Proof.
  revert m1 l. induction n as [|n IH]; intros m1 l Hn; [reflexivity|].
  destruct l as [|b l]; [cbn [length] in Hn; lia|].
  destruct m1 as [|a m1]; [reflexivity|]. cbn [app memcmp].
  destruct (Ascii.eqb a b); [|reflexivity].
  apply IH. cbn [length] in Hn. lia.
Qed.

(** X28: Only the first star of a pattern counts, and what follows it is
    ignored: a pattern with text behind its first star matches the same
    names as the pattern cut behind that star. *)
Theorem PrvMatchContextName_first_star (contextName pre suffix : string) :
  strchr pre "*" = None ->
  PrvMatchContextName contextName (Some (pre ++ String "*" suffix)%string)
  = PrvMatchContextName contextName (Some (pre ++ "*")%string).
Proof.
  intros Hpre. unfold PrvMatchContextName.
  rewrite !(strchr_first "*" pre) by exact Hpre.
  destruct (Nat.eqb (String.length pre) 0); [reflexivity|].
  unfold cstr_mem. rewrite !list_ascii_app, <- !app_assoc.
  now rewrite (memcmp_common_prefix _ (list_ascii_of_string pre) _
                 (list_ascii_of_string "*" ++ [NUL]))
    by (rewrite list_ascii_length; lia).
Qed.

End StarSuffix.

Section StarSuffixExamples.

Lemma PrvMatchContextName_first_star_witness :
  PrvMatchContextName "network" (Some ("net" ++ String "*" "wifi")%string)
  = PrvMatchContextName "network" (Some ("net" ++ "*")%string).
Proof.
  apply (PrvMatchContextName_first_star "network" "net" "wifi"). reflexivity.
Defined.

End StarSuffixExamples.

(** ** A fetch that fails during the listing *)

Section ListerErrors.
Context {W Ctx : Type} (lib : PmLogLib W Ctx) (libc : Libc W Ctx).

Lemma fetch_error (w : W) (i : Z) (e : PmLogErr) :
  fetch lib w i = inl e -> is_kPmLogErr_None e = false.
Proof.
  unfold fetch. destruct (PmLogGetIndContext lib i w) as [e1 ctx].
  destruct (is_kPmLogErr_None e1) eqn:E1; cbn [negb]; [|now intros [= <-]].
  destruct (PmLogGetContextName lib ctx w) as [e2 name].
  destruct (is_kPmLogErr_None e2) eqn:E2; cbn [negb]; [discriminate|now intros [= <-]].
Qed.

(** The loop over indices whose fetches succeed up to one that fails, with
    room in the snapshot for the matching entries before it: the loop
    returns the error of that fetch. *)
Lemma PrvGetContextList_loop_fetch_error (w : W) (pat : option string) (e : PmLogErr)
    (k : nat) :
  cstring_opt pat ->
  forall (pre : list (ContextInfo_t Ctx)) (i : nat) (ci : ContextsInfo_t Ctx),
    snapshot_inv lib ci ->
    (forall (j : nat) e', pre !! j = Some e' -> fetch lib w (Z.of_nat (i + j)) = inr e') ->
    fetch lib w (Z.of_nat (i + length pre)) = inl e ->
    numContexts ci + Z.of_nat (length (matching pat pre)) < Z.of_nat (snapshot_slots lib) ->
    exists ci',
      PrvGetContextList_loop lib (length pre + S k) (Z.of_nat i) w pat ci
      = Some (e, ci').
Proof.
  intros Hpat. induction pre as [|e0 pre IH]; intros i ci Hinv Hfetch Hfail Hroom;
    cbn [length Nat.add PrvGetContextList_loop]; rewrite <- slots_Z.
  - cbn [matching List.filter length] in Hroom. rewrite Nat.add_0_r in Hfail.
    pose proof Hinv as [_ Hb].
    destruct ((0 <=? numContexts ci) && (numContexts ci <? Z.of_nat (snapshot_slots lib)))
      eqn:Hguard.
    2:{ apply andb_false_iff in Hguard as [E|E];
          [apply Z.leb_gt in E|apply Z.ltb_ge in E]; lia. }
    unfold fetch in Hfail.
    destruct (PmLogGetIndContext lib (Z.of_nat i) w) as [e1 ctx].
    destruct (store_slot_free lib ci (fun e => mkContextInfo ctx (contextName e)) Hinv)
      as (ci1 & -> & Hinv1 & Hn1 & _ & _); [lia|].
    destruct (is_kPmLogErr_None e1); cbn [negb] in Hfail |- *;
      [|injection Hfail as <-; eauto].
    destruct (PmLogGetContextName lib ctx w) as [e2 name].
    rewrite <- Hn1.
    destruct (store_slot_free lib ci1 (fun e => mkContextInfo (context e) name) Hinv1)
      as (ci2 & -> & Hinv2 & Hn2 & _ & _); [lia|].
    destruct (is_kPmLogErr_None e2); cbn [negb] in Hfail |- *; [discriminate|].
    injection Hfail as <-. eauto.
  - pose proof Hinv as [_ Hb].
    assert (Hm0 : (length (matching pat pre) <= length (matching pat (e0 :: pre)))%nat).
    { cbn [matching List.filter]. unfold matching.
      destruct (PrvMatchContextName (contextName e0) pat) as [[|]|]; cbn [length]; lia. }
    destruct ((0 <=? numContexts ci) && (numContexts ci <? Z.of_nat (snapshot_slots lib)))
      eqn:Hguard.
    2:{ apply andb_false_iff in Hguard as [E|E];
          [apply Z.leb_gt in E|apply Z.ltb_ge in E]; lia. }
    pose proof (Hfetch O e0 eq_refl) as Hf. rewrite Nat.add_0_r in Hf.
    unfold fetch in Hf.
    destruct (PmLogGetIndContext lib (Z.of_nat i) w) as [e1 ctx].
    destruct (store_slot_free lib ci (fun e => mkContextInfo ctx (contextName e)) Hinv)
      as (ci1 & -> & Hinv1 & Hn1 & _ & _); [lia|].
    destruct (is_kPmLogErr_None e1); cbn [negb] in Hf |- *; [|discriminate].
    destruct (PmLogGetContextName lib ctx w) as [e2 name].
    rewrite <- Hn1.
    destruct (store_slot_free lib ci1 (fun e => mkContextInfo (context e) name) Hinv1)
      as (ci2 & -> & Hinv2 & Hn2 & _ & _); [lia|].
    destruct (is_kPmLogErr_None e2); cbn [negb] in Hf |- *; [|discriminate].
    injection Hf as <-. cbn [matching List.filter contextName length] in Hroom.
    assert (Hnext : forall (j : nat) e',
               pre !! j = Some e' -> fetch lib w (Z.of_nat (S i + j)) = inr e').
    { intros j e' Hj. specialize (Hfetch (S j) e' Hj).
      now replace (S i + j)%nat with (i + S j)%nat by lia. }
    assert (Hfail' : fetch lib w (Z.of_nat (S i + length pre)) = inl e).
    { now replace (S i + length pre)%nat with (i + length (mkContextInfo ctx name :: pre))%nat
        by (cbn [length]; lia). }
    replace (Z.of_nat i + 1) with (Z.of_nat (S i)) by lia.
    destruct (PrvMatchContextName name pat) as [[|]|] eqn:Hm.
    + cbn [length] in Hroom.
      destruct (numContexts ci2 >=? Z.of_nat (snapshot_slots lib)) eqn:Hfull.
      { rewrite Z.geb_leb in Hfull. apply Z.leb_le in Hfull. lia. }
      apply IH; [|exact Hnext|exact Hfail'|].
      * destruct Hinv2 as [Hl2 Hb2]. split; cbn [contextInfos numContexts]; [exact Hl2|].
        lia.
      * cbn [numContexts]. unfold matching in Hroom |- *. lia.
    + apply IH; [exact Hinv2|exact Hnext|exact Hfail'|].
      unfold matching in Hroom |- *. lia.
    + exfalso. exact (PrvMatchContextName_defined pat Hpat name Hm).
Qed.

(** X29: When the fetch of a context or of its name fails at an index below the
    count the registry reports, after fetches that succeed and whose
    matching entries fit the snapshot, [PrvGetContextList] returns the
    error of that fetch, which is not [kPmLogErr_None]. *)
Theorem PrvGetContextList_fetch_error (w : W) (pat : option string) (n : Z)
    (pre : list (ContextInfo_t Ctx)) (e : PmLogErr) :
  cstring_opt pat ->
  PmLogGetNumContexts lib w = (kPmLogErr_None, n) ->
  Z.of_nat (length pre) < n ->
  (forall (j : nat) e', pre !! j = Some e' -> fetch lib w (Z.of_nat j) = inr e') ->
  fetch lib w (Z.of_nat (length pre)) = inl e ->
  (length (matching pat pre) <= PMLOG_MAX_NUM_CONTEXTS lib)%nat ->
  e <> kPmLogErr_None /\
  exists ci, PrvGetContextList lib libc w pat = Some (e, ci).
Proof.
  intros Hpat Hn Hlt Hfetch Hfail Hroom.
  pose proof (fetch_error w _ e Hfail) as He.
  split; [intros ->; discriminate|].
  rewrite (PrvGetContextList_unfold lib libc w pat n Hn) by lia.
  destruct (PrvGetContextList_loop_fetch_error w pat e
              (Z.to_nat n - length pre - 1) Hpat pre 0 (ContextsInfo_zero lib))
    as (ci' & Hloop);
    [apply ContextsInfo_zero_inv|exact Hfetch|exact Hfail| |].
  - cbn [ContextsInfo_zero numContexts]. unfold snapshot_slots. lia.
  - replace (length pre + S (Z.to_nat n - length pre - 1))%nat with (Z.to_nat n)
      in Hloop by lia.
    change (Z.of_nat 0) with 0 in Hloop. rewrite Hloop.
    destruct e; [discriminate|eauto..].
Qed.

End ListerErrors.

Section ListerErrorExamples.

Lemma PrvGetContextList_fetch_error_witness :
  kPmLogErr_Lib 2 <> kPmLogErr_None /\
  exists ci,
    PrvGetContextList (Toy.lib_miscounting 8) Toy.libc Toy.three (Some "a*"%string)
    = Some (kPmLogErr_Lib 2, ci).
Proof.
  apply (PrvGetContextList_fetch_error (Toy.lib_miscounting 8) Toy.libc Toy.three
           (Some "a*"%string) 4 (Toy.entries Toy.three) (kPmLogErr_Lib 2)).
  - reflexivity.
  - reflexivity.
  - cbn. lia.
  - intros [|[|[|j]]] e' He'; cbn in He'; try discriminate;
      injection He' as <-; reflexivity.
  - reflexivity.
  - vm_compute. lia.
Defined.

End ListerErrorExamples.

(** ** A first token that [sscanf] does not convert *)

Section LogKVFirstToken.
Context {W Ctx : Type} (lib : PmLogLib W Ctx).

(** X30: When the first argument behind the message ID is a token of which
    [sscanf] converts fewer than two items (no equals sign, an empty key
    or an empty value), [DoCmdLogKV] reports the token and returns
    [RESULT_PARAM_ERR]: nothing is logged, whatever follows the token. *)
Theorem DoCmdLogKV_first_token_refused (cmd cname lvl msgID t : string)
    (rest : list string) (msg : string) (c : option Ctx) (v : Z) flag (w : W) :
  PmLogFindContext lib (PrvResolveContextNameAlias lib cname) w = (kPmLogErr_None, c) ->
  PmLogStringToLevel lib lvl = Some v ->
  v <> -1 ->
  v <> kPmLogLevel_Debug lib ->
  fst (fst (sscanf_kv t)) < 2 ->
  DoCmdLogKV lib (cmd :: cname :: lvl :: msgID :: (t :: rest) ++ [msg]) flag w =
    Done RESULT_PARAM_ERR
      (printed flag stderr ("key and value pair is wrong : %s" ++ LF) [ArgS t]) w.
Proof.
  intros Hfind Hlvl Hv Hd Hscan.
  rewrite DoCmdLogKV_unrolled. cbv zeta. rewrite Hfind. cbn [is_kPmLogErr_None negb].
  rewrite Hlvl.
  destruct (v =? -1) eqn:E1; [apply Z.eqb_eq in E1; contradiction|].
  destruct (v =? kPmLogLevel_Debug lib) eqn:E2; [apply Z.eqb_eq in E2; contradiction|].
  set (argv := cmd :: cname :: lvl :: msgID :: (t :: rest) ++ [msg]).
  assert (Hargc : Z.of_nat (length argv) = Z.of_nat (length rest) + 6).
  { subst argv. cbn [length app]. rewrite length_app. cbn [length]. lia. }
  change (argv !! 4%nat) with (Some t).
  assert (Hfuel : exists fuel, length argv = S fuel)
    by (exists (pred (length argv)); lia).
  destruct Hfuel as [fuel Hfuel]. rewrite Hfuel at 1.
  cbn [DoCmdLogKV_pairs].
  destruct (4 <? Z.of_nat (length argv)) eqn:E3; [|apply Z.ltb_ge in E3; lia].
  destruct (4 =? Z.of_nat (length argv) - 1) eqn:E4; [apply Z.eqb_eq in E4; lia|].
  cbn [negb]. change (0 =? 0) with true. cbv iota.
  destruct (kv_holds_strncat kvPair_zero EmptyString "{" kv_holds_zero)
    as (b1 & Hcat & _); [discriminate|cbn; lia|].
  rewrite Hcat. cbn [lift_opt]. rewrite bind_bind, bind_ret, bind_ret.
  destruct (sscanf_kv t) as [[n k] value]. cbn [fst] in Hscan.
  destruct (2 >? n) eqn:E5; [|rewrite Z.gtb_ltb in E5; apply Z.ltb_ge in E5; lia].
  repeat run_step. cbn [negb after]. repeat run_step. cbn [after].
  now rewrite ?app_nil_r.
Qed.

End LogKVFirstToken.

Section LogKVFirstTokenExamples.

Lemma DoCmdLogKV_first_token_refused_witness :
  DoCmdLogKV (Toy.lib 8)
    ("logkv" :: "ui" :: "info" :: "ID" :: ("badtoken" :: ["a=1"]) ++ ["hello"])%string
    false Toy.scenario =
    Done RESULT_PARAM_ERR
      (printed false stderr ("key and value pair is wrong : %s" ++ LF) [ArgS "badtoken"])
      Toy.scenario.
Proof.
  apply (DoCmdLogKV_first_token_refused (Toy.lib 8) "logkv" "ui" "info" "ID" "badtoken"
           ["a=1"%string] "hello" (Some 3%nat) 6 false Toy.scenario).
  - reflexivity.
  - reflexivity.
  - discriminate.
  - discriminate.
  - vm_compute. reflexivity.
Defined.

End LogKVFirstTokenExamples.
